(** * AEM Explorer: the repository access core ([core/repo.ts])

    A shallow embedding of the value codec ([serializeJcrValue],
    [unserializeJcrValue], [parseJcrValue]), of the fetch filter
    ([fetchJcrNode]) and of the diff-based property writer
    ([saveJcrProperties]) together with the properties the specification
    states about them. *)

From Stdlib Require Import ZArith NArith String Ascii List Bool Lia.
From Stdlib Require Import DecimalString DecimalZ.
Import ListNotations.
Local Open Scope list_scope.
Local Open Scope string_scope.
Set Warnings "-register-all,-abstract-large-number".

(** ** Strings *)

Definition is_digit (c : ascii) : bool :=
  let n := N_of_ascii c in (N.leb 48 n && N.leb n 57)%bool.

Definition is_hex_digit (c : ascii) : bool :=
  let n := N_of_ascii c in
  ((N.leb 48 n && N.leb n 57) || (N.leb 97 n && N.leb n 102)
   || (N.leb 65 n && N.leb n 70))%bool.

(** [\w] of a regular expression without the unicode flag: [A-Za-z0-9_]. *)
Definition is_word_char (c : ascii) : bool :=
  let n := N_of_ascii c in
  ((N.leb 48 n && N.leb n 57) || (N.leb 97 n && N.leb n 122)
   || (N.leb 65 n && N.leb n 90) || N.eqb n 95)%bool.

(** [parseInt(c, 16)] on a one-character string holding a hex digit. *)
Definition hex_value (c : ascii) : N :=
  let n := N_of_ascii c in
  if (N.leb 48 n && N.leb n 57)%bool then n - 48
  else if (N.leb 97 n && N.leb n 102)%bool then n - 87
  else n - 55.

(** [String.fromCodePoint] on a code point below 256. *)
Definition fromCodePoint (n : N) : string := String (ascii_of_N n) "".

(** [s[i]]: the one-character string at index [i], [None] for [undefined]. *)
Definition charAt (s : string) (i : nat) : option string :=
  option_map (fun c => String c "") (String.get i s).

Definition first_is (c : ascii) (s : string) : bool :=
  match s with
  | String d _ => Ascii.eqb d c
  | EmptyString => false
  end.

Fixpoint has_char (c : ascii) (s : string) : bool :=
  match s with
  | EmptyString => false
  | String d tl => (Ascii.eqb d c || has_char c tl)%bool
  end.

Fixpoint drop (n : nat) (s : string) : string :=
  match n, s with
  | S k, String _ tl => drop k tl
  | _, _ => s
  end.

Fixpoint take (n : nat) (s : string) : string :=
  match n, s with
  | S k, String c tl => String c (take k tl)
  | _, _ => ""
  end.

(** [Array.prototype.join]. *)
Fixpoint join (sep : string) (l : list string) : string :=
  match l with
  | [] => ""
  | [x] => x
  | x :: tl => x ++ sep ++ join sep tl
  end.

(** A string that neither holds a backslash nor starts with an opening
    bracket or brace: the codec leaves such a string alone. *)
Definition plain (s : string) : bool :=
  (negb (has_char "\" s) && negb (first_is "[" s) && negb (first_is "{" s))%bool.

(** Decimal rendering of an integer, as [String(n)] gives it for a safe
    integer. *)
Definition string_of_Z (z : Z) : string := NilZero.string_of_int (Z.to_int z).
Definition string_of_nat (n : nat) : string := string_of_Z (Z.of_nat n).

(** ** Regular expressions of the codec

    [String.prototype.replace] with a global regular expression that never
    matches the empty string: [m s] is the length of the match starting at
    the head of [s], [f] the replacement callback, [skip] the number of
    characters still covered by the previous match. *)
Fixpoint replace_g (m : string -> option nat) (f : string -> string)
    (skip : nat) (s : string) : string :=
  match skip with
  | S k =>
      match s with
      | String _ tl => replace_g m f k tl
      | EmptyString => ""
      end
  | O =>
      match s with
      | EmptyString => ""
      | String c tl =>
          match m s with
          | Some (S n) => f (take (S n) s) ++ replace_g m f n tl
          | _ => String c (replace_g m f 0 tl)
          end
      end
  end.

(** [GetSubstitution] of ECMAScript for a replacement template: [$$], [$&]
    and [$n] for a single digit [n]; a [$n] beyond the number of captures is
    left as it is written. *)
Fixpoint GetSubstitution (matched : string) (captures : list string)
    (template : string) : string :=
  match template with
  | EmptyString => ""
  | String c tl =>
      if Ascii.eqb c "$" then
        match tl with
        | String d tl' =>
            if Ascii.eqb d "$" then String "$" (GetSubstitution matched captures tl')
            else if Ascii.eqb d "&" then matched ++ GetSubstitution matched captures tl'
            else if is_digit d then
              let n := N.to_nat (N_of_ascii d - 48) in
              if (Nat.leb 1 n && Nat.leb n (length captures))%bool
              then nth (n - 1) captures "" ++ GetSubstitution matched captures tl'
              else String c (GetSubstitution matched captures tl)
            else String c (GetSubstitution matched captures tl)
        | EmptyString => String c ""
        end
      else String c (GetSubstitution matched captures tl)
  end.

(** [s.replace(/^[\[{]/, template)]: the expression has no capture group. *)
Definition replace_leading_bracket (template s : string) : string :=
  match s with
  | String c tl =>
      if (Ascii.eqb c "[" || Ascii.eqb c "{")%bool
      then GetSubstitution (String c "") [] template ++ tl
      else s
  | EmptyString => s
  end.

(** [/,/]: one comma. *)
Definition comma_match (s : string) : option nat :=
  if first_is "," s then Some 1 else None.

(** [/\\(u([0-9a-f]{4})|[,\\\[\{])/gi] at the head of [s]. *)
Definition escape_match (s : string) : option nat :=
  match s with
  | String b (String c tl) =>
      if Ascii.eqb b "\" then
        let short :=
          if (Ascii.eqb c "," || Ascii.eqb c "\" || Ascii.eqb c "[" || Ascii.eqb c "{")%bool
          then Some 2 else None in
        if (Ascii.eqb c "u" || Ascii.eqb c "U")%bool then
          match tl with
          | String h1 (String h2 (String h3 (String h4 _))) =>
              if (is_hex_digit h1 && is_hex_digit h2 && is_hex_digit h3 && is_hex_digit h4)%bool
              then Some 6 else short
          | _ => short
          end
        else short
      else None
  | _ => None
  end.

(** The callback [v => v[2] ? String.fromCodePoint(parseInt(v[2], 16)) : v[1]]:
    [v] is the matched text. *)
Definition escape_callback (v : string) : string :=
  match String.get 2 v with
  | Some h => fromCodePoint (hex_value h)
  | None => match charAt v 1 with Some c => c | None => "undefined" end
  end.

Definition unescape (s : string) : string := replace_g escape_match escape_callback 0 s.

(** The expression of [unserializeJcrValue] has two alternatives: an
    opening bracket at the start of the string, and a starred group of
    escaped delimiters (a backslash before a comma or a closing bracket) or
    characters other than these two, followed by a look-ahead for a comma or
    a closing bracket. [element_match] is the second alternative: the length
    of the element starting at the head of [s]. The greedy star first tries
    one more iteration, the escaped form before the single character, and
    only then stops and checks the look-ahead. *)
Definition first_some {A} (a b c : option A) : option A :=
  match a, b with
  | Some x, _ => Some x
  | None, Some y => Some y
  | None, None => c
  end.

Definition is_delim (c : ascii) : bool := (Ascii.eqb c "," || Ascii.eqb c "]")%bool.

Fixpoint element_match (s : string) : option nat :=
  match s with
  | EmptyString => None
  | String c tl =>
      first_some
        (if Ascii.eqb c "\" then
           match tl with
           | String d tl2 =>
               if is_delim d then option_map (fun n => S (S n)) (element_match tl2) else None
           | EmptyString => None
           end
         else None)
        (if is_delim c then None else option_map S (element_match tl))
        (if is_delim c then Some 0 else None)
  end.

(** [str.matchAll(...)] for that expression: the matches as (index, text),
    [pos] being the index of the head of [s] and [skip] the characters
    still covered by the previous match. After an empty match the search
    resumes one character further. *)
Fixpoint matchAll_elements (pos skip : nat) (s : string) : list (nat * string) :=
  match skip with
  | S k =>
      match s with
      | String _ tl => matchAll_elements (S pos) k tl
      | EmptyString => []
      end
  | O =>
      match s with
      | EmptyString => []
      | String c tl =>
          if (Nat.eqb pos 0 && Ascii.eqb c "[")%bool
          then (pos, "[") :: matchAll_elements (S pos) 0 tl
          else
            match element_match s with
            | Some (S n) => (pos, take (S n) s) :: matchAll_elements (S pos) n tl
            | Some O => (pos, "") :: matchAll_elements (S pos) 0 tl
            | None => matchAll_elements (S pos) 0 tl
            end
      end
  end.

(** The loop of [unserializeJcrValue] over the matches: a match is kept when
    it starts after [lastIndex]. *)
Fixpoint collect_matches (lastIndex : nat) (ms : list (nat * string)) : list string :=
  match ms with
  | [] => []
  | (index, text) :: tl =>
      if Nat.ltb lastIndex index
      then text :: collect_matches (index + String.length text) tl
      else collect_matches lastIndex tl
  end.

(** [/^\{(\w+)\}/]: the type name and what follows the closing brace. *)
Fixpoint span_word (s : string) : string * string :=
  match s with
  | String c tl =>
      if is_word_char c then let (w, r) := span_word tl in (String c w, r)
      else ("", s)
  | EmptyString => ("", "")
  end.

Definition type_prefix_match (str : string) : option (string * string) :=
  match str with
  | String c tl =>
      if Ascii.eqb c "{" then
        match span_word tl with
        | (String w ws, String d rest) =>
            if Ascii.eqb d "}" then Some (String w ws, rest) else None
        | _ => None
        end
      else None
  | EmptyString => None
  end.

(** The date expression of [parseJcrValue]: four digits, a dash, two
    digits, a dash, two digits, a [T], two digits, a colon, two digits, a
    colon, two digits, an optional dot with any number of digits, and an
    optional zone that is either [Z] or a dash, two digits, a colon and two
    digits; anchored at both ends. *)
Fixpoint digits_then (n : nat) (k : string -> bool) (s : string) : bool :=
  match n with
  | O => k s
  | S n' =>
      match s with
      | String c tl => (is_digit c && digits_then n' k tl)%bool
      | EmptyString => false
      end
  end.

Definition char_then (c : ascii) (k : string -> bool) (s : string) : bool :=
  match s with
  | String d tl => (Ascii.eqb d c && k tl)%bool
  | EmptyString => false
  end.

Fixpoint skip_digits (s : string) : string :=
  match s with
  | String c tl => if is_digit c then skip_digits tl else s
  | EmptyString => s
  end.

Definition date_zone (s : string) : bool :=
  match s with
  | EmptyString => true
  | String c tl =>
      if Ascii.eqb c "Z" then String.eqb tl ""
      else if Ascii.eqb c "-" then
        digits_then 2 (char_then ":" (digits_then 2 (fun r => String.eqb r ""))) tl
      else false
  end.

Definition date_fraction (s : string) : bool :=
  match s with
  | String c tl => if Ascii.eqb c "." then date_zone (skip_digits tl) else date_zone s
  | EmptyString => true
  end.

Definition is_iso_date (s : string) : bool :=
  digits_then 4 (char_then "-" (digits_then 2 (char_then "-" (digits_then 2
    (char_then "T" (digits_then 2 (char_then ":" (digits_then 2 (char_then ":"
      (digits_then 2 date_fraction)))))))))) s.

(** ** The platform

    Numbers and dates are the host's: IEEE doubles with [String(v)] and the
    unary plus, [Date] objects with [toISOString] and the [Date]
    constructor. The embedding takes them as an interface. *)
Class Platform := {
  number : Type;
  date : Type;
  num_of_nat : nat -> number;
  (** [a === b] *)
  num_strict_eq : number -> number -> bool;
  (** [!!v]: false for zero and [NaN] *)
  num_truthy : number -> bool;
  (** [Math.floor(v) - v === 0] *)
  num_is_integral : number -> bool;
  num_isNaN : number -> bool;
  (** [String(v)] *)
  num_toString : number -> string;
  (** [+s] *)
  string_toNumber : string -> number;
  (** [d.toISOString()], [None] when it raises a RangeError (invalid date) *)
  date_toISOString : date -> option string;
  (** [String(d)] *)
  date_toString : date -> string;
  (** [new Date(s)] *)
  date_new : string -> date
}.

(** What the language standard guarantees about the numbers that count the
    elements of an array or the characters of a string. *)
Class PlatformLaws (P : Platform) : Prop := {
  num_truthy_of_nat : forall n, num_truthy (num_of_nat n) = negb (Nat.eqb n 0);
  num_strict_eq_of_nat : forall n m,
    num_strict_eq (num_of_nat n) (num_of_nat m) = Nat.eqb n m
}.

(** ** A reference platform

    Numbers restricted to the integers and [NaN], dates as their UTC fields;
    the concrete runs below are computed on it. It reads back only the
    integer literals and the date format it writes itself. *)
Module Reference.

Definition ref_number := option Z.   (* [None] is [NaN] *)

Definition toNumber (s : string) : ref_number :=
  match s with
  | EmptyString => Some 0%Z
  | _ => option_map Z.of_int (NilZero.int_of_string s)
  end.

Record civil := {
  year : nat; month : nat; day : nat;
  hours : nat; minutes : nat; seconds : nat; milliseconds : nat
}.

Definition ref_date := option civil.   (* [None] is an invalid date *)

Definition digit_char (n : nat) : ascii := ascii_of_nat (48 + n).
Definition digit_val (c : ascii) : nat := nat_of_ascii c - 48.

Definition pad2 (n : nat) : string :=
  String (digit_char (n / 10)) (String (digit_char (n mod 10)) "").
Definition pad3 (n : nat) : string := String (digit_char (n / 100)) (pad2 (n mod 100)).
Definition pad4 (n : nat) : string := String (digit_char (n / 1000)) (pad3 (n mod 1000)).

Definition in_range (c : civil) : bool :=
  (Nat.leb (year c) 9999 && Nat.leb 1 (month c) && Nat.leb (month c) 12
   && Nat.leb 1 (day c) && Nat.leb (day c) 31 && Nat.leb (hours c) 23
   && Nat.leb (minutes c) 59 && Nat.leb (seconds c) 59
   && Nat.leb (milliseconds c) 999)%bool.

Definition toISOString (d : ref_date) : option string :=
  match d with
  | Some c =>
      if in_range c then
        Some (pad4 (year c) ++ "-" ++ pad2 (month c) ++ "-" ++ pad2 (day c) ++ "T"
              ++ pad2 (hours c) ++ ":" ++ pad2 (minutes c) ++ ":" ++ pad2 (seconds c)
              ++ "." ++ pad3 (milliseconds c) ++ "Z")
      else None
  | None => None
  end.

Fixpoint read_digits (n : nat) (acc : nat) (s : string) : option (nat * string) :=
  match n with
  | O => Some (acc, s)
  | S n' =>
      match s with
      | String c tl =>
          if is_digit c then read_digits n' (10 * acc + digit_val c) tl else None
      | EmptyString => None
      end
  end.

Definition expect (c : ascii) (s : string) : option string :=
  match s with
  | String d tl => if Ascii.eqb d c then Some tl else None
  | EmptyString => None
  end.

Definition obind {A B} (o : option A) (f : A -> option B) : option B :=
  match o with Some a => f a | None => None end.

Definition newDate (s : string) : ref_date :=
  obind (read_digits 4 0 s) (fun '(y, s) => obind (expect "-" s) (fun s =>
  obind (read_digits 2 0 s) (fun '(mo, s) => obind (expect "-" s) (fun s =>
  obind (read_digits 2 0 s) (fun '(d, s) => obind (expect "T" s) (fun s =>
  obind (read_digits 2 0 s) (fun '(h, s) => obind (expect ":" s) (fun s =>
  obind (read_digits 2 0 s) (fun '(mi, s) => obind (expect ":" s) (fun s =>
  obind (read_digits 2 0 s) (fun '(se, s) => obind (expect "." s) (fun s =>
  obind (read_digits 3 0 s) (fun '(ms, s) => obind (expect "Z" s) (fun s =>
  let c := {| year := y; month := mo; day := d; hours := h; minutes := mi;
              seconds := se; milliseconds := ms |} in
  if (String.eqb s "" && in_range c)%bool then Some c else None)))))))))))))).

#[export] Instance platform : Platform := {|
  number := ref_number;
  date := ref_date;
  num_of_nat := fun n => Some (Z.of_nat n);
  num_strict_eq := fun a b =>
    match a, b with Some x, Some y => Z.eqb x y | _, _ => false end;
  num_truthy := fun a => match a with Some x => negb (Z.eqb x 0) | None => false end;
  num_is_integral := fun a => match a with Some _ => true | None => false end;
  num_isNaN := fun a => match a with Some _ => false | None => true end;
  num_toString := fun a => match a with Some x => string_of_Z x | None => "NaN" end;
  string_toNumber := toNumber;
  date_toISOString := toISOString;
  date_toString := fun d =>
    match toISOString d with Some s => s | None => "Invalid Date" end;
  date_new := newDate
|}.

End Reference.

(** ** Exceptions *)
Inductive exn :=
| FetchError (statusCode : Z)
| JsError (message : string)
| OperationError (message : string).

(** [err?.message] *)
Definition exn_message (e : exn) : string :=
  match e with
  | FetchError code => "Server returned " ++ string_of_Z code
  | JsError m => m
  | OperationError m => m
  end.

(** The outcome of a computation: a result, an exception, or the model's
    recursion bound reached ([OutOfFuel], which no handler catches). *)
Inductive Result (A : Type) :=
| Ok (a : A)
| Throw (e : exn)
| OutOfFuel.
Arguments Ok {A} a.
Arguments Throw {A} e.
Arguments OutOfFuel {A}.

Definition rbind {A B} (r : Result A) (f : A -> Result B) : Result B :=
  match r with
  | Ok a => f a
  | Throw e => Throw e
  | OutOfFuel => OutOfFuel
  end.

Fixpoint rmap {A B} (f : A -> Result B) (l : list A) : Result (list B) :=
  match l with
  | [] => Ok []
  | x :: tl => rbind (f x) (fun y => rbind (rmap f tl) (fun ys => Ok (y :: ys)))
  end.

(** ** Constants ([core/constants.ts]) *)
Module VALUE_TYPE.
(** Modelled from the spec: [constants.ts] is not among the sources; the
    tags are the JCR type names the schema generator title-cases. *)
Definition string : String.string := "String".
Definition boolean : String.string := "Boolean".
Definition long : String.string := "Long".
Definition double : String.string := "Double".
Definition date : String.string := "Date".
End VALUE_TYPE.

Module PROP.
(** Modelled from the spec: [constants.ts] is not among the sources; each
    name is the JCR property its identifier spells. *)
Definition jcrPrimaryType := "jcr:primaryType".
Definition jcrCreated := "jcr:created".
Definition jcrCreatedBy := "jcr:createdBy".
Definition jcrLastModified := "jcr:lastModified".
Definition jcrLastModifiedBy := "jcr:lastModifiedBy".
Definition cqLastModified := "cq:lastModified".
Definition cqLastModifiedBy := "cq:lastModifiedBy".
Definition cqLastReplicated := "cq:lastReplicated".
Definition cqLastReplicatedBy := "cq:lastReplicatedBy".
Definition cqLastReplicationAction := "cq:lastReplicationAction".
End PROP.

Definition internalProps : list string :=
  [ PROP.jcrCreated; PROP.jcrCreatedBy; PROP.jcrLastModified; PROP.jcrLastModifiedBy;
    PROP.cqLastModified; PROP.cqLastModifiedBy; PROP.cqLastReplicated;
    PROP.cqLastReplicatedBy; PROP.cqLastReplicationAction ].

(** ** Objects

    The objects of the program are plain ones: the parsed answer of the
    server, object literals and the copy [{ ...properties }]. Their
    prototype is [Object.prototype], whose members they inherit: the
    constructor, ten methods and the accessor [__proto__]. *)
Definition object_prototype_names : list string :=
  [ "constructor"; "__defineGetter__"; "__defineSetter__"; "hasOwnProperty";
    "__lookupGetter__"; "__lookupSetter__"; "isPrototypeOf"; "propertyIsEnumerable";
    "toString"; "valueOf"; "__proto__"; "toLocaleString" ].

(** [i in {}] *)
Definition inherited (i : string) : bool := existsb (String.eqb i) object_prototype_names.

(** [f.length] of the inherited function under the name [i]: the number of
    its parameters. *)
Definition method_length (i : string) : nat :=
  if existsb (String.eqb i) ["__defineGetter__"; "__defineSetter__"] then 2
  else if existsb (String.eqb i)
            ["constructor"; "hasOwnProperty"; "isPrototypeOf"; "propertyIsEnumerable";
             "__lookupGetter__"; "__lookupSetter__"] then 1
  else 0.

(** [String(f)] of the inherited function under the name [i]; the
    constructor is the function [Object]. *)
Definition method_text (i : string) : string :=
  "function " ++ (if String.eqb i "constructor" then "Object" else i)
  ++ "() { [native code] }".

(** ** Values

    What a property tree holds: the JSON values the server returns, [Date]
    objects the codec creates, and [undefined]. An object keeps its keys in
    insertion order (the model does not reorder integer-like keys as the
    host does). *)
Section Repo.
Context {P : Platform}.

Inductive value :=
| VUndefined
| VNull
| VString (s : string)
| VBoolean (b : bool)
| VNumber (n : number)
| VDate (d : date)
| VArray (l : list value)
| VObject (o : list (string * value)).

Definition tree := list (string * value).

(** [Object.keys(data).includes(i)]: [i] is a property of [data] itself. *)
Fixpoint has_key (data : tree) (i : string) : bool :=
  match data with
  | [] => false
  | (k, _) :: tl => (String.eqb k i || has_key tl i)%bool
  end.

(** [i in data]: a property of [data] itself or an inherited one. *)
Definition in_object (data : tree) (i : string) : bool :=
  (has_key data i || inherited i)%bool.

(** [data[i]] for a key [i] of [data] itself, or one that no object
    inherits: the value stored, [undefined] when there is none. *)
Fixpoint get (data : tree) (i : string) : value :=
  match data with
  | [] => VUndefined
  | (k, v) :: tl => if String.eqb k i then v else get tl i
  end.

(** [data[i]] for any key: the value stored under [i], or else what
    [data] inherits under that name, [Object.prototype] itself under
    [__proto__] and a function under the other names. *)
Inductive member :=
| Own (v : value)
| Method (i : string)
| ObjectPrototype.

Definition lookup (data : tree) (i : string) : member :=
  if has_key data i then Own (get data i)
  else if String.eqb i "__proto__" then ObjectPrototype
  else if inherited i then Method i
  else Own VUndefined.

(** [delete data[i]] *)
Definition delete (data : tree) (i : string) : tree :=
  filter (fun kv => negb (String.eqb (fst kv) i)) data.

(** [data[i] = v] *)
Fixpoint set (data : tree) (i : string) (v : value) : tree :=
  match data with
  | [] => [(i, v)]
  | (k, w) :: tl => if String.eqb k i then (k, v) :: tl else (k, w) :: set tl i v
  end.

(** [Object.keys(data)] *)
Definition keys (data : tree) : list string := map fst data.

Definition isArray (v : value) : bool :=
  match v with VArray _ => true | _ => false end.

(** [typeof v === 'object'] *)
Definition is_typeof_object (v : value) : bool :=
  match v with
  | VNull | VDate _ | VArray _ | VObject _ => true
  | _ => false
  end.

(** [!!v] *)
Definition truthy (v : value) : bool :=
  match v with
  | VUndefined | VNull => false
  | VString s => negb (String.eqb s "")
  | VBoolean b => b
  | VNumber n => num_truthy n
  | VDate _ | VArray _ | VObject _ => true
  end.

(** [a === b] between a value of the desired tree and one of the fetched
    tree: two objects are never the same object. *)
Definition strict_eq (a b : value) : bool :=
  match a, b with
  | VUndefined, VUndefined => true
  | VNull, VNull => true
  | VString s, VString t => String.eqb s t
  | VBoolean x, VBoolean y => Bool.eqb x y
  | VNumber n, VNumber m => num_strict_eq n m
  | _, _ => false
  end.

(** [String(v)]; an array joins its elements with commas, [null] and
    [undefined] elements giving the empty string. *)
Fixpoint js_String (v : value) : string :=
  match v with
  | VUndefined => "undefined"
  | VNull => "null"
  | VString s => s
  | VBoolean b => if b then "true" else "false"
  | VNumber n => num_toString n
  | VDate d => date_toString d
  | VArray l =>
      join "," (map (fun e => match e with
                              | VUndefined | VNull => ""
                              | _ => js_String e
                              end) l)
  | VObject _ => "[object Object]"
  end.

(** Whether [String(v)] returns. The conversion calls the method
    [toString] of an object: the inherited one, unless the object has a
    property of that name itself; that one is a value and no function, and
    the conversion then fails. An array converts its elements. *)
Fixpoint stringifiable (v : value) : bool :=
  match v with
  | VArray l => forallb stringifiable l
  | VObject o => negb (has_key o "toString")
  | _ => true
  end.

(** [v?.length] *)
Definition js_length (v : value) : value :=
  match v with
  | VString s => VNumber (num_of_nat (String.length s))
  | VArray l => VNumber (num_of_nat (length l))
  | VObject o => get o "length"
  | _ => VUndefined
  end.

(** [v[j]] for a number [j] *)
Definition js_index (v : value) (j : nat) : value :=
  match v with
  | VString s => match charAt s j with Some c => VString c | None => VUndefined end
  | VArray l => nth j l VUndefined
  | VObject o => get o (string_of_nat j)
  | _ => VUndefined
  end.

(** [m?.length] and [m[j]] for what [lookup] gives. *)
Definition member_length (m : member) : value :=
  match m with
  | Own v => js_length v
  | Method i => VNumber (num_of_nat (method_length i))
  | ObjectPrototype => VUndefined
  end.

Definition member_index (m : member) (j : nat) : value :=
  match m with
  | Own v => js_index v j
  | Method _ | ObjectPrototype => VUndefined
  end.

(** [isChildNode(data, i)] for a key [i] of [data] itself. *)
Definition isChildNode (data : tree) (i : string) : bool :=
  (is_typeof_object (get data i) && negb (isArray (get data i)))%bool.

(** ** The value codec *)

Fixpoint getJcrValueType (v : value) : string :=
  match v with
  | VString _ => VALUE_TYPE.string
  | VBoolean _ => VALUE_TYPE.boolean
  | VNumber n => if num_is_integral n then VALUE_TYPE.long else VALUE_TYPE.double
  | VArray l =>
      let type := match l with
                  | [] => ""                     (* [value[0]] is [undefined] *)
                  | v0 :: _ => getJcrValueType v0
                  end in
      if String.eqb type "" then type else type ++ "[]"
  | VDate _ => VALUE_TYPE.date
  | VUndefined | VNull | VObject _ => ""
  end.

Definition formatJcrValue (v : value) : Result string :=
  if String.eqb (getJcrValueType v) VALUE_TYPE.date then
    match v with
    | VDate d =>
        match date_toISOString d with
        | Some s => Ok s
        | None => Throw (JsError "Invalid time value")
        end
    | _ => Throw (JsError "value.toISOString is not a function")
    end
  else if stringifiable v then Ok (js_String v)
  else Throw (JsError "Cannot convert object to primitive value").

(** [formatJcrValue(m)] for what [lookup] gives: a function and
    [Object.prototype] have no value type and are rendered by [String]. *)
Definition format_member (m : member) : Result string :=
  match m with
  | Own v => formatJcrValue v
  | Method i => Ok (method_text i)
  | ObjectPrototype => Ok "[object Object]"
  end.

Definition parseJcrValue (value0 : string) (typeHint0 : string) : value :=
  let value := unescape value0 in
  let typeHint :=
    if String.eqb typeHint0 "" then
      if (String.eqb value "true" || String.eqb value "false")%bool then VALUE_TYPE.boolean
      else if is_iso_date value then VALUE_TYPE.date
      else if (negb (String.eqb value "") && negb (num_isNaN (string_toNumber value)))%bool
           then VALUE_TYPE.double
      else typeHint0
    else typeHint0 in
  if String.eqb typeHint VALUE_TYPE.boolean then VBoolean (String.eqb value "true")
  else if String.eqb typeHint VALUE_TYPE.date then VDate (date_new value)
  else if (String.eqb typeHint VALUE_TYPE.double || String.eqb typeHint VALUE_TYPE.long)%bool
       then VNumber (string_toNumber value)
  else if String.eqb value "\0" then VString ""
  else VString value.

Definition serializeJcrValue (v : value) : Result string :=
  match v with
  | VArray l =>
      match l with
      | [VString ""] => Ok "[\0]"
      | _ =>
          rbind (rmap (fun e => rbind (formatJcrValue e) (fun s =>
                         Ok (replace_g comma_match (fun m => GetSubstitution m [] "\,") 0 s))) l)
                (fun parts => Ok ("[" ++ join "," parts ++ "]"))
      end
  | _ => rbind (formatJcrValue v) (fun s => Ok (replace_leading_bracket "\$1" s))
  end.

Record Unserialized := { u_value : value; u_typeHint : string }.

Definition unserializeJcrValue (str0 : string) : Unserialized :=
  let (str, typeHint) :=
    match type_prefix_match str0 with
    | Some (name, rest) => (rest, name)
    | None => (str0, "")
    end in
  let isArray := first_is "[" str in
  let value :=
    if isArray
    then VArray (map (fun m => parseJcrValue m typeHint)
                     (collect_matches 0 (matchAll_elements 0 0 str)))
    else parseJcrValue str typeHint in
  {| u_value := value;
     u_typeHint := if String.eqb typeHint "" then typeHint
                   else typeHint ++ (if isArray then "[]" else "") |}.

(** ** The transport ([core/client.ts])

    A node is addressed by its path; the server is a state machine the
    embedding does not look into. [fetchJSON] answers with the parsed JSON
    object, [post] with the [changes] of the response ([None] when the
    response has none), either of them with an exception when the request
    fails. Every request is recorded with its failure, if any, and so are the
    lines written to the message channel, in the order they are issued. *)
Definition Uri := string.
Definition FormData := list (string * string).

(** [Uri.joinPath(jcrPath, name)] for a plain segment [name]. *)
Definition joinPath (jcrPath : Uri) (name : string) : Uri := jcrPath ++ "/" ++ name.

Inductive Event :=
| GET (url : string) (failure : option exn)
| POST (url : Uri) (form : FormData) (failure : option exn)
| Message (text : string).

Class Transport := {
  World : Type;
  fetchJSON : string -> World -> (exn + tree) * World;
  post : Uri -> FormData -> World -> (exn + option (list string)) * World
}.

Context {T : Transport}.

Definition M (A : Type) : Type := World -> Result A * (World * list Event).

Definition ret {A} (a : A) : M A := fun w => (Ok a, (w, [])).
Definition throw {A} (e : exn) : M A := fun w => (Throw e, (w, [])).
Definition lift {A} (r : Result A) : M A := fun w => (r, (w, [])).

Definition bind {A B} (m : M A) (f : A -> M B) : M B :=
  fun w =>
    match m w with
    | (Ok a, (w1, l1)) => let '(r, (w2, l2)) := f a w1 in (r, (w2, (l1 ++ l2)%list))
    | (Throw e, s) => (Throw e, s)
    | (OutOfFuel, s) => (OutOfFuel, s)
    end.

(** [try { m } catch (err) { h err }] *)
Definition try_catch {A} (m : M A) (h : exn -> M A) : M A :=
  fun w =>
    match m w with
    | (Throw e, (w1, l1)) => let '(r, (w2, l2)) := h e w1 in (r, (w2, (l1 ++ l2)%list))
    | other => other
    end.

Notation "x <- m ;; k" := (bind m (fun x => k))
  (at level 61, m at next level, right associativity).
Notation "m ;;; k" := (bind m (fun _ => k))
  (at level 61, right associativity).
Notation "' pat <- m ;; k" := (bind m (fun x => let 'pat := x in k))
  (at level 61, pat pattern, m at next level, right associativity).

Definition emit (e : Event) : M unit := fun w => (Ok tt, (w, [e])).

(** [writeMessage(text)] *)
Definition writeMessage (text : string) : M unit := emit (Message text).

Definition client_fetchJSON (url : string) : M tree :=
  fun w =>
    match fetchJSON url w with
    | (inr data, w1) => (Ok data, (w1, [GET url None]))
    | (inl err, w1) => (Throw err, (w1, [GET url (Some err)]))
    end.

Definition client_post (url : Uri) (form : FormData) : M (option (list string)) :=
  fun w =>
    match post url form w with
    | (inr res, w1) => (Ok res, (w1, [POST url form None]))
    | (inl err, w1) => (Throw err, (w1, [POST url form (Some err)]))
    end.

(** [throw new OperationError(message)]: the constructor writes the message
    to the channel. *)
Definition throw_OperationError {A} (message : string) : M A :=
  writeMessage ("[ERROR] " ++ message) ;;; throw (OperationError message).

(** ** Fetching a node *)
Definition CRX_ROOT := "/crx/server/crx.default/jcr:root".
Definition FETCH_FILTER : Z := 1.
Definition FETCH_FILTER_CHILDREN : Z := 2.
Definition FETCH_RECURSIVE : Z := 4.

Inductive FetchMode := Normal | Property | Children | Recursive | RecursiveChildren.

Definition mode_bits (mode : FetchMode) : Z :=
  match mode with
  | Normal => 0
  | Property => FETCH_FILTER
  | Children => Z.lor FETCH_FILTER FETCH_FILTER_CHILDREN
  | Recursive => FETCH_RECURSIVE
  | RecursiveChildren => Z.lor (Z.lor FETCH_FILTER FETCH_FILTER_CHILDREN) FETCH_RECURSIVE
  end.

(** [typeof v === 'object' && !Array.isArray(v)]; [isChildNode data i] is
    this test on [data[i]], the value stored under the key [i]. *)
Definition is_child_value (v : value) : bool :=
  (is_typeof_object v && negb (isArray v))%bool.

(** [cleanData(data, keepChildren, recursive)]; the source deletes in place,
    the embedding returns the object that is left. *)
Fixpoint cleanData_value (v : value) : value :=
  match v with
  | VObject o =>
      VObject ((fix entries (l : tree) : tree :=
                  match l with
                  | [] => []
                  | (i, w) :: tl =>
                      if is_child_value w then (i, cleanData_value w) :: entries tl
                      else entries tl
                  end) o)
  | _ => v
  end.

Definition cleanData (data : tree) (keepChildren recursive : bool) : tree :=
  flat_map (fun kv : string * value =>
              let (i, w) := kv in
              if negb (Bool.eqb (is_child_value w) keepChildren) then []
              else if (keepChildren && recursive)%bool then [(i, cleanData_value w)]
              else [kv]) data.

(** The address of a node at a depth: [CRX_ROOT], the path, the depth when
    it is not negative, and the extension. *)
Definition fetch_url (jcrPath : Uri) (depth : Z) : string :=
  CRX_ROOT ++ jcrPath ++ (if Z.ltb depth 0 then "" else "." ++ string_of_Z depth) ++ ".json".

Definition fetchJcrNode (jcrPath : Uri) (mode : FetchMode) (depth0 : Z) : M tree :=
  let mode := mode_bits mode in
  let depth :=
    if Z.eqb (Z.land mode FETCH_RECURSIVE) 0
    then Z.shiftr (Z.land mode FETCH_FILTER_CHILDREN) 1
    else depth0 in
  data <- client_fetchJSON (fetch_url jcrPath depth) ;;
  if negb (Z.eqb (Z.land mode FETCH_FILTER) 0)
  then ret (cleanData data (negb (Z.eqb (Z.land mode FETCH_FILTER_CHILDREN) 0))
                           (negb (Z.eqb (Z.land mode FETCH_RECURSIVE) 0)))
  else ret data.

(** ** The diff-based property writer *)
Record SaveOptions := {
  ignoreProps : list string;     (* [options.ignoreProps || []] *)
  deleteProps : bool;
  deleteChildren : bool
}.

(** [{ ...properties }] on what [processNode] receives: an object, or
    [null] or [undefined] for a child stored as such. *)
Definition spread (properties : value) : tree :=
  match properties with
  | VObject o => o
  | _ => []
  end.

(** [i[0] === ':'] *)
Definition is_meta (i : string) : bool := first_is ":" i.

(** What the two passes of [processNode] build. *)
Record Draft := {
  d_properties : tree;
  d_childrenToDelete : list string;
  d_formData : FormData;
  d_childProps : tree
}.

(** The body of the loop over the keys of [currentData]. *)
Definition scan_current (options : SaveOptions) (currentData : tree)
    (st : Draft) (i : string) : Draft :=
  if negb (in_object (d_properties st) i) then
    if is_meta i then
      {| d_properties := set (d_properties st) i (get currentData i);
         d_childrenToDelete := d_childrenToDelete st;
         d_formData := d_formData st;
         d_childProps := d_childProps st |}
    else if isChildNode currentData i then
      if deleteChildren options then
        {| d_properties := d_properties st;
           d_childrenToDelete := List.app (d_childrenToDelete st) [i];
           d_formData := d_formData st;
           d_childProps := d_childProps st |}
      else st
    else if deleteProps options then
      if truthy (get (d_properties st) PROP.jcrPrimaryType) then
        {| d_properties := d_properties st;
           d_childrenToDelete := d_childrenToDelete st;
           d_formData := List.app (d_formData st) [(i ++ "@Delete", "")];
           d_childProps := d_childProps st |}
      else st
    else st
  else st.

(** [value.every((v, j) => v === current[j])] *)
Fixpoint every_equal (l : list value) (current : member) (j : nat) : bool :=
  match l with
  | [] => true
  | v :: tl => (strict_eq v (member_index current j) && every_equal tl current (S j))%bool
  end.

(** The form entries one key of the desired tree contributes, and whether it
    is a child to recurse into: the body of the loop over [properties]. The
    form holds texts: the type hint, a type name, is entered as [String]
    gives it. *)
Definition scan_desired (properties currentData : tree) (i : string)
    : Result (FormData * bool) :=
  if is_meta i then Ok ([], false)
  else
    let value := get properties i in
    let current := lookup currentData i in
    let hint (inferred : string) : FormData :=
      let typeHint := if truthy (get properties (":" ++ i))
                      then js_String (get properties (":" ++ i)) else inferred in
      if String.eqb typeHint "" then [] else [(i ++ "@TypeHint", typeHint)] in
    match value with
    | VArray l =>
        if (strict_eq (VNumber (num_of_nat (length l))) (member_length current)
            && every_equal l current 0)%bool
        then Ok ([], false)
        else
          rbind
            (if (Nat.eqb (length l) 0 && truthy (member_length current))%bool then
               match current with
               | Own (VArray cl) =>
                   rbind (rmap (fun v => rbind (formatJcrValue v) (fun s => Ok (i, "-" ++ s))) cl)
                         (fun es => Ok ((i ++ "@Patch", "true") :: es))
               | _ => Throw (JsError "currentData[i].forEach is not a function")
               end
             else rmap (fun v => rbind (formatJcrValue v) (fun s => Ok (i, s))) l)
            (fun es => Ok (List.app es (hint (getJcrValueType value)), false))
    | _ =>
        if String.eqb (getJcrValueType value) "" then Ok (hint "", true)
        else
          rbind (formatJcrValue value) (fun formatted =>
          rbind (format_member current) (fun formattedCurrent =>
          if String.eqb formatted formattedCurrent then Ok ([], false)
          else Ok ((i, formatted) :: hint (getJcrValueType (VString formatted)), false)))
    end.

(** [childProps[i] = v] on the object literal [childProps]. Under the
    name [__proto__] the assignment runs the inherited setter: it makes no
    property of [childProps] itself and gives the object another prototype
    (see [child_proto]). *)
Definition assign_child (childProps : tree) (i : string) (v : value) : tree :=
  if String.eqb i "__proto__" then childProps else set childProps i v.

Fixpoint scan_all_desired (properties currentData : tree) (ks : list string)
    (formData : FormData) (childProps : tree) : Result (FormData * tree) :=
  match ks with
  | [] => Ok (formData, childProps)
  | i :: tl =>
      rbind (scan_desired properties currentData i) (fun '(es, child) =>
        scan_all_desired properties currentData tl (List.app formData es)
          (if child then assign_child childProps i (get properties i) else childProps))
  end.

(** The prototype of [childProps] once the loop over [properties] has run:
    [Object.prototype], unless [properties] has a key [__proto__] with an
    object or [null], which the setter then made the prototype. An object
    has a key once, so the setter runs at most once; it ignores
    [undefined], and a scalar or an array under that key is written as a
    property and not assigned to [childProps]. *)
Inductive Proto :=
| ProtoDefault
| ProtoNull
| ProtoObject (o : tree).

Definition child_proto (properties : tree) : Proto :=
  match get properties "__proto__" with
  | VObject o => ProtoObject o
  | VNull => ProtoNull
  | _ => ProtoDefault
  end.

(** [!!childProps[v]]: the property of [childProps] itself, or else what
    its prototype gives. *)
Definition child_truthy (childProps : tree) (proto : Proto) (v : string) : bool :=
  if has_key childProps v then truthy (get childProps v)
  else
    match proto with
    | ProtoDefault => inherited v
    | ProtoNull => false
    | ProtoObject o => if has_key o v then truthy (get o v) else inherited v
    end.

(** [xs.some((v, i) => keys[i] !== v)] *)
Fixpoint some_differs (xs keys : list string) : bool :=
  match xs, keys with
  | [], _ => false
  | _ :: _, [] => true
  | v :: xs', k :: keys' => (negb (String.eqb k v) || some_differs xs' keys')%bool
  end.

Definition deleteJcrNode (jcrPath : Uri) : M unit :=
  try_catch
    (res <- client_post jcrPath [(":operation", "delete")] ;;
     match res with
     | None => throw (JsError "Cannot read properties of undefined (reading 'length')")
     | Some [] => throw (JsError "The expression evaluated to a falsy value")
     | Some _ => writeMessage ("repo: Deleted " ++ jcrPath)
     end)
    (fun err => throw_OperationError ("Unable to delete " ++ jcrPath ++ ": " ++ exn_message err)).

(** [await Promise.all(names.map(v => deleteJcrNode(...)))]: every request is
    issued, in the order of the list; the call fails when one of them fails
    (the embedding reports the first of them in that order). *)
Fixpoint delete_all (jcrPath : Uri) (names : list string) : M unit :=
  match names with
  | [] => ret tt
  | v :: tl =>
      fun w =>
        match deleteJcrNode (joinPath jcrPath v) w with
        | (Ok _, (w1, l1)) =>
            let '(r, (w2, l2)) := delete_all jcrPath tl w1 in (r, (w2, (l1 ++ l2)%list))
        | (failure, (w1, l1)) =>
            let '(_, (w2, l2)) := delete_all jcrPath tl w1 in (failure, (w2, (l1 ++ l2)%list))
        end
  end.

(** [ignoredProps.forEach(v => delete data[v])] *)
Definition delete_each (ignoredProps : list string) (data : tree) : tree :=
  fold_left delete ignoredProps data.

Definition truthy_key (ks : list string) : bool :=
  match ks with
  | k :: _ => negb (String.eqb k "")
  | [] => false
  end.

(** The first step of [processNode]: the current node, an empty object when
    the server answers 404. *)
Definition fetch_current (jcrPath : Uri) : M tree :=
  try_catch (fetchJcrNode jcrPath Normal (-1))
    (fun err => match err with
                | FetchError statusCode =>
                    if negb (Z.eqb statusCode 404) then throw err else ret []
                | _ => throw err
                end).

(** What [processNode] computes between the fetch and the first write: the
    mutation [formData], the children to delete and the children to recurse
    into. *)
Record Plan := {
  plan_currentData : tree;
  plan_formData : FormData;
  plan_childrenToDelete : list string;
  plan_childProps : tree;
  plan_childProto : Proto
}.

Definition order_entry (order : option nat) : FormData :=
  match order with
  | Some n => [(":order", string_of_nat n)]
  | None => []
  end.

Definition plan (options : SaveOptions) (currentData0 : tree) (properties0 : value)
    (order : option nat) : Result Plan :=
  let ignoredProps := List.app internalProps (ignoreProps options) in
  let currentData := delete_each ignoredProps currentData0 in
  let properties1 := delete_each ignoredProps (spread properties0) in
  let st := fold_left (scan_current options currentData) (keys currentData)
              {| d_properties := properties1; d_childrenToDelete := [];
                 d_formData := []; d_childProps := [] |} in
  let properties := d_properties st in
  rbind (scan_all_desired properties currentData (keys properties) (d_formData st) [])
    (fun '(formData1, childProps) =>
       Ok {| plan_currentData := currentData;
             plan_formData := List.app formData1 (order_entry order);
             plan_childrenToDelete := d_childrenToDelete st;
             plan_childProps := childProps;
             plan_childProto := child_proto properties |}).

(** The loop over [keys]: one nested call after the other. *)
Fixpoint children_loop (recurse : Uri -> value -> option nat -> M (list string))
    (jcrPath : Uri) (childProps : tree) (reorder : bool) (i : nat) (rest : list string)
    : M (list string) :=
  match rest with
  | [] => ret []
  | k :: rest' =>
      cs <- recurse (joinPath jcrPath k) (get childProps k)
                    (if reorder then Some i else None) ;;
      cs' <- children_loop recurse jcrPath childProps reorder (S i) rest' ;;
      ret (List.app cs cs')
  end.

(** [Object.keys(currentData).filter(v => childProps[v]).some((v, i) => keys[i] !== v)] *)
Definition needs_reorder (currentData childProps : tree) (proto : Proto) : bool :=
  some_differs (filter (child_truthy childProps proto) (keys currentData))
               (keys childProps).

(** The write of the node itself: one request when the mutation is not
    empty. The result is the [changes] of the response. *)
Definition write_node (jcrPath : Uri) (pl : Plan) : M (list string) :=
  match plan_formData pl with
  | [] => ret []
  | _ :: _ =>
      res <- client_post jcrPath (plan_formData pl) ;;
      match res with
      | Some cs => ret cs
      | None => throw (JsError "res.changes is not iterable")
      end
  end.

Definition delete_children (jcrPath : Uri) (pl : Plan) : M unit :=
  if truthy_key (plan_childrenToDelete pl)
  then delete_all jcrPath (plan_childrenToDelete pl) else ret tt.

(** The writes of one call: the mutation of the node, the deletions, the
    nested calls. The result is what the call pushes onto [changes]. *)
Definition apply_plan (recurse : Uri -> value -> option nat -> M (list string))
    (jcrPath : Uri) (pl : Plan) : M (list string) :=
  changes1 <- write_node jcrPath pl ;;
  delete_children jcrPath pl ;;;
  if truthy_key (keys (plan_childProps pl)) then
    cs <- children_loop recurse jcrPath (plan_childProps pl)
            (needs_reorder (plan_currentData pl) (plan_childProps pl) (plan_childProto pl))
            0 (keys (plan_childProps pl)) ;;
    ret (List.app changes1 cs)
  else ret changes1.

(** One call of [processNode], the nested calls being [recurse]. *)
Definition reconcile (options : SaveOptions)
    (recurse : Uri -> value -> option nat -> M (list string))
    (jcrPath : Uri) (properties : value) (order : option nat) (currentData0 : tree)
    : M (list string) :=
  pl <- lift (plan options currentData0 properties order) ;;
  apply_plan recurse jcrPath pl.

Definition processNode_body (options : SaveOptions)
    (recurse : Uri -> value -> option nat -> M (list string))
    (jcrPath : Uri) (properties : value) (order : option nat) : M (list string) :=
  currentData0 <- fetch_current jcrPath ;;
  reconcile options recurse jcrPath properties order currentData0.

(** The nesting depth of the objects of a value: the recursion of
    [processNode] goes one level down per call. *)
Fixpoint depth (v : value) : nat :=
  match v with
  | VObject o =>
      S ((fix entries (l : tree) : nat :=
            match l with
            | [] => 0
            | (_, w) :: tl => Nat.max (depth w) (entries tl)
            end) o)
  | _ => 0
  end.

Fixpoint processNode (options : SaveOptions) (fuel : nat)
    (jcrPath : Uri) (properties : value) (order : option nat) : M (list string) :=
  match fuel with
  | O => fun w => (OutOfFuel, (w, []))
  | S fuel' => processNode_body options (processNode options fuel') jcrPath properties order
  end.

Definition saveJcrProperties (jcrPath : Uri) (properties : tree) (options : SaveOptions)
    : M unit :=
  try_catch
    (changes <- processNode options (S (depth (VObject properties))) jcrPath
                  (VObject properties) None ;;
     match changes with
     | [] => ret tt
     | _ :: _ => writeMessage ("repo: Updated " ++ jcrPath)
     end)
    (fun err => throw_OperationError ("Unable to update " ++ jcrPath ++ ": " ++ exn_message err)).



End Repo.

Arguments M {P T} A.

(** ** A server with fixed content

    It answers a fetch with the object stored under the address, or with
    404, and acknowledges every write with the path written; used for the
    concrete runs. *)
Section StaticServer.
Context {P : Platform}.

Fixpoint lookup_url (content : list (string * tree)) (url : string) : option tree :=
  match content with
  | [] => None
  | (u, t) :: tl => if String.eqb u url then Some t else lookup_url tl url
  end.

Definition static_server (content : list (string * tree)) : Transport := {|
  World := unit;
  fetchJSON := fun url w =>
    match lookup_url content url with
    | Some t => (inr t, w)
    | None => (inl (FetchError 404), w)
    end;
  post := fun url form w => (inr (Some [url]), w)
|}.

(** The address [fetchJcrNode] asks for in [Normal] mode. *)
Definition node_url (jcrPath : Uri) : string := fetch_url jcrPath 0.

Definition run {A} {T : Transport} (m : @M P T A) (w : World) : Result A * list Event :=
  let '(r, (_, l)) := m w in (r, l).

End StaticServer.

(** Values of the reference platform. *)
Definition int_value (z : Z) : @value Reference.platform :=
  @VNumber Reference.platform (Some z).

Definition date_value (y mo d h mi s ms : nat) : @value Reference.platform :=
  @VDate Reference.platform
    (Some {| Reference.year := y; Reference.month := mo; Reference.day := d;
             Reference.hours := h; Reference.minutes := mi; Reference.seconds := s;
             Reference.milliseconds := ms |}).

(** A node with a title, a child and a grandchild, as the server gives it. *)
Definition sample_node : @tree Reference.platform :=
  [ ("title", VString "Page");
    ("child", VObject [ ("name", VString "c");
                        ("grand", VObject [("x", VString "y")]) ]) ].

Definition sample_server : Transport :=
  static_server [ (fetch_url "/n" 1, sample_node); (fetch_url "/n" (-1), sample_node) ].

(** A current node and a desired tree: one title changed, one property no
    longer wanted, one array emptied. *)
Definition sample_current : @tree Reference.platform :=
  [ ("jcr:primaryType", VString "nt:unstructured");
    ("title", VString "Old");
    ("obsolete", VString "1");
    ("tags", VArray [VString "a"; VString "b"]) ].

Definition sample_desired : @tree Reference.platform :=
  [ ("jcr:primaryType", VString "nt:unstructured");
    ("title", VString "New");
    ("tags", VArray []) ].

Definition keep_options : SaveOptions :=
  {| ignoreProps := []; deleteProps := false; deleteChildren := false |}.

Definition delete_options : SaveOptions :=
  {| ignoreProps := []; deleteProps := true; deleteChildren := true |}.






(** The scenario of the specification: a node whose title is to change. *)
Definition title_current : @tree Reference.platform :=
  [ ("jcr:primaryType", VString "nt:unstructured"); ("title", VString "Old") ].

Definition title_desired : @tree Reference.platform :=
  [ ("jcr:primaryType", VString "nt:unstructured"); ("title", VString "New") ].










(** ** The desired tree as an object graph

    [saveJcrProperties] receives a reference to an object of the caller, and
    the objects nested in it are references too. To say what a call does to
    them, the objects live in a store and [processNode] is written with the
    reads and writes of the source: [{ ...properties }] allocates an object,
    [delete properties[v]] and [properties[i] = currentData[i]] write to the
    object the variable [properties] then names. The fetched [currentData],
    [formData] and [childProps] are created by the call and never leave it;
    they stay values. An array of the desired tree is only read ([length],
    [every], [forEach]) and is carried as a value as well. *)
Section Heap.
Context {P : Platform} {T : Transport}.

Definition loc := nat.

Inductive hvalue :=
| HVal (v : value)
| HRef (l : loc).

Definition hobj := list (string * hvalue).
Definition heap := list hobj.

Definition h_read (h : heap) (l : loc) : hobj := nth l h [].

(** The store with the object at [l] replaced. *)
Fixpoint h_write (l : loc) (o : hobj) (h : heap) {struct h} : heap :=
  match h, l with
  | [], _ => []
  | _ :: tl, O => o :: tl
  | x :: tl, S l' => x :: h_write l' o tl
  end.

(** [o[i]] *)
Fixpoint h_get (o : hobj) (i : string) : hvalue :=
  match o with
  | [] => HVal VUndefined
  | (k, v) :: tl => if String.eqb k i then v else h_get tl i
  end.

(** [delete o[i]] *)
Definition h_delete (o : hobj) (i : string) : hobj :=
  filter (fun kv => negb (String.eqb (fst kv) i)) o.

(** [o[i] = v] *)
Fixpoint h_set (o : hobj) (i : string) (v : hvalue) : hobj :=
  match o with
  | [] => [(i, v)]
  | (k, w) :: tl => if String.eqb k i then (k, v) :: tl else (k, w) :: h_set tl i v
  end.

(** What the code of one level sees of a field without following it: a
    reference is an object, whatever it holds. *)
Definition seen (v : hvalue) : value :=
  match v with
  | HVal v => v
  | HRef _ => VObject []
  end.

Definition seen_tree (o : hobj) : tree := map (fun kv => (fst kv, seen (snd kv))) o.

(** The requests go to the server; the store is the caller's memory. *)
Definition heap_transport : Transport := {|
  World := heap * World;
  fetchJSON := fun url (s : heap * World) =>
    let (r, w1) := fetchJSON url (snd s) in (r, (fst s, w1));
  post := fun url form (s : heap * World) =>
    let (r, w1) := post url form (snd s) in (r, (fst s, w1))
|}.

Definition HM (A : Type) : Type := @M P heap_transport A.

Notation "x <- m ;; k" := (bind (T := heap_transport) m (fun x => k))
  (at level 61, m at next level, right associativity).
Notation "m ;;; k" := (bind (T := heap_transport) m (fun _ => k))
  (at level 61, right associativity).

Definition h_alloc (o : hobj) : HM loc :=
  fun s : heap * World => (Ok (length (fst s)), ((List.app (fst s) [o], snd s), [])).

Definition h_load (l : loc) : HM hobj :=
  fun s : heap * World => (Ok (h_read (fst s) l), (s, [])).

Definition h_store (l : loc) (o : hobj) : HM unit :=
  fun s : heap * World => (Ok tt, ((h_write l o (fst s), snd s), [])).

(** [{ ...properties }]: a new object with the fields of the old one. *)
Definition h_spread (properties : hvalue) : HM loc :=
  match properties with
  | HRef l => o <- h_load l ;; h_alloc o
  | HVal v => h_alloc (map (fun kv => (fst kv, HVal (snd kv))) (spread v))
  end.

(** [ignoredProps.forEach(v => delete properties[v])] *)
Fixpoint h_delete_each (ignoredProps : list string) (properties : loc) : HM unit :=
  match ignoredProps with
  | [] => ret (T := heap_transport) tt
  | v :: tl =>
      o <- h_load properties ;;
      h_store properties (h_delete o v) ;;;
      h_delete_each tl properties
  end.

(** The body of the loop over the keys of [currentData]; the state is
    [childrenToDelete] and [formData]. *)
Definition h_scan_current (options : SaveOptions) (currentData : tree)
    (properties : loc) (st : list string * FormData) (i : string)
    : HM (list string * FormData) :=
  o <- h_load properties ;;
  if negb (in_object (seen_tree o) i) then
    if is_meta i then
      h_store properties (h_set o i (HVal (get currentData i))) ;;;
      ret (T := heap_transport) st
    else if isChildNode currentData i then
      ret (T := heap_transport)
          (if deleteChildren options then (List.app (fst st) [i], snd st) else st)
    else if deleteProps options then
      ret (T := heap_transport)
          (if truthy (get (seen_tree o) PROP.jcrPrimaryType)
           then (fst st, List.app (snd st) [(i ++ "@Delete", "")]) else st)
    else ret (T := heap_transport) st
  else ret (T := heap_transport) st.

Fixpoint h_scan_all_current (options : SaveOptions) (currentData : tree)
    (properties : loc) (ks : list string) (st : list string * FormData)
    : HM (list string * FormData) :=
  match ks with
  | [] => ret (T := heap_transport) st
  | i :: tl =>
      st1 <- h_scan_current options currentData properties st i ;;
      h_scan_all_current options currentData properties tl st1
  end.

(** The loop over [keys]: the nested call receives the reference stored
    under the key. *)
Fixpoint h_children_loop (recurse : Uri -> hvalue -> option nat -> HM (list string))
    (jcrPath : Uri) (properties : hobj) (reorder : bool) (i : nat) (rest : list string)
    : HM (list string) :=
  match rest with
  | [] => ret (T := heap_transport) []
  | k :: rest' =>
      cs <- recurse (joinPath jcrPath k) (h_get properties k)
                    (if reorder then Some i else None) ;;
      cs' <- h_children_loop recurse jcrPath properties reorder (S i) rest' ;;
      ret (T := heap_transport) (List.app cs cs')
  end.

(** The prototype the setter gave [childProps] (see [child_proto]), read
    in the store when the order check looks a name up: under [__proto__] the
    desired object holds a reference to an object, or a value. *)
Definition h_child_proto (o : hobj) : HM Proto :=
  match h_get o "__proto__" with
  | HRef l => po <- h_load l ;; ret (T := heap_transport) (ProtoObject (seen_tree po))
  | HVal (VObject po) => ret (T := heap_transport) (ProtoObject po)
  | HVal VNull => ret (T := heap_transport) ProtoNull
  | HVal _ => ret (T := heap_transport) ProtoDefault
  end.

(** One call of [processNode] on a reference, the nested calls being
    [recurse]. The writes of the node read the mutation and the children to
    delete of the plan; the prototype of [childProps] is followed in the
    store when the order check runs. *)
Definition h_processNode_body (options : SaveOptions)
    (recurse : Uri -> hvalue -> option nat -> HM (list string))
    (jcrPath : Uri) (properties0 : hvalue) (order : option nat) : HM (list string) :=
  let ignoredProps := List.app internalProps (ignoreProps options) in
  currentData0 <- fetch_current (T := heap_transport) jcrPath ;;
  properties <- h_spread properties0 ;;
  let currentData := delete_each ignoredProps currentData0 in
  h_delete_each ignoredProps properties ;;;
  st <- h_scan_all_current options currentData properties (keys currentData) ([], []) ;;
  o <- h_load properties ;;
  scanned <- lift (T := heap_transport)
               (scan_all_desired (seen_tree o) currentData (keys (seen_tree o)) (snd st) []) ;;
  let pl := {| plan_currentData := currentData;
               plan_formData := List.app (fst scanned) (order_entry order);
               plan_childrenToDelete := fst st;
               plan_childProps := snd scanned;
               plan_childProto := child_proto (seen_tree o) |} in
  changes1 <- write_node (T := heap_transport) jcrPath pl ;;
  delete_children (T := heap_transport) jcrPath pl ;;;
  if truthy_key (keys (snd scanned)) then
    proto <- h_child_proto o ;;
    cs <- h_children_loop recurse jcrPath o
            (needs_reorder currentData (snd scanned) proto) 0 (keys (snd scanned)) ;;
    ret (T := heap_transport) (List.app changes1 cs)
  else ret (T := heap_transport) changes1.

(** The object graph may have a cycle, and the source then never returns:
    the calls are counted. *)
Fixpoint h_processNode (options : SaveOptions) (fuel : nat)
    (jcrPath : Uri) (properties : hvalue) (order : option nat) : HM (list string) :=
  match fuel with
  | O => fun s => (OutOfFuel, (s, []))
  | S fuel' =>
      h_processNode_body options (h_processNode options fuel') jcrPath properties order
  end.

(** [saveJcrProperties] on the reference the caller passes. *)
Definition h_saveJcrProperties (fuel : nat) (jcrPath : Uri) (properties : loc)
    (options : SaveOptions) : HM unit :=
  try_catch (T := heap_transport)
    (changes <- h_processNode options fuel jcrPath (HRef properties) None ;;
     match changes with
     | [] => ret (T := heap_transport) tt
     | _ :: _ => writeMessage (T := heap_transport) ("repo: Updated " ++ jcrPath)
     end)
    (fun err => throw_OperationError (T := heap_transport)
                  ("Unable to update " ++ jcrPath ++ ": " ++ exn_message err)).

(** The store a run ends with. *)
Definition heap_after {A} (m : HM A) (h : heap) (w : World) : heap :=
  fst (fst (snd (m (h, w)))).

(** The objects a value holds in the store, [n] references deep: the value
    as [processNode] of the previous section receives it. A reference out of
    the store reads as the empty object, as [h_read] has it. *)
Fixpoint h_value (h : heap) (n : nat) (v : hvalue) : value :=
  match v with
  | HVal v => v
  | HRef l =>
      match n with
      | O => VObject []
      | S n' => VObject (map (fun kv => (fst kv, h_value h n' (snd kv))) (h_read h l))
      end
  end.

End Heap.

Arguments HM {P T} A.

(** A desired tree in the store: the node at [0] holds a property the
    writer ignores and a reference to the child at [1]. *)
Definition graph_heap : @heap Reference.platform :=
  [ [ ("jcr:primaryType", HVal (VString "nt:unstructured"));
      ("jcr:created", HVal (VString "2020"));
      ("title", HVal (VString "New"));
      ("child", HRef 1) ];
    [ ("name", HVal (VString "c")) ] ].

Definition graph_current : @tree Reference.platform :=
  [ ("jcr:primaryType", VString "nt:unstructured");
    ("title", VString "Old");
    (":title", VString "String") ].

Definition graph_server : Transport :=
  static_server [ (node_url "/a", graph_current) ].

(** * The rest of the repository access layer

    The helpers of [util.ts] that [core/repo.ts] calls, the name and path
    conversions of [core/repo.ts], and its other entry points. *)

(** ** Characters that cannot be written between quotes *)
Definition CR : ascii := "013"%char.
Definition LF : ascii := "010"%char.
Definition QUOT : ascii := "034"%char.

(** ** [encodeXML] ([util.ts]) *)

(** The table [encoded]: the keys are one-character strings. *)
Definition encoded : list (string * string) :=
  [ ("&", "&amp;"); ("<", "&lt;"); (">", "&gt;"); (String QUOT "", "&quot;");
    ("'", "&apos;"); (String CR "", "&#xd;"); (String LF "", "&#xa;") ].

Fixpoint lookup_string (table : list (string * string)) (k : string) : option string :=
  match table with
  | [] => None
  | (k', v) :: tl => if String.eqb k' k then Some v else lookup_string tl k
  end.

(** The character class of the expression of [encodeXML]: the ampersand,
    the two angle brackets, the two quotes, the carriage return and the line
    feed. *)
Definition xml_special (c : ascii) : bool :=
  (Ascii.eqb c "&" || Ascii.eqb c "<" || Ascii.eqb c ">" || Ascii.eqb c QUOT
   || Ascii.eqb c "'" || Ascii.eqb c CR || Ascii.eqb c LF)%bool.

Definition xml_special_match (s : string) : option nat :=
  match s with
  | String c _ => if xml_special c then Some 1 else None
  | EmptyString => None
  end.

(** [v => encoded[v] || v] *)
Definition encoded_or_self (v : string) : string :=
  match lookup_string encoded v with
  | Some e => if String.eqb e "" then v else e
  | None => v
  end.

Definition encodeXML (str : string) : string :=
  replace_g xml_special_match encoded_or_self 0 str.

(** ** [convertEOL] ([util.ts]) *)
Inductive EOLTarget := eol_lf | eol_crlf | eol_auto.

(** [/\r\n/]: a carriage return and a line feed. *)
Definition crlf_pair_match (s : string) : option nat :=
  match s with
  | String c (String d _) => if (Ascii.eqb c CR && Ascii.eqb d LF)%bool then Some 2 else None
  | _ => None
  end.

(** The length of the run of line feeds at the head of [s]: [\n+] when it
    is not zero. *)
Fixpoint count_lf (s : string) : nat :=
  match s with
  | String c tl => if Ascii.eqb c LF then S (count_lf tl) else 0
  | EmptyString => 0
  end.

(** The expression of the [crlf] branch has two groups: the start of the
    text or one character that is not a carriage return, and a run of line
    feeds. The start of the text is tried first; the result is the first
    group and the length of the second. *)
Definition lf_run_match (at_start : bool) (s : string) : option (string * nat) :=
  if (at_start && Nat.ltb 0 (count_lf s))%bool then Some ("", count_lf s)
  else
    match s with
    | String c tl =>
        if (negb (Ascii.eqb c CR) && Nat.ltb 0 (count_lf tl))%bool
        then Some (String c "", count_lf tl)
        else None
    | EmptyString => None
    end.

(** ['\r\n'.repeat(n)] *)
Fixpoint repeat_crlf (n : nat) : string :=
  match n with
  | O => ""
  | S k => String CR (String LF (repeat_crlf k))
  end.

(** [content.replace(..., (v, a, b) => a + '\r\n'.repeat(b.length))] with the
    global flag: [at_start] tells that the head of [s] is the start of the
    text, [skip] counts the characters still covered by the previous
    match. *)
Fixpoint replace_lf_runs (at_start : bool) (skip : nat) (s : string) : string :=
  match skip with
  | S k =>
      match s with
      | String _ tl => replace_lf_runs false k tl
      | EmptyString => ""
      end
  | O =>
      match s with
      | EmptyString => ""
      | String c tl =>
          match lf_run_match at_start s with
          | Some (a, n) =>
              a ++ repeat_crlf n ++ replace_lf_runs false (String.length a + n - 1) tl
          | None => String c (replace_lf_runs false 0 tl)
          end
      end
  end.

(** [os_EOL] is [os.EOL] of the machine. *)
Definition convertEOL (os_EOL : string) (content : string) (eol : EOLTarget) : string :=
  let eol :=
    match eol with
    | eol_auto => if String.eqb os_EOL (String LF "") then eol_lf else eol_crlf
    | _ => eol
    end in
  match eol with
  | eol_lf => replace_g crlf_pair_match (fun _ => String LF "") 0 content
  | _ => replace_lf_runs true 0 content
  end.

(** ** [jcrToFileSystem] and [fileSystemToJcr] *)

(** [/([\w]+):/]: a run of word characters and a colon. The run is greedy
    and a colon is not a word character: a shorter run is followed by a word
    character, never by the colon. *)
Definition word_colon_match (s : string) : option nat :=
  match span_word s with
  | (String c w, String d _) =>
      if Ascii.eqb d ":" then Some (S (S (String.length w))) else None
  | _ => None
  end.

Definition jcrToFileSystem (path : string) : string :=
  replace_g word_colon_match
    (fun v => GetSubstitution v [take (String.length v - 1) v] "_$1_") 0 path.

(** The group of [/_([\w]+)_/] is greedy and an underscore is a word
    character: the group first takes the whole run [w] of word characters
    and gives back one character at a time until an underscore follows it.
    [closing_underscore w n] is the length of the group, tried from [n]
    down to one. *)
Fixpoint closing_underscore (w : string) (n : nat) : option nat :=
  match n with
  | O => None
  | S n' =>
      match String.get n w with
      | Some c => if Ascii.eqb c "_" then Some n else closing_underscore w n'
      | None => closing_underscore w n'
      end
  end.

Definition underscore_match (s : string) : option nat :=
  match s with
  | String c tl =>
      if Ascii.eqb c "_" then
        let w := fst (span_word tl) in
        option_map (fun k => S (S k)) (closing_underscore w (String.length w))
      else None
  | EmptyString => None
  end.

Definition fileSystemToJcr (path : string) : string :=
  replace_g underscore_match
    (fun v => GetSubstitution v [take (String.length v - 2) (drop 1 v)] "$1:") 0 path.

(** ** [resolveRelativePath] ([util.ts]) *)
Fixpoint startsWith (a b : string) {struct b} : bool :=
  match b, a with
  | EmptyString, _ => true
  | String d b', String c a' => (Ascii.eqb c d && startsWith a' b')%bool
  | String _ _, EmptyString => false
  end.

(** [b[b.length - 1] === '/'] *)
Fixpoint ends_with_slash (b : string) : bool :=
  match b with
  | EmptyString => false
  | String c EmptyString => Ascii.eqb c "/"
  | String _ tl => ends_with_slash tl
  end.

(** The result is [false] ([None]) or the rest of the path. *)
Definition resolveRelativePath (path base : string) : option string :=
  let a := path in
  let b := base in
  let c := ends_with_slash b in
  if (startsWith a b
      && (c || Nat.eqb (String.length a) (String.length b)
          || match String.get (String.length b) a with
             | Some d => Ascii.eqb d "/"
             | None => false
             end))%bool
  then Some (drop (String.length b + (if c then 0 else 1)) a)
  else None.

Section MoreRepo.
Context {P : Platform}.

(** [makeArray] ([util.ts]) *)
Definition makeArray (v : value) : list value :=
  match v with
  | VArray l => l
  | VUndefined | VNull => []
  | _ => [v]
  end.

Context {T : Transport}.

Definition fetchJcrProperties (jcrPath : Uri) : M tree := fetchJcrNode jcrPath Property (-1).

Definition fetchJcrChildNodes (jcrPath : Uri) : M tree := fetchJcrNode jcrPath Children (-1).

End MoreRepo.

(** ** [jcrToLocalName] and [localNameToJcr]

    The characters of a string of the embedding are the code units below
    256. [localNameToJcr] can produce any code unit, so its result is the
    list of the code units. *)

(** [[\d-.]]: after a class escape the dash stands for itself. *)
Definition name_start_special (c : ascii) : bool :=
  (is_digit c || Ascii.eqb c "-" || Ascii.eqb c ".")%bool.

(** [[\w-.:]] *)
Definition name_char (c : ascii) : bool :=
  (is_word_char c || Ascii.eqb c "-" || Ascii.eqb c "." || Ascii.eqb c ":")%bool.

(** [_(x[0-9a-fA-F]{4})] at the head of [s] *)
Definition escaped_x_match (s : string) : bool :=
  match s with
  | String u (String x (String h1 (String h2 (String h3 (String h4 _))))) =>
      (Ascii.eqb u "_" && Ascii.eqb x "x"
       && is_hex_digit h1 && is_hex_digit h2 && is_hex_digit h3 && is_hex_digit h4)%bool
  | _ => false
  end.

(** The second and the third alternative of the expression of
    [jcrToLocalName], which do not depend on the position. *)
Definition local_name_match (s : string) : option nat :=
  match s with
  | String c _ =>
      if negb (name_char c) then Some 1
      else if escaped_x_match s then Some 6
      else None
  | EmptyString => None
  end.

Definition hex_digit (d : N) : ascii :=
  match String.get (N.to_nat d) "0123456789abcdef" with
  | Some c => c
  | None => "0"%char
  end.

(** [n.toString(16)] for [n] below 256. *)
Definition toString16 (n : N) : string :=
  if N.ltb n 16 then String (hex_digit n) ""
  else String (hex_digit (N.div n 16)) (String (hex_digit (N.modulo n 16)) "").

(** [(v, a) => a ? '_x005f_' + a : '_x' + v.charCodeAt(0).toString(16) + '_']:
    the group [a] is what follows the underscore in a match of the third
    alternative, and is undefined in a match of one character. *)
Definition local_name_callback (v : string) : string :=
  match v with
  | String c EmptyString => "_x" ++ toString16 (N_of_ascii c) ++ "_"
  | String _ a => "_x005f_" ++ a
  | EmptyString => ""
  end.

(** The first alternative matches at the start of the name only. *)
Definition jcrToLocalName (name : string) : string :=
  match name with
  | String c tl =>
      if name_start_special c
      then local_name_callback (String c "") ++ replace_g local_name_match local_name_callback 0 tl
      else replace_g local_name_match local_name_callback 0 name
  | EmptyString => ""
  end.

(** [_x([0-9a-fA-F]{4})_] at the head of [s]: [parseInt(a, 16)] of its
    group. *)
Definition escaped_unit (s : string) : option N :=
  match s with
  | String u (String x (String h1 (String h2 (String h3 (String h4 (String e _)))))) =>
      if (Ascii.eqb u "_" && Ascii.eqb x "x"
          && is_hex_digit h1 && is_hex_digit h2 && is_hex_digit h3 && is_hex_digit h4
          && Ascii.eqb e "_")%bool
      then Some (((hex_value h1 * 16 + hex_value h2) * 16 + hex_value h3) * 16
                 + hex_value h4)%N
      else None
  | _ => None
  end.

Fixpoint localNameToJcr_from (skip : nat) (name : string) : list N :=
  match skip with
  | S k =>
      match name with
      | String _ tl => localNameToJcr_from k tl
      | EmptyString => []
      end
  | O =>
      match name with
      | EmptyString => []
      | String c tl =>
          match escaped_unit name with
          | Some code => code :: localNameToJcr_from 6 tl
          | None => N_of_ascii c :: localNameToJcr_from 0 tl
          end
      end
  end.

Definition localNameToJcr (name : string) : list N := localNameToJcr_from 0 name.

(** The code units of a string. *)
Definition units (s : string) : list N := map N_of_ascii (list_ascii_of_string s).

(** ** [convertToJcrContentXML] *)
Section ContentXML.
Context {P : Platform}.

(** Modelled from the spec: [constants.ts] is not among the sources; the
    content file of the specification has the root element [jcr:root]. *)
Definition jcrRoot := "jcr:root".

(** The table [XMLNS] of [constants.ts], which is not among the sources:
    prefixes, which are names and not array indices, and the addresses
    declared for them, which hold no dollar sign. *)
Variable XMLNS : list (string * string).

(** [/^([\w_]+):/.test(i) && RegExp.$1] *)
Definition namespace_prefix (i : string) : option string :=
  match span_word i with
  | (String c w, String d _) => if Ascii.eqb d ":" then Some (String c w) else None
  | _ => None
  end.

(** [addNamespace(i)] for a string [i]; [xmlns] holds the declarations in
    the order they were added. [xmlns[ns]] is truthy for the names every
    object inherits before anything is stored under them. *)
Definition addNamespace_string (xmlns : list (string * string)) (i : string)
    : list (string * string) :=
  match namespace_prefix i with
  | Some ns =>
      if (existsb (String.eqb ns) object_prototype_names
          || match lookup_string xmlns ns with Some _ => true | None => false end)%bool
      then xmlns
      else
        match lookup_string XMLNS ns with
        | Some address =>
            List.app xmlns
              [(ns, "xmlns:" ++ ns ++ "=" ++ String QUOT "" ++ address ++ String QUOT "")]
        | None => xmlns
        end
  | None => xmlns
  end.

(** [addNamespace(i)]: only a string has a prefix. *)
Definition addNamespace (xmlns : list (string * string)) (i : value)
    : list (string * string) :=
  match i with
  | VString s => addNamespace_string xmlns s
  | _ => xmlns
  end.

(** [arr.splice(start, 0, ...items)] *)
Definition splice (arr : list string) (start : nat) (items : list string) : list string :=
  List.app (firstn start arr) (List.app items (skipn start arr)).

(** [arr.join('')] *)
Definition join_all (arr : list string) : string := fold_right append "" arr.

(** The loop of [process] over the entries of [properties]; [recurse] is
    [process] itself. An entry is read once, under its own key. *)
Definition process_loop
    (recurse : string -> value -> list (string * string) -> Result (string * list (string * string)))
    : tree -> list string -> nat -> list (string * string)
      -> Result (list string * nat * list (string * string)) :=
  fix loop (entries : tree) (arr : list string) (childStart : nat)
      (xmlns : list (string * string)) {struct entries} :=
    match entries with
    | [] => Ok (arr, childStart, xmlns)
    | (i, value) :: tl =>
        if negb (is_meta i) then
          rbind
            (if is_child_value value then
               rbind (recurse i value xmlns)
                     (fun r => Ok (List.app arr [fst r], childStart, snd r))
             else if negb (existsb (String.eqb i) internalProps) then
               rbind (serializeJcrValue value) (fun s =>
                 Ok (splice arr childStart
                       [" "; i; "=" ++ String QUOT ""; encodeXML s; String QUOT ""],
                     childStart + 5,
                     fold_left addNamespace (makeArray value) xmlns))
             else Ok (arr, childStart, xmlns))
            (fun st => loop tl (fst (fst st)) (snd (fst st)) (addNamespace_string (snd st) i))
        else loop tl arr childStart xmlns
    end.

(** What [process] does after the loop. *)
Definition process_close (localName : string) (arr : list string) (childStart : nat)
    : string :=
  join_all (if Nat.eqb childStart (length arr)
            then List.app arr ["/>"]
            else List.app (splice arr childStart [">"]) ["</"; localName; ">"]).

(** [process(name, properties)]: [properties] is an object, or [null] or a
    date, which have no entry to go through. *)
Fixpoint process (name : string) (properties : value) (xmlns : list (string * string))
    {struct properties} : Result (string * list (string * string)) :=
  let localName := jcrToLocalName name in
  let arr := ["<"; localName] in
  let childStart := length arr in
  rbind
    (match properties with
     | VObject o => process_loop process o arr childStart xmlns
     | _ => Ok (arr, childStart, xmlns)
     end)
    (fun st => Ok (process_close localName (fst (fst st)) (snd (fst st)), snd st)).

(** [xml.replace(/[ >]/, template)]: the first space or closing angle
    bracket. *)
Fixpoint replace_first_break (template : string) (xml : string) : string :=
  match xml with
  | EmptyString => ""
  | String c tl =>
      if (Ascii.eqb c " " || Ascii.eqb c ">")%bool
      then GetSubstitution (String c "") [] template ++ tl
      else String c (replace_first_break template tl)
  end.

Definition convertToJcrContentXML (properties : tree) : Result string :=
  rbind (process jcrRoot (VObject properties) [])
    (fun r =>
       Ok ("<?xml version=" ++ String QUOT "" ++ "1.0" ++ String QUOT ""
           ++ " encoding=" ++ String QUOT "" ++ "UTF-8" ++ String QUOT "" ++ "?>"
           ++ replace_first_break (" " ++ join " " (map snd (snd r)) ++ "$&") (fst r))).

End ContentXML.

(** ** [moveJcrNode] *)
Section Move.
Context {P : Platform} {T : Transport}.

(** The parts of a [Uri] that [moveJcrNode] reads. *)
Record Location := {
  scheme : string;
  authority : string;
  path : Uri
}.

(** The request goes to the root of the repository on the server of [src];
    the transport of the embedding addresses a node by its path. Nothing is
    caught: a failure of the request is the outcome. *)
Definition moveJcrNode (src dst : Location) : M unit :=
  if (negb (String.eqb (scheme src) (scheme dst))
      || negb (String.eqb (authority src) (authority dst)))%bool
  then throw_OperationError "Destination is on different server than source"
  else
    bind (client_post CRX_ROOT [(":diff", ">" ++ path src ++ " : " ++ path dst)])
         (fun _ => writeMessage ("repo: Moved " ++ path src ++ " to " ++ path dst)).

End Move.

(** * Specification

    The predicates the properties below are stated with. *)
Section Specification.
Context {P : Platform}.

(** The round trip of the specification: the serialized form of [v], read
    back with the tag of [v], is [v]. *)
Definition round_trips (v : value) : Prop :=
  exists s, serializeJcrValue v = Ok s /\ parseJcrValue s (getJcrValueType v) = v.

(** A rendered scalar the codec carries unchanged: it does not start with an
    opening bracket or brace and holds no escape sequence. *)
Definition survives (s : string) : Prop :=
  first_is "[" s = false /\ first_is "{" s = false /\ unescape s = s.

(** The scalars the round trip holds for: every boolean; a string that
    survives and is not the marker of the empty string; a number or a date
    whose rendering survives and is read back by the platform. *)
Definition supported_scalar (v : value) : Prop :=
  match v with
  | VBoolean _ => True
  | VString s => survives s /\ s <> "\0"
  | VNumber n => survives (num_toString n) /\ string_toNumber (num_toString n) = n
  | VDate d => exists s, date_toISOString d = Some s /\ survives s /\ date_new s = d
  | _ => False
  end.

(** The entries of an object that are child nodes. *)
Definition children_of (data : tree) : tree :=
  filter (fun kv => is_child_value (snd kv)) data.

(** [skeleton_of v r]: [r] is [v] with the entries that are not child nodes
    removed at every level. *)
Inductive skeleton_of : value -> value -> Prop :=
| skeleton_object (o o' : tree) :
    Forall2 (fun kv kv' => fst kv = fst kv' /\ skeleton_of (snd kv) (snd kv'))
            (children_of o) o' ->
    skeleton_of (VObject o) (VObject o')
| skeleton_leaf (v : value) :
    (forall o, v <> VObject o) -> skeleton_of v v.

Definition cleanData_entries (l : tree) : tree :=
  map (fun kv => (fst kv, cleanData_value (snd kv))) (children_of l).

(** Nothing but child nodes is left in a skeleton, at any level. *)
Inductive nodes_only : value -> Prop :=
| nodes_only_object (o : tree) :
    Forall (fun kv => is_child_value (snd kv) = true /\ nodes_only (snd kv)) o ->
    nodes_only (VObject o)
| nodes_only_leaf (v : value) : (forall o, v <> VObject o) -> nodes_only v.

(** What one key of the desired tree contributes: entries under the key
    itself, its patch marker and its type hint. *)
Definition entry_of (i : string) (kv : string * string) : Prop :=
  fst kv = i \/ fst kv = i ++ "@Patch" \/ fst kv = i ++ "@TypeHint".

(** A deletion entry of the mutation: [<name>@Delete] for a plain property
    [name] among [ks] that the desired object does not have, not even as an
    inherited name. *)
Definition deletion_of (options : SaveOptions) (currentData properties : tree)
    (ks : list string) (kv : string * string) : Prop :=
  snd kv = "" /\
  exists i, fst kv = i ++ "@Delete" /\ In i ks /\ in_object properties i = false
            /\ is_meta i = false /\ isChildNode currentData i = false.

(** The text an element of an array has in a form entry: a string as it
    is, a boolean as [true] or [false], a number as the platform prints it,
    [null] as the word; a date, which no answer of the server holds, in its
    ISO form. *)
Definition element_text (v : value) : string :=
  match v with
  | VDate d => match date_toISOString d with Some s => s | None => "" end
  | _ => js_String v
  end.

(** An entry of the mutation that is written for another key than [i]: an
    entry of that key (under its name, its patch marker or its type hint) or
    the deletion of that key. *)
Definition written_for_other (i : string) (kv : string * string) : Prop :=
  exists k, k <> i /\ (entry_of k kv \/ kv = (k ++ "@Delete", "")).

(** The metadata of a level are type names: under a key with the reserved
    prefix there is a string. *)
Definition metadata_ok (props : tree) : Prop :=
  forall k v, In (k, v) props -> is_meta k = true -> exists t, v = VString t.

(** The type hint written with a patch: the type name the desired tree has
    for the property or, when it has none, the type name the current node
    has for it; no entry when there is none or when it is empty. *)
Definition patch_hint (desired currentData : tree) (i : string) : FormData :=
  match (if has_key desired (":" ++ i) then get desired (":" ++ i)
         else get currentData (":" ++ i)) with
  | VString t => if String.eqb t "" then [] else [(i ++ "@TypeHint", t)]
  | _ => []
  end.


End Specification.

Section RunSpecification.
Context {P : Platform} {T : Transport}.




(** *** Trees that agree with the server

    The values of the data model: a scalar that can be rendered, or an array
    of elements each strictly equal to itself. *)
Definition is_scalar (v : value) : bool :=
  match v with
  | VString _ | VBoolean _ | VNumber _ | VDate _ => true
  | _ => false
  end.

Definition is_object (v : value) : bool :=
  match v with VObject _ => true | _ => false end.

Definition property_value (v : value) : Prop :=
  match v with
  | VString _ | VBoolean _ | VNumber _ => True
  | VDate d => date_toISOString d <> None
  | VArray l => Forall (fun x => strict_eq x x = true) l
  | _ => False
  end.


(** The entries [processNode] recurses into. *)
Definition is_child_entry (kv : string * value) : bool :=
  (negb (is_meta (fst kv)) && is_object (snd kv))%bool.

Definition child_entries (props : tree) : tree := filter is_child_entry props.

(** The type hint written with a changed scalar: the metadata of the
    property when there is one, [String] otherwise. *)
Definition type_hint (props : tree) (i : string) : FormData :=
  let typeHint := if truthy (get props (":" ++ i))
                  then js_String (get props (":" ++ i)) else VALUE_TYPE.string in
  if String.eqb typeHint "" then [] else [(i ++ "@TypeHint", typeHint)].

Section Agreement.
Variable options : SaveOptions.

Definition ignored : list string := List.app internalProps (ignoreProps options).





End Agreement.

End RunSpecification.

(** ** Runs on the store *)
Section StoreSpecification.
Context {P : Platform} {T : Transport}.

(** [keeps n m Q]: started in a store of at least [n] objects, [m] leaves
    the first [n] of them as they are, and its result satisfies [Q]. *)
Definition keeps (n : nat) {A} (m : @HM P T A) (Q : A -> Prop) : Prop :=
  forall h w r h' w' l,
    n <= length h -> m (h, w) = (r, ((h', w'), l)) ->
    firstn n h' = firstn n h /\ n <= length h' /\ (forall a, r = Ok a -> Q a).

Definition any {A} : A -> Prop := fun _ => True.

End StoreSpecification.

(** * Further specification predicates *)

(** ** Line ends *)

(** Every line feed of [s] comes after a carriage return; [prev] tells
    whether the character before [s] is one. *)
Fixpoint lf_guarded (prev : bool) (s : string) : bool :=
  match s with
  | EmptyString => true
  | String c tl => ((negb (Ascii.eqb c LF) || prev) && lf_guarded (Ascii.eqb c CR) tl)%bool
  end.

(** The text with a carriage return put before every line feed. *)
Fixpoint expand_lf (s : string) : string :=
  match s with
  | EmptyString => ""
  | String c tl =>
      if Ascii.eqb c LF then String CR (String LF (expand_lf tl))
      else String c (expand_lf tl)
  end.


(** ** Paths *)

(** A segment on which the two path conversions agree: a name without
    colon and underscore, or a namespace prefix of letters and digits, a
    colon, and a local name without colon and underscore. *)
Definition portable_segment (s : string) : bool :=
  ((negb (has_char ":" s) && negb (has_char "_" s))
   || match span_word s with
      | (String c w, String d local) =>
          Ascii.eqb d ":" && negb (has_char "_" (String c w))
          && negb (has_char "_" local) && negb (has_char ":" local)
      | _ => false
      end)%bool.

(** ** Requests *)

(** The address and the form of a write request; nothing for the other
    events. *)
Definition request_of (e : Event) : option (Uri * FormData) :=
  match e with
  | POST url form _ => Some (url, form)
  | _ => None
  end.

Fixpoint requests (l : list Event) : list (Uri * FormData) :=
  match l with
  | [] => []
  | e :: tl =>
      match request_of e with
      | Some r => r :: requests tl
      | None => requests tl
      end
  end.

(** ** Names *)

Fixpoint all_chars (p : ascii -> bool) (s : string) : bool :=
  match s with
  | EmptyString => true
  | String c tl => (p c && all_chars p tl)%bool
  end.

(** A name [jcrToLocalName] finds nothing to replace in at its start or
    among its characters: letters, digits, underscores, dashes, dots and
    colons, the first being no digit, dash or dot. *)
Definition xml_name_ok (s : string) : bool :=
  (all_chars name_char s
   && match s with
      | String c _ => negb (name_start_special c)
      | EmptyString => true
      end)%bool.

(** ** Arrays of strings *)

(** An element the array form carries: it holds no backslash and no closing
    bracket (a comma is escaped by the writer). *)
Definition array_element (s : string) : bool :=
  (negb (has_char "\" s) && negb (has_char "]" s))%bool.

(** The element as [serializeJcrValue] writes it: commas escaped. *)
Definition escape_commas (s : string) : string :=
  replace_g comma_match (fun m => GetSubstitution m [] "\,") 0 s.


(** ** The content file *)
Section ContentXMLSpecification.
Context {P : Platform}.

(** An entry written as an attribute: its key has no reserved prefix, its
    value is no child node, and it is not an internal property. *)
Definition is_attribute_entry (kv : string * value) : bool :=
  (negb (is_meta (fst kv)) && negb (is_child_value (snd kv))
   && negb (existsb (String.eqb (fst kv)) internalProps))%bool.

(** An entry written as an element. *)
Definition is_element_entry (kv : string * value) : bool :=
  (negb (is_meta (fst kv)) && is_child_value (snd kv))%bool.

(** The attribute written for an entry whose value has the text [t]. *)
Definition attribute_text (i t : string) : string :=
  " " ++ i ++ "=" ++ String QUOT "" ++ encodeXML t ++ String QUOT "".

End ContentXMLSpecification.

(** The declarations collected for a content file: one per prefix, each for
    a prefix of the table and with the address of the table. *)
Definition declarations_ok (XMLNS xmlns : list (string * string)) : Prop :=
  NoDup (map fst xmlns)
  /\ Forall (fun d => exists address,
               lookup_string XMLNS (fst d) = Some address
               /\ snd d = "xmlns:" ++ fst d ++ "=" ++ String QUOT "" ++ address
                          ++ String QUOT "") xmlns.

(** * Properties *)

(** ** The value codec *)

Lemma replace_g_no_match (m : string -> option nat) (f : string -> string) (s : string) :
  (forall c tl, has_char "\" (String c tl) = false -> m (String c tl) = None) ->
  has_char "\" s = false ->
  replace_g m f 0 s = s.
Proof.
  intros Hm. induction s as [|c tl IH]; intros Hs; simpl.
  - reflexivity.
  - rewrite (Hm c tl Hs). simpl in Hs. apply orb_false_elim in Hs as [_ Htl].
    now rewrite (IH Htl).
Qed.

Lemma escape_match_needs_backslash (c : ascii) (tl : string) :
  has_char "\" (String c tl) = false -> escape_match (String c tl) = None.
Proof.
  simpl. intros H. apply orb_false_elim in H as [Hc _].
  unfold escape_match. destruct tl as [|d tl']; [reflexivity|]. now rewrite Hc.
Qed.

(** A string without a backslash is left as it is by the un-escaping pass. *)
Lemma unescape_no_backslash (s : string) :
  has_char "\" s = false -> unescape s = s.
Proof.
  apply replace_g_no_match. apply escape_match_needs_backslash.
Qed.

Lemma replace_leading_bracket_other (template s : string) :
  first_is "[" s = false -> first_is "{" s = false ->
  replace_leading_bracket template s = s.
Proof.
  destruct s as [|c tl]; simpl; [reflexivity|]. now intros -> ->.
Qed.

Section Codec.
Context {P : Platform}.

Lemma plain_survives (s : string) : plain s = true -> survives s.
Proof.
  unfold plain, survives. intros H.
  apply andb_prop in H as [H H3]. apply andb_prop in H as [H1 H2].
  apply negb_true_iff in H1, H2, H3. auto using unescape_no_backslash.
Qed.

(** C9 (the code departs from the claim). A scalar whose rendering starts
    with an opening bracket or brace is not given a backslash before that
    character: the replacement text [\$1] refers to a capture group the
    expression does not have, so the first character is replaced by a
    backslash, a dollar sign and the digit one. *)
Theorem serializeJcrValue_leading_bracket (rest : string) :
  serializeJcrValue (VString (String "[" rest)) = Ok ("\$1" ++ rest)
  /\ serializeJcrValue (VString (String "{" rest)) = Ok ("\$1" ++ rest)
  /\ "\$1" ++ rest <> "\[" ++ rest
  /\ "\$1" ++ rest <> "\{" ++ rest.
Proof.
  repeat split; try reflexivity; simpl; intros H; discriminate H.
Qed.

(** C3 (the code departs from the claim). The empty array is written [[]],
    and reading [[]] back gives the array of one empty string: the element
    expression matches the empty text before the closing bracket. The array
    of one empty string is written with the marker. *)
Theorem unserialize_empty_array :
  serializeJcrValue (VArray []) = Ok "[]"
  /\ u_value (unserializeJcrValue "[]") = VArray [VString ""]
  /\ serializeJcrValue (VArray [VString ""]) = Ok "[\0]"
  /\ VArray [VString ""] <> VArray [].
Proof.
  repeat split; try reflexivity. intros H; discriminate H.
Qed.

(** The marker is read back as the array of one empty string (on a platform
    where the marker is not a numeric literal), the same value the empty
    array's form gives. *)
Lemma unserialize_marker :
  num_isNaN (string_toNumber "\0") = true ->
  u_value (unserializeJcrValue "[\0]") = u_value (unserializeJcrValue "[]").
Proof.
  intros H. unfold unserializeJcrValue. simpl. unfold parseJcrValue.
  change (unescape "\0") with "\0". change (unescape "") with "".
  simpl. now rewrite H.
Qed.

(** C2 (amended). Every supported scalar is read back from its serialized
    form, with its own tag, as itself. *)
Theorem scalar_round_trip (v : value) :
  supported_scalar v -> round_trips v.
Proof.
  destruct v as [| |s|b|n|d|l|o]; simpl; try contradiction.
  - intros [(H1 & H2 & H3) Hm]. exists s. split.
    + unfold serializeJcrValue. simpl. now rewrite replace_leading_bracket_other.
    + unfold parseJcrValue. rewrite H3. simpl.
      destruct (String.eqb_spec s "\0"); [contradiction|reflexivity].
  - intros _. exists (if b then "true" else "false"). destruct b; split; reflexivity.
  - intros [(H1 & H2 & H3) Hn]. exists (num_toString n). split.
    + unfold serializeJcrValue, formatJcrValue. simpl.
      destruct (num_is_integral n); simpl; now rewrite replace_leading_bracket_other.
    + unfold parseJcrValue. rewrite H3, Hn. simpl.
      destruct (num_is_integral n); reflexivity.
  - intros (s & Hs & (H1 & H2 & H3) & Hd). exists s. split.
    + unfold serializeJcrValue, formatJcrValue. simpl. rewrite Hs. simpl.
      now rewrite replace_leading_bracket_other.
    + unfold parseJcrValue. rewrite H3, Hd. reflexivity.
Qed.

End Codec.

(** C2, at a string, a boolean, an integer and a date of the reference
    platform. *)
Lemma scalar_round_trip_witness :
  round_trips (P := Reference.platform) (VString "Hello, world")
  /\ round_trips (P := Reference.platform) (VBoolean true)
  /\ round_trips (int_value (-42))
  /\ round_trips (date_value 2021 3 4 5 6 7 89).
Proof.
  repeat split; apply scalar_round_trip; simpl.
  - repeat split; try reflexivity. intros H; discriminate H.
  - exact I.
  - repeat split; reflexivity.
  - eexists. repeat split; reflexivity.
Defined.

(** C2 as stated fails: the string made of a backslash and a zero is read
    back as the empty string, and an escaped comma loses its backslash. *)
Lemma scalar_round_trip_counterexample :
  ~ round_trips (P := Reference.platform) (VString "\0")
  /\ ~ round_trips (P := Reference.platform) (VString "a\,b")
  /\ parseJcrValue (P := Reference.platform) "\0" VALUE_TYPE.string = VString ""
  /\ parseJcrValue (P := Reference.platform) "a\,b" VALUE_TYPE.string = VString "a,b".
Proof.
  repeat split; try reflexivity.
  - intros (s & Hs & Hp). injection Hs as <-. discriminate Hp.
  - intros (s & Hs & Hp). injection Hs as <-. discriminate Hp.
Qed.

(** ** Induction on values *)
Section ValueInduction.
Context {P : Platform}.
Variable Q : value -> Prop.
Hypothesis Hundefined : Q VUndefined.
Hypothesis Hnull : Q VNull.
Hypothesis Hstring : forall s, Q (VString s).
Hypothesis Hboolean : forall b, Q (VBoolean b).
Hypothesis Hnumber : forall n, Q (VNumber n).
Hypothesis Hdate : forall d, Q (VDate d).
Hypothesis Harray : forall l, Forall Q l -> Q (VArray l).
Hypothesis Hobject : forall o, Forall (fun kv => Q (snd kv)) o -> Q (VObject o).

Fixpoint value_rect' (v : value) : Q v :=
  match v with
  | VUndefined => Hundefined
  | VNull => Hnull
  | VString s => Hstring s
  | VBoolean b => Hboolean b
  | VNumber n => Hnumber n
  | VDate d => Hdate d
  | VArray l =>
      Harray l ((fix all (l : list value) : Forall Q l :=
                   match l with
                   | [] => Forall_nil _
                   | x :: tl => Forall_cons x (value_rect' x) (all tl)
                   end) l)
  | VObject o =>
      Hobject o ((fix all (l : tree) : Forall (fun kv => Q (snd kv)) l :=
                    match l with
                    | [] => Forall_nil _
                    | (k, x) :: tl => Forall_cons (k, x) (value_rect' x) (all tl)
                    end) o)
  end.
End ValueInduction.

(** ** The fetch filter *)
Section Fetch.
Context {P : Platform} {T : Transport}.

Lemma cleanData_value_object (o : tree) :
  cleanData_value (VObject o) = VObject (cleanData_entries o).
Proof.
  simpl. f_equal. unfold cleanData_entries, children_of.
  induction o as [|[k w] tl IH]; simpl; [reflexivity|].
  destruct (is_child_value w); simpl; now rewrite IH.
Qed.

Lemma cleanData_value_skeleton (v : value) : skeleton_of v (cleanData_value v).
Proof.
  induction v using value_rect'; try (apply skeleton_leaf; intros o' H'; discriminate H').
  rewrite cleanData_value_object. apply skeleton_object.
  unfold cleanData_entries, children_of.
  induction H as [|[k w] tl Hw Htl IH]; simpl; [constructor|].
  destruct (is_child_value w); simpl; [|exact IH].
  constructor; [split; [reflexivity|exact Hw]|exact IH].
Qed.

Lemma cleanData_keep_children (data : tree) :
  cleanData data true false = children_of data.
Proof.
  unfold cleanData, children_of.
  induction data as [|[k w] tl IH]; simpl in *; [reflexivity|].
  destruct (is_child_value w); simpl; now rewrite IH.
Qed.

Lemma cleanData_recursive (data : tree) :
  cleanData data true true = cleanData_entries data.
Proof.
  unfold cleanData, cleanData_entries, children_of.
  induction data as [|[k w] tl IH]; simpl in *; [reflexivity|].
  destruct (is_child_value w); simpl; now rewrite IH.
Qed.

Lemma is_child_value_cleanData (v : value) :
  is_child_value (cleanData_value v) = is_child_value v.
Proof. destruct v; reflexivity. Qed.

Lemma cleanData_value_nodes_only (v : value) : nodes_only (cleanData_value v).
Proof.
  induction v using value_rect'; try (apply nodes_only_leaf; intros o' H'; discriminate H').
  rewrite cleanData_value_object. apply nodes_only_object.
  unfold cleanData_entries, children_of.
  induction H as [|[k w] tl Hw Htl IH]; simpl; [constructor|].
  destruct (is_child_value w) eqn:E; simpl; [|exact IH].
  constructor; [|exact IH]. simpl. now rewrite is_child_value_cleanData.
Qed.

(** C8 (amended). In [Children] mode the node is asked for at depth one and
    only its entries that are child nodes are returned, as the server gave
    them: every scalar or array property of the node is dropped. In
    [RecursiveChildren] mode the node is asked for at the caller's depth and
    what is returned is the skeleton of the answer: the child nodes of every
    level, with the scalar and array properties dropped at every level. *)
Theorem fetchJcrNode_filter (jcrPath : Uri) (depth0 : Z) (w w1 : World) (data : tree) :
  (fetchJSON (fetch_url jcrPath 1) w = (inr data, w1) ->
   fetchJcrNode jcrPath Children depth0 w
   = (Ok (children_of data), (w1, [GET (fetch_url jcrPath 1) None])))
  /\ (fetchJSON (fetch_url jcrPath depth0) w = (inr data, w1) ->
      exists result,
        fetchJcrNode jcrPath RecursiveChildren depth0 w
        = (Ok result, (w1, [GET (fetch_url jcrPath depth0) None]))
        /\ skeleton_of (VObject data) (VObject result)
        /\ nodes_only (VObject result)).
Proof.
  split; intros H.
  - unfold fetchJcrNode, bind, client_fetchJSON. cbn -[fetch_url cleanData].
    rewrite H. cbn -[fetch_url cleanData]. now rewrite cleanData_keep_children.
  - exists (cleanData_entries data).
    unfold fetchJcrNode, bind, client_fetchJSON. cbn -[fetch_url cleanData].
    rewrite H. cbn -[fetch_url cleanData].
    rewrite cleanData_recursive. split; [reflexivity|].
    rewrite <- cleanData_value_object.
    split; [apply cleanData_value_skeleton|apply cleanData_value_nodes_only].
Qed.

End Fetch.

(** C8, on the sample node. *)
Lemma fetchJcrNode_filter_witness :
  fetchJcrNode (T := sample_server) "/n" Children (-1) tt
  = (Ok (children_of sample_node), (tt, [GET (fetch_url "/n" 1) None]))
  /\ exists result,
       fetchJcrNode (T := sample_server) "/n" RecursiveChildren (-1) tt
       = (Ok result, (tt, [GET (fetch_url "/n" (-1)) None]))
       /\ skeleton_of (VObject sample_node) (VObject result)
       /\ nodes_only (VObject result).
Proof.
  destruct (fetchJcrNode_filter (T := sample_server) "/n" (-1) tt tt sample_node)
    as [H1 H2].
  split; [apply H1|apply H2]; reflexivity.
Defined.

(** C8 as stated fails: in [Children] mode the title of the node is not
    returned, and in [RecursiveChildren] mode the name of its child is not
    retained. *)
Lemma fetchJcrNode_filter_counterexample :
  get sample_node "title" = VString "Page"
  /\ fetchJcrNode (T := sample_server) "/n" Children (-1) tt
     = (Ok [ ("child", VObject [ ("name", VString "c");
                                 ("grand", VObject [("x", VString "y")]) ]) ],
        (tt, [GET "/crx/server/crx.default/jcr:root/n.1.json" None]))
  /\ fetchJcrNode (T := sample_server) "/n" RecursiveChildren (-1) tt
     = (Ok [ ("child", VObject [ ("grand", VObject []) ]) ],
        (tt, [GET "/crx/server/crx.default/jcr:root/n.json" None])).
Proof. repeat split. Qed.

(** ** Objects *)
Section Trees.
Context {P : Platform}.

Lemma get_set_other (data : tree) (i k : string) (v : value) :
  k <> i -> get (set data i v) k = get data k.
Proof.
  intros Hk. induction data as [|[j w] tl IH]; simpl.
  - destruct (String.eqb_spec i k); [congruence|reflexivity].
  - destruct (String.eqb_spec j i) as [->|Hj]; simpl.
    + destruct (String.eqb_spec i k); [congruence|reflexivity].
    + destruct (String.eqb_spec j k); [reflexivity|exact IH].
Qed.

Lemma has_key_set_other (data : tree) (i k : string) (v : value) :
  k <> i -> has_key (set data i v) k = has_key data k.
Proof.
  intros Hk. induction data as [|[j w] tl IH]; simpl.
  - destruct (String.eqb_spec i k); [congruence|reflexivity].
  - destruct (String.eqb_spec j i) as [->|Hj]; simpl.
    + destruct (String.eqb_spec i k); [congruence|reflexivity].
    + now rewrite IH.
Qed.

Lemma has_key_In (data : tree) (i : string) :
  has_key data i = true <-> In i (keys data).
Proof.
  induction data as [|[j w] tl IH]; simpl.
  - split; [discriminate|contradiction].
  - destruct (String.eqb_spec j i) as [->|Hj]; simpl.
    + split; auto.
    + rewrite IH. split; [auto|]. intros [H|H]; [contradiction|exact H].
Qed.

Lemma get_delete (data : tree) (i k : string) :
  get (delete data i) k = if String.eqb k i then VUndefined else get data k.
Proof.
  induction data as [|[j w] tl IH]; simpl.
  - now destruct (String.eqb k i).
  - destruct (String.eqb_spec j i) as [E|E]; simpl.
    + rewrite IH. destruct (String.eqb_spec k i) as [E2|E2]; [reflexivity|].
      destruct (String.eqb_spec j k) as [E3|E3]; [congruence|reflexivity].
    + destruct (String.eqb_spec j k) as [E3|E3]; [|exact IH].
      destruct (String.eqb_spec k i) as [E2|E2]; [congruence|reflexivity].
Qed.

Lemma has_key_delete (data : tree) (i k : string) :
  has_key (delete data i) k = (negb (String.eqb k i) && has_key data k)%bool.
Proof.
  induction data as [|[j w] tl IH]; simpl.
  - now rewrite andb_false_r.
  - destruct (String.eqb_spec j i) as [E|E]; simpl.
    + rewrite IH. destruct (String.eqb_spec k i) as [E2|E2]; simpl; [reflexivity|].
      destruct (String.eqb_spec j k) as [E3|E3]; [congruence|reflexivity].
    + rewrite IH. destruct (String.eqb_spec j k) as [E3|E3]; simpl; [|reflexivity].
      destruct (String.eqb_spec k i) as [E2|E2]; [congruence|reflexivity].
Qed.

(** [delete_each] removes the listed keys and nothing else. *)
Lemma get_delete_each (ks : list string) (data : tree) (k : string) :
  get (delete_each ks data) k = if existsb (String.eqb k) ks then VUndefined else get data k.
Proof.
  unfold delete_each. revert data. induction ks as [|i tl IH]; intros data; simpl.
  - reflexivity.
  - rewrite IH, get_delete. destruct (String.eqb k i); simpl; [|reflexivity].
    now destruct (existsb (String.eqb k) tl).
Qed.

Lemma has_key_delete_each (ks : list string) (data : tree) (k : string) :
  has_key (delete_each ks data) k = (negb (existsb (String.eqb k) ks) && has_key data k)%bool.
Proof.
  unfold delete_each. revert data. induction ks as [|i tl IH]; intros data; simpl.
  - reflexivity.
  - rewrite IH, has_key_delete. destruct (String.eqb k i); simpl; [|reflexivity].
    now rewrite andb_false_r.
Qed.

Lemma inherited_In (i : string) :
  inherited i = true <-> In i object_prototype_names.
Proof.
  unfold inherited. rewrite existsb_exists. split.
  - intros (x & Hx & E). apply String.eqb_eq in E. now subst.
  - intros H. exists i. split; [exact H|apply String.eqb_refl].
Qed.

(** No inherited name starts with the reserved prefix. *)
Lemma inherited_not_meta (i : string) : inherited i = true -> is_meta i = false.
Proof.
  intros H. apply inherited_In in H. simpl in H.
  repeat (destruct H as [<-|H]; [reflexivity|]). destruct H.
Qed.

Lemma meta_not_inherited (i : string) : is_meta i = true -> inherited i = false.
Proof.
  intros H. destruct (inherited i) eqn:E; [|reflexivity].
  apply inherited_not_meta in E. congruence.
Qed.

Lemma in_object_meta (data : tree) (i : string) :
  is_meta i = true -> in_object data i = has_key data i.
Proof.
  intros H. unfold in_object. rewrite (meta_not_inherited i H). apply orb_false_r.
Qed.

Lemma in_object_false (data : tree) (i : string) :
  in_object data i = false <-> has_key data i = false /\ inherited i = false.
Proof. unfold in_object. apply orb_false_iff. Qed.

Lemma lookup_own (data : tree) (i : string) :
  has_key data i = true -> lookup data i = Own (get data i).
Proof. intros H. unfold lookup. now rewrite H. Qed.

Lemma get_no_key (data : tree) (i : string) :
  has_key data i = false -> get data i = VUndefined.
Proof.
  induction data as [|[k v] tl IH]; simpl; [reflexivity|].
  destruct (String.eqb k i); simpl; [discriminate|exact IH].
Qed.

Lemma lookup_plain (data : tree) (i : string) :
  inherited i = false -> lookup data i = Own (get data i).
Proof.
  intros H. unfold lookup. destruct (has_key data i) eqn:Hk; [reflexivity|].
  destruct (String.eqb_spec i "__proto__") as [->|_]; [discriminate H|].
  rewrite H. now rewrite get_no_key.
Qed.

Lemma is_meta_append (i suffix : string) :
  is_meta i = false -> i <> "" -> is_meta (i ++ suffix) = false.
Proof. destruct i; simpl; [congruence|auto]. Qed.

Lemma meta_not_plain (i k : string) :
  is_meta i = true -> is_meta k = false -> k <> i.
Proof. intros Hi Hk ->. congruence. Qed.

End Trees.

(** ** The mutation computed by [processNode] *)
Section PlanFacts.
Context {P : Platform}.

Ltac inv_rbind H :=
  match type of H with
  | rbind ?r _ = Ok _ =>
      let E := fresh "E" in
      destruct r eqn:E; simpl in H; [|discriminate H|discriminate H]
  end.

Lemma rbind_Ok {A B} (r : Result A) (f : A -> Result B) (b : B) :
  rbind r f = Ok b -> exists a, r = Ok a /\ f a = Ok b.
Proof. destruct r; simpl; [eauto|discriminate|discriminate]. Qed.

(** The entries of an array are all written under the key of the array. *)
Lemma rmap_entries (i : string) (f : string -> string) (l : list value) (es : FormData) :
  rmap (fun v => rbind (formatJcrValue v) (fun s => Ok (i, f s))) l = Ok es ->
  exists rendered, rmap formatJcrValue l = Ok rendered /\ es = map (fun s => (i, f s)) rendered.
Proof.
  revert es. induction l as [|v tl IH]; intros es H; simpl in *.
  - injection H as <-. exists []. split; reflexivity.
  - apply rbind_Ok in H as (e & He & H).
    apply rbind_Ok in He as (s & Hs & He). injection He as <-.
    apply rbind_Ok in H as (es' & Hes & H). injection H as <-.
    destruct (IH _ Hes) as (rendered & Hr & ->).
    exists (s :: rendered). rewrite Hs, Hr. split; reflexivity.
Qed.

Lemma scan_desired_entries (properties currentData : tree) (i : string)
    (es : FormData) (child : bool) :
  scan_desired properties currentData i = Ok (es, child) ->
  (es = [] \/ is_meta i = false) /\ Forall (entry_of i) es.
Proof.
  unfold scan_desired. destruct (is_meta i) eqn:Hm.
  { intros H. injection H as <- <-. split; [now left|constructor]. }
  set (hint := fun inferred : string =>
                 if String.eqb (if truthy (get properties (":" ++ i))
                                then js_String (get properties (":" ++ i)) else inferred) ""
                 then [] else [(i ++ "@TypeHint",
                               if truthy (get properties (":" ++ i))
                               then js_String (get properties (":" ++ i)) else inferred)]).
  assert (Hhint : forall x, Forall (entry_of i) (hint x)).
  { intros x. unfold hint. destruct (String.eqb _ ""); constructor; [|constructor].
    right; right; reflexivity. }
  intros H. split; [now right|].
  destruct (get properties i) eqn:Hv;
    try (destruct (String.eqb (getJcrValueType _) "") eqn:Ht;
         [ injection H as <- <-; apply Hhint
         | apply rbind_Ok in H as (f1 & _ & H); apply rbind_Ok in H as (f2 & _ & H);
           destruct (String.eqb f1 f2);
           injection H as <- <-; [constructor|constructor; [now left|apply Hhint]] ]).
  destruct (_ && _)%bool.
  { injection H as <- <-. constructor. }
  apply rbind_Ok in H as (es0 & Hes & H). injection H as <- <-.
  apply Forall_app. split; [|apply Hhint].
  destruct (_ && _)%bool.
  - destruct (lookup currentData i) as [[]| |]; try discriminate Hes.
    apply rbind_Ok in Hes as (es1 & Hes1 & Hes). injection Hes as <-.
    apply rmap_entries in Hes1 as (rendered & _ & ->).
    constructor; [right; left; reflexivity|].
    apply Forall_forall. intros kv Hkv. apply in_map_iff in Hkv as (s & <- & _). now left.
  - apply rmap_entries with (f := fun s => s) in Hes as (rendered & _ & ->).
    apply Forall_forall. intros kv Hkv. apply in_map_iff in Hkv as (s & <- & _). now left.
Qed.

(** The loop over the desired keys appends the contribution of each key, in
    the order of the keys. *)
Lemma scan_all_desired_app (properties currentData : tree) (ks : list string)
    (formData formData' : FormData) (childProps childProps' : tree) :
  scan_all_desired properties currentData ks formData childProps = Ok (formData', childProps') ->
  exists parts,
    Forall2 (fun i es => exists child, scan_desired properties currentData i = Ok (es, child))
            ks parts
    /\ formData' = List.app formData (concat parts).
Proof.
  revert formData childProps. induction ks as [|i tl IH]; intros formData childProps H; simpl in H.
  - injection H as <- <-. exists []. split; [constructor|]. simpl. now rewrite app_nil_r.
  - apply rbind_Ok in H as ([es child] & Hes & H).
    apply IH in H as (parts & Hparts & ->).
    exists (es :: parts). split.
    + constructor; [now exists child|exact Hparts].
    + simpl. now rewrite app_assoc.
Qed.

Lemma scan_current_step (options : SaveOptions) (currentData : tree) (st : Draft) (i : string) :
  let st' := scan_current options currentData st i in
  d_childProps st' = d_childProps st
  /\ (forall k, is_meta k = false ->
        get (d_properties st') k = get (d_properties st) k
        /\ has_key (d_properties st') k = has_key (d_properties st) k)
  /\ exists dels,
       d_formData st' = List.app (d_formData st) dels
       /\ Forall (deletion_of options currentData (d_properties st) [i]) dels
       /\ (deleteProps options = false -> dels = [])
       /\ (truthy (get (d_properties st) PROP.jcrPrimaryType) = false -> dels = []).
Proof.
  unfold scan_current.
  assert (Hnil : forall fd : FormData, fd = List.app fd []) by (intros; now rewrite app_nil_r).
  destruct (in_object (d_properties st) i) eqn:Hk; simpl.
  { repeat split; auto. exists []. repeat split; auto. }
  destruct (is_meta i) eqn:Hm; simpl.
  { split; [reflexivity|]. split.
    - intros k Hkm. pose proof (meta_not_plain i k Hm Hkm).
      split; [now apply get_set_other|now apply has_key_set_other].
    - exists []. repeat split; auto. }
  destruct (isChildNode currentData i) eqn:Hc.
  { destruct (deleteChildren options); simpl; repeat split; auto;
      exists []; repeat split; auto. }
  destruct (deleteProps options) eqn:Hd.
  2:{ repeat split; auto. exists []. repeat split; auto. }
  destruct (truthy (get (d_properties st) PROP.jcrPrimaryType)) eqn:Ht; simpl.
  2:{ repeat split; auto. exists []. repeat split; auto. }
  repeat split; auto. exists [(i ++ "@Delete", "")]. repeat split; auto; try discriminate.
  constructor; [|constructor]. split; [reflexivity|].
  exists i. simpl. auto 10.
Qed.

Lemma scan_current_fold (options : SaveOptions) (currentData : tree) (ks : list string)
    (st : Draft) :
  let st' := fold_left (scan_current options currentData) ks st in
  d_childProps st' = d_childProps st
  /\ (forall k, is_meta k = false ->
        get (d_properties st') k = get (d_properties st) k
        /\ has_key (d_properties st') k = has_key (d_properties st) k)
  /\ exists dels,
       d_formData st' = List.app (d_formData st) dels
       /\ Forall (deletion_of options currentData (d_properties st) ks) dels
       /\ (deleteProps options = false -> dels = [])
       /\ (truthy (get (d_properties st) PROP.jcrPrimaryType) = false -> dels = []).
Proof.
  revert st. induction ks as [|i tl IH]; intros st; simpl.
  - repeat split; auto. exists []. rewrite app_nil_r. repeat split; auto.
  - destruct (scan_current_step options currentData st i) as (Hc1 & Hp1 & d1 & Hf1 & Hd1 & Hg1 & Ht1).
    destruct (IH (scan_current options currentData st i)) as (Hc2 & Hp2 & d2 & Hf2 & Hd2 & Hg2 & Ht2).
    split; [congruence|]. split.
    { intros k Hk. destruct (Hp1 k Hk) as [E1 E2]. destruct (Hp2 k Hk) as [E3 E4].
      split; congruence. }
    exists (List.app d1 d2). split; [rewrite Hf2, Hf1; now rewrite app_assoc|].
    split.
    { apply Forall_app. split.
      - eapply Forall_impl; [|exact Hd1]. intros kv (Hv & j & Hj & Hin & Hrest).
        split; [exact Hv|]. exists j. split; [exact Hj|]. split; [|exact Hrest].
        destruct Hin as [->|[]]. now left.
      - eapply Forall_impl; [|exact Hd2]. intros kv (Hv & j & Hj & Hin & Hh & Hm & Hch).
        split; [exact Hv|]. exists j. split; [exact Hj|]. split; [now right|].
        split; [|auto]. unfold in_object in *. now rewrite <- (proj2 (Hp1 j Hm)). }
    split.
    { intros Hd. now rewrite (Hg1 Hd), (Hg2 Hd). }
    intros Ht. rewrite (Ht1 Ht).
    rewrite Ht2; [reflexivity|].
    now rewrite (proj1 (Hp1 PROP.jcrPrimaryType eq_refl)).
Qed.

(** The mutation is the deletions, then the contributions of the desired
    keys, then the order directive. *)
Lemma plan_formData_parts (options : SaveOptions) (currentData0 : tree) (properties0 : value)
    (order : option nat) (pl : Plan) :
  plan options currentData0 properties0 order = Ok pl ->
  let ignored := List.app internalProps (ignoreProps options) in
  let currentData := delete_each ignored currentData0 in
  let properties1 := delete_each ignored (spread properties0) in
  exists (properties : tree) (dels : FormData) (parts : list FormData),
    (forall k, is_meta k = false ->
       get properties k = get properties1 k /\ has_key properties k = has_key properties1 k)
    /\ Forall (deletion_of options currentData properties1 (keys currentData)) dels
    /\ (deleteProps options = false -> dels = [])
    /\ (truthy (get properties1 PROP.jcrPrimaryType) = false -> dels = [])
    /\ Forall2 (fun i es => exists child, scan_desired properties currentData i = Ok (es, child))
               (keys properties) parts
    /\ plan_formData pl = List.app dels (List.app (concat parts) (order_entry order))
    /\ plan_currentData pl = currentData.
Proof.
  unfold plan. intros H. cbv zeta.
  set (ignored := List.app internalProps (ignoreProps options)) in *.
  set (currentData := delete_each ignored currentData0) in *.
  set (properties1 := delete_each ignored (spread properties0)) in *.
  set (st0 := {| d_properties := properties1; d_childrenToDelete := [];
                 d_formData := []; d_childProps := [] |}) in *.
  destruct (scan_current_fold options currentData (keys currentData) st0)
    as (_ & Hp & dels & Hf & Hd & Hg & Ht).
  apply rbind_Ok in H as ([formData1 childProps] & Hscan & H). injection H as <-.
  apply scan_all_desired_app in Hscan as (parts & Hparts & ->).
  exists (d_properties (fold_left (scan_current options currentData) (keys currentData) st0)),
         dels, parts.
  simpl. repeat split; auto; try apply Hp; auto.
  rewrite Hf. simpl. now rewrite app_assoc.
Qed.

End PlanFacts.

Lemma Forall2_In_r {A B} {R : A -> B -> Prop} {l : list A} {l' : list B} {y : B} :
  Forall2 R l l' -> In y l' -> exists x, In x l /\ R x y.
Proof.
  induction 1 as [|x y' l l' HR _ IH]; simpl; [contradiction|].
  intros [->|Hy]; [exists x; auto|].
  destruct (IH Hy) as (x' & Hx & HR'). exists x'. auto.
Qed.

(** The reference platform obeys the laws. *)
Lemma reference_laws : PlatformLaws Reference.platform.
Proof.
  split; simpl.
  - intros [|n]; simpl; reflexivity.
  - intros n m. destruct (Nat.eqb_spec n m) as [->|H].
    + apply Z.eqb_refl.
    + apply Z.eqb_neq. lia.
Qed.

Section Mutation.
Context {P : Platform}.

Lemma get_has_key (data : tree) (i : string) :
  get data i <> VUndefined -> has_key data i = true.
Proof.
  induction data as [|[k v] tl IH]; simpl; [congruence|].
  destruct (String.eqb k i); simpl; auto.
Qed.

Lemma isChildNode_value (data : tree) (i : string) :
  isChildNode data i = is_child_value (get data i).
Proof. reflexivity. Qed.

(** C6. The mutation is made of the deletions, the entries of the desired
    keys and the order directive. Every entry of the second part is written
    for a key of the desired tree, so a property the desired tree does not
    have contributes none. A deletion is the entry [<name>@Delete] of a plain
    property of the current node that the desired tree does not have; there
    is none when [deleteProps] is off, and there is one only when the desired
    tree has a [jcr:primaryType] that is not empty. *)
Theorem deletion_gating (options : SaveOptions) (currentData0 : tree) (properties0 : value)
    (order : option nat) (pl : Plan) :
  plan options currentData0 properties0 order = Ok pl ->
  exists deletions updates : FormData,
    plan_formData pl = List.app deletions (List.app updates (order_entry order))
    /\ Forall (fun kv => exists i, has_key (spread properties0) i = true
                                   /\ is_meta i = false /\ entry_of i kv) updates
    /\ Forall (fun kv => snd kv = "" /\
                 exists i, fst kv = i ++ "@Delete"
                           /\ has_key currentData0 i = true
                           /\ has_key (spread properties0) i = false
                           /\ is_meta i = false
                           /\ is_child_value (get currentData0 i) = false) deletions
    /\ (deleteProps options = false -> deletions = [])
    /\ (deletions <> [] ->
        deleteProps options = true
        /\ has_key (spread properties0) PROP.jcrPrimaryType = true
        /\ truthy (get (spread properties0) PROP.jcrPrimaryType) = true).
Proof.
  intros H. apply plan_formData_parts in H. cbv zeta in H.
  set (ignored := List.app internalProps (ignoreProps options)) in *.
  destruct H as (properties & dels & parts & Hp & Hdels & Hoff & Hgate & Hparts & Hform & _).
  exists dels, (concat parts). split; [exact Hform|]. split; [|split; [|split]].
  - apply Forall_forall. intros kv Hkv. apply in_concat in Hkv as (es & Hes & Hkv).
    destruct (Forall2_In_r Hparts Hes) as (i & Hi & child & Hscan).
    apply scan_desired_entries in Hscan as [[->|Hm] Hall]; [destruct Hkv|].
    exists i. split; [|split; [exact Hm|]].
    + apply has_key_In in Hi. rewrite (proj2 (Hp i Hm)), has_key_delete_each in Hi.
      now apply andb_prop in Hi as [_ Hi].
    + rewrite Forall_forall in Hall. now apply Hall.
  - eapply Forall_impl; [|exact Hdels].
    intros kv (Hv & i & Hk & Hin & Hno & Hm & Hch). split; [exact Hv|]. exists i.
    apply in_object_false in Hno as [Hno _].
    apply has_key_In in Hin. rewrite has_key_delete_each in Hin, Hno.
    apply andb_prop in Hin as [Hign Hin]. rewrite Hign in Hno. simpl in Hno.
    rewrite isChildNode_value, get_delete_each in Hch.
    apply negb_true_iff in Hign. rewrite Hign in Hch. auto 10.
  - exact Hoff.
  - intros Hne. split.
    + destruct (deleteProps options); [reflexivity|]. now destruct Hne; apply Hoff.
    + destruct (truthy (get (delete_each ignored (spread properties0)) PROP.jcrPrimaryType)) eqn:Ht.
      * rewrite get_delete_each in Ht.
        destruct (existsb _ ignored); [discriminate Ht|]. split; [|exact Ht].
        apply get_has_key. intros E. rewrite E in Ht. discriminate Ht.
      * now destruct Hne; apply Hgate.
Qed.

End Mutation.

(** C6, on the sample node with [deleteProps] on: the one deletion is that
    of the property the desired tree no longer has. *)
Lemma deletion_gating_witness :
  exists pl,
    plan delete_options sample_current (VObject sample_desired) None = Ok pl
    /\ plan_formData pl
       = [ ("obsolete@Delete", ""); ("title", "New"); ("title@TypeHint", "String");
           ("tags@Patch", "true"); ("tags", "-a"); ("tags", "-b") ]
    /\ exists deletions updates : FormData,
         plan_formData pl = List.app deletions (List.app updates (order_entry None))
         /\ Forall (fun kv => exists i, has_key sample_desired i = true
                                        /\ is_meta i = false /\ entry_of i kv) updates
         /\ Forall (fun kv => snd kv = "" /\
                      exists i, fst kv = i ++ "@Delete"
                                /\ has_key sample_current i = true
                                /\ has_key sample_desired i = false
                                /\ is_meta i = false
                                /\ is_child_value (get sample_current i) = false) deletions
         /\ (deleteProps delete_options = false -> deletions = [])
         /\ (deletions <> [] ->
             deleteProps delete_options = true
             /\ has_key sample_desired PROP.jcrPrimaryType = true
             /\ truthy (get sample_desired PROP.jcrPrimaryType) = true).
Proof.
  eexists. split; [reflexivity|]. split; [reflexivity|].
  exact (deletion_gating delete_options sample_current (VObject sample_desired) None _ eq_refl).
Defined.

(** ** Runs of the writer *)
Section Runs.
Context {P : Platform} {T : Transport}.









End Runs.

(** ** The recursion bound is never reached *)
Section Adequacy.
Context {P : Platform} {T : Transport}.


Lemma get_In (o : tree) (k : string) :
  has_key o k = true -> In (k, get o k) o.
Proof.
  induction o as [|[j w] tl IH]; simpl; [discriminate|].
  destruct (String.eqb_spec j k) as [->|Hj]; simpl; auto.
Qed.

Lemma get_set_same (data : tree) (i : string) (v : value) :
  get (set data i v) i = v.
Proof.
  induction data as [|[j w] tl IH]; simpl.
  - now rewrite String.eqb_refl.
  - destruct (String.eqb_spec j i) as [->|Hj]; simpl.
    + now rewrite String.eqb_refl.
    + destruct (String.eqb_spec j i); [contradiction|exact IH].
Qed.

Lemma keys_set (data : tree) (i : string) (v : value) :
  keys (set data i v) = if has_key data i then keys data else List.app (keys data) [i].
Proof.
  induction data as [|[j w] tl IH]; simpl; [reflexivity|].
  destruct (String.eqb_spec j i) as [->|Hj]; simpl; [reflexivity|].
  rewrite IH. now destruct (has_key tl i).
Qed.








Lemma scan_desired_child_plain (properties currentData : tree) (i : string) (es : FormData) :
  scan_desired properties currentData i = Ok (es, true) -> is_meta i = false.
Proof.
  unfold scan_desired. destruct (is_meta i); [|reflexivity].
  intros H. injection H as _ H. discriminate H.
Qed.

(** The children to recurse into are entries of the desired object that do
    not carry the reserved prefix. *)
Lemma scan_all_desired_children (properties currentData : tree) (ks : list string)
    (formData formData' : FormData) (childProps childProps' : tree) (k : string) :
  scan_all_desired properties currentData ks formData childProps = Ok (formData', childProps') ->
  In k (keys childProps') ->
  (In k (keys childProps) /\ get childProps' k = get childProps k)
  \/ (In k ks /\ is_meta k = false /\ get childProps' k = get properties k).
Proof.
  revert formData childProps. induction ks as [|i tl IH]; intros formData childProps H Hk;
    simpl in H.
  - injection H as <- <-. now left.
  - destruct (scan_desired properties currentData i) as [[es child]| |] eqn:Hs;
      simpl in H; try discriminate H.
    destruct (IH _ _ H Hk) as [[Hin Hg]|(Hin & Hm & Hg)].
    + destruct child; [|now left].
      unfold assign_child in Hin, Hg.
      destruct (String.eqb i "__proto__"); [now left|].
      destruct (String.eqb_spec k i) as [->|Hne].
      * right. split; [now left|]. rewrite Hg, get_set_same. split; [|reflexivity].
        exact (scan_desired_child_plain _ _ _ _ Hs).
      * left. rewrite Hg, get_set_other by exact Hne. split; [|reflexivity].
        rewrite keys_set in Hin. destruct (has_key childProps i); [exact Hin|].
        apply in_app_or in Hin as [Hin|[Hin|[]]]; [exact Hin|congruence].
    + right. split; [now right|auto].
Qed.













End Adequacy.

(** ** Failures *)
Section Failures.
Context {P : Platform} {T : Transport}.














End Failures.

Section FailureTheorem.
Context {P : Platform} {T : Transport}.




End FailureTheorem.


(** ** The order of the nested calls *)
Section Ordering.
Context {P : Platform} {T : Transport}.





End Ordering.



(** ** Diff minimality *)
Section Levels.
Context {P : Platform}.


Lemma has_key_app (a b : tree) (k : string) :
  has_key (List.app a b) k = (has_key a k || has_key b k)%bool.
Proof.
  induction a as [|[j w] tl IH]; simpl; [reflexivity|]. now rewrite IH, orb_assoc.
Qed.

Lemma NoDup_keys_filter (f : string * value -> bool) (props : tree) :
  NoDup (keys props) -> NoDup (keys (filter f props)).
Proof.
  induction props as [|[k v] tl IH]; simpl; intros H; [constructor|].
  apply NoDup_cons_iff in H as [Hk Htl]. destruct (f (k, v)); simpl; [|now apply IH].
  constructor; [|now apply IH]. intros Hin. apply Hk.
  apply in_map_iff in Hin as ([k' v'] & Hk' & Hin). simpl in Hk'. subst k'.
  apply filter_In in Hin as [Hin _]. apply in_map_iff. now exists (k, v').
Qed.

Lemma set_new (data : tree) (i : string) (v : value) :
  has_key data i = false -> set data i v = List.app data [(i, v)].
Proof.
  induction data as [|[j w] tl IH]; simpl; [reflexivity|].
  destruct (String.eqb j i); simpl; [discriminate|]. intros H. now rewrite IH.
Qed.






Lemma scalar_type_known (v : value) :
  is_scalar v = true -> String.eqb (getJcrValueType v) "" = false.
Proof.
  destruct v; simpl; try discriminate; try reflexivity.
  intros _. now destruct (num_is_integral n).
Qed.

Lemma scalar_not_array (v : value) : is_scalar v = true -> isArray v = false.
Proof. destruct v; simpl; try discriminate; reflexivity. Qed.

Lemma property_value_rendered (v : value) :
  property_value v -> is_scalar v = true -> exists s, formatJcrValue v = Ok s.
Proof.
  destruct v; simpl; try discriminate; intros Hv _; unfold formatJcrValue; simpl;
    try (eexists; reflexivity).
  - destruct (num_is_integral n); simpl; eexists; reflexivity.
  - destruct (date_toISOString d); [eexists; reflexivity|congruence].
Qed.

Context {L : PlatformLaws P}.



(** What the changed scalar contributes. *)
Lemma scan_desired_changed (props currentData : tree) (i : string)
    (rendered renderedCurrent : string) :
  is_meta i = false ->
  is_scalar (get props i) = true ->
  formatJcrValue (get props i) = Ok rendered ->
  format_member (lookup currentData i) = Ok renderedCurrent ->
  rendered <> renderedCurrent ->
  scan_desired props currentData i
  = Ok ((i, rendered) :: type_hint props i, is_child_entry (i, get props i)).
Proof.
  intros Hm Hs Hr Hc Hne. unfold scan_desired, is_child_entry, type_hint. simpl.
  rewrite Hm. simpl.
  pose proof (scalar_type_known _ Hs) as Ht.
  destruct (get props i) eqn:Hg; try discriminate Hs;
    rewrite Ht, Hr; simpl; rewrite Hc; simpl;
    (destruct (String.eqb_spec rendered renderedCurrent); [contradiction|reflexivity]).
Qed.




Lemma keys_child_entries_get (props : tree) (k : string) :
  NoDup (keys props) -> ~ In k (keys props) -> get (child_entries props) k = VUndefined.
Proof.
  intros _ Hk. induction props as [|[j w] tl IH]; simpl; [reflexivity|].
  simpl in Hk. unfold child_entries in *. simpl.
  destruct (is_child_entry (j, w)); simpl.
  - destruct (String.eqb_spec j k) as [->|Hj]; [tauto|]. apply IH. tauto.
  - apply IH. tauto.
Qed.



End Levels.

(** ** The removal patch *)
Section Patch.
Context {P : Platform} {L : PlatformLaws P}.

(** The loop over the current node adds keys to the desired object, each
    once, and only keys of the current node. *)
Lemma scan_current_fold_keys (options : SaveOptions) (currentData : tree)
    (ks : list string) (st : Draft) :
  let st' := fold_left (scan_current options currentData) ks st in
  (NoDup (keys (d_properties st)) -> NoDup (keys (d_properties st')))
  /\ (forall k, has_key (d_properties st') k = true ->
                has_key (d_properties st) k = true \/ In k ks).
Proof.
  revert st. induction ks as [|i tl IH]; intros st; cbn [fold_left].
  - split; auto.
  - destruct (IH (scan_current options currentData st i)) as [Hnd Hk].
    assert (Hstep : (NoDup (keys (d_properties st)) ->
                     NoDup (keys (d_properties (scan_current options currentData st i))))
                    /\ forall k, has_key (d_properties (scan_current options currentData st i)) k
                                 = true ->
                                 has_key (d_properties st) k = true \/ k = i).
    { unfold scan_current.
      destruct (in_object (d_properties st) i) eqn:Hin; cbn [negb]; [split; auto|].
      apply in_object_false in Hin as [Hin _].
      destruct (is_meta i).
      - cbn [d_properties]. rewrite (set_new _ _ _ Hin). split.
        + intros H. unfold keys. rewrite map_app. simpl.
          apply NoDup_app; [exact H|repeat constructor; intros []|].
          intros x Hx [<-|[]]. apply has_key_In in Hx. congruence.
        + intros k. rewrite has_key_app. simpl. rewrite orb_false_r.
          intros H. apply orb_prop in H as [H|H]; [now left|right].
          apply String.eqb_eq in H. now subst.
      - destruct (isChildNode currentData i).
        + destruct (deleteChildren options); split; auto.
        + destruct (deleteProps options); [|split; auto].
          destruct (truthy _); split; auto. }
    destruct Hstep as [Hnd1 Hk1]. split; [auto|].
    intros k H. destruct (Hk k H) as [H1|H1]; [|right; now right].
    destruct (Hk1 k H1) as [H2| ->]; [now left|right; now left].
Qed.

Lemma get_has_key_set (data : tree) (i : string) (v : value) :
  has_key (set data i v) i = true.
Proof.
  induction data as [|[j w] tl IH]; simpl.
  - now rewrite String.eqb_refl.
  - destruct (String.eqb_spec j i) as [->|Hj]; simpl.
    + now rewrite String.eqb_refl.
    + destruct (String.eqb_spec j i); [contradiction|exact IH].
Qed.

(** A key with the reserved prefix that the object has is left as it is by
    the loop over the current node. *)
Lemma scan_current_fold_kept (options : SaveOptions) (currentData : tree)
    (ks : list string) (k : string) :
  forall st, has_key (d_properties st) k = true ->
    get (d_properties (fold_left (scan_current options currentData) ks st)) k
    = get (d_properties st) k.
Proof.
  induction ks as [|j tl IH]; intros st Hk; [reflexivity|].
  cbn [fold_left].
  assert (has_key (d_properties (scan_current options currentData st j)) k = true
          /\ get (d_properties (scan_current options currentData st j)) k
             = get (d_properties st) k) as [Hk' Hg].
  { unfold scan_current.
    destruct (negb (in_object (d_properties st) j)) eqn:Hj; [|now split].
    destruct (is_meta j).
    - cbn [d_properties].
      assert (k <> j) as Hne.
      { intros ->. apply negb_true_iff, in_object_false in Hj as [Hj _]. congruence. }
      now rewrite has_key_set_other, get_set_other.
    - destruct (isChildNode currentData j).
      + destruct (deleteChildren options); now split.
      + destruct (deleteProps options); [|now split].
        destruct (truthy _); now split. }
  rewrite IH by exact Hk'. exact Hg.
Qed.

(** A key with the reserved prefix that the current node has and the
    desired object has not is given the value of the current node. *)
Lemma scan_current_fold_meta (options : SaveOptions) (currentData : tree)
    (ks : list string) (k : string) :
  is_meta k = true -> In k ks ->
  forall st, has_key (d_properties st) k = false ->
    get (d_properties (fold_left (scan_current options currentData) ks st)) k
    = get currentData k.
Proof.
  intros Hm. induction ks as [|j tl IH]; intros Hin st Hk; [destruct Hin|].
  cbn [fold_left].
  destruct (String.eqb_spec j k) as [->|Hne].
  - rewrite scan_current_fold_kept.
    + unfold scan_current. rewrite (in_object_meta _ k Hm), Hk, Hm. cbn [negb d_properties].
      apply get_set_same.
    + unfold scan_current. rewrite (in_object_meta _ k Hm), Hk, Hm. cbn [negb d_properties].
      apply get_has_key_set.
  - destruct Hin as [E|Hin]; [congruence|].
    apply IH; [exact Hin|].
    unfold scan_current.
    destruct (negb (in_object (d_properties st) j)); [|exact Hk].
    destruct (is_meta j).
    + cbn [d_properties]. rewrite has_key_set_other by congruence. exact Hk.
    + destruct (isChildNode currentData j).
      * destruct (deleteChildren options); exact Hk.
      * destruct (deleteProps options); [|exact Hk].
        destruct (truthy _); exact Hk.
Qed.

(** The text [formatJcrValue] gives. *)
Lemma formatJcrValue_text (v : value) (s : string) :
  formatJcrValue v = Ok s -> s = element_text v.
Proof.
  unfold formatJcrValue, element_text.
  destruct (String.eqb (getJcrValueType v) VALUE_TYPE.date) eqn:E.
  - destruct v; try discriminate. destruct (date_toISOString d); [|discriminate].
    intros H. now injection H.
  - destruct (stringifiable v); [|discriminate]. intros H. injection H as <-.
    destruct v; try reflexivity. discriminate E.
Qed.

Lemma rmap_element_text (i : string) (f : string -> string) (l : list value) (es : FormData) :
  rmap (fun v => rbind (formatJcrValue v) (fun s => Ok (i, f s))) l = Ok es ->
  es = map (fun v => (i, f (element_text v))) l.
Proof.
  revert es. induction l as [|v tl IH]; intros es H; simpl in *.
  - now injection H.
  - apply rbind_Ok in H as (e & He & H).
    apply rbind_Ok in He as (s & Hs & He). injection He as <-.
    apply rbind_Ok in H as (es' & Hes & H). injection H as <-.
    rewrite (IH _ Hes), (formatJcrValue_text _ _ Hs). reflexivity.
Qed.

(** C5. A property of the desired tree whose value is the empty array while
    the current value is an array that is not empty is written as a patch.
    The mutation holds, one after the other, the marker [<name>@Patch=true],
    one entry [<name>=-<element>] for each current element in their order,
    and the type hint of the property when one of the two trees has a type
    name for it. Everything before, and everything after up to the order
    directive, is written for another key of the desired tree or is the
    deletion of another property: nothing else is written for the property,
    and its elements are not listed for replacement. *)
Theorem empty_array_patch (options : SaveOptions) (currentData0 : tree) (properties0 : value)
    (order : option nat) (pl : Plan) (i : string) (x : value) (xs : list value) :
  plan options currentData0 properties0 order = Ok pl ->
  let ignored := List.app internalProps (ignoreProps options) in
  let currentData := delete_each ignored currentData0 in
  let desired := delete_each ignored (spread properties0) in
  NoDup (keys (spread properties0)) ->
  metadata_ok desired -> metadata_ok currentData ->
  is_meta i = false ->
  get desired i = VArray [] ->
  get currentData i = VArray (x :: xs) ->
  exists before after : FormData,
    plan_formData pl
    = List.app before
        ((i ++ "@Patch", "true")
         :: List.app (map (fun v => (i, "-" ++ element_text v)) (x :: xs))
              (List.app (patch_hint desired currentData i)
                 (List.app after (order_entry order))))
    /\ Forall (written_for_other i) before
    /\ Forall (written_for_other i) after.
Proof.
  unfold plan. intros H. cbv zeta.
  set (ignored := List.app internalProps (ignoreProps options)) in *.
  set (currentData := delete_each ignored currentData0) in *.
  set (desired := delete_each ignored (spread properties0)) in *.
  set (st0 := {| d_properties := desired; d_childrenToDelete := [];
                 d_formData := []; d_childProps := [] |}) in *.
  intros Hnd0 Hmd Hmc Hm Hd Hc.
  destruct (scan_current_fold options currentData (keys currentData) st0)
    as (_ & Hp & dels & Hf & Hdels & _).
  destruct (scan_current_fold_keys options currentData (keys currentData) st0)
    as [Hnd Hsub].
  pose proof (scan_current_fold_kept options currentData (keys currentData) (":" ++ i) st0)
    as Hkept.
  pose proof (fun H => scan_current_fold_meta options currentData (keys currentData)
                         (":" ++ i) eq_refl H st0) as Hfill.
  set (properties := d_properties (fold_left (scan_current options currentData)
                                     (keys currentData) st0)) in *.
  cbn [d_properties d_formData st0 app] in Hp, Hf, Hdels, Hnd, Hsub, Hkept, Hfill.
  fold properties in Hkept, Hfill.
  assert (Hhint : (if String.eqb (if truthy (get properties (":" ++ i))
                                  then js_String (get properties (":" ++ i)) else "") ""
                   then []
                   else [(i ++ "@TypeHint",
                          if truthy (get properties (":" ++ i))
                          then js_String (get properties (":" ++ i)) else "")])
                  = patch_hint desired currentData i).
  { assert (Htext : forall t : string,
              (if String.eqb (if truthy (VString t) then js_String (VString t) else "") ""
               then []
               else [(i ++ "@TypeHint",
                      if truthy (VString t) then js_String (VString t) else "")])
              = (if String.eqb t "" then [] else [(i ++ "@TypeHint", t)])).
    { intros t. cbn [truthy js_String]. destruct (String.eqb t "") eqn:Et; cbn [negb].
      - reflexivity.
      - now rewrite Et. }
    unfold patch_hint. destruct (has_key desired (":" ++ i)) eqn:Ehas.
    - rewrite (Hkept eq_refl).
      destruct (Hmd _ _ (get_In _ _ Ehas) eq_refl) as [t ->]. apply Htext.
    - destruct (has_key currentData (":" ++ i)) eqn:Ecur.
      + rewrite (Hfill (proj1 (has_key_In _ _) Ecur) eq_refl).
        destruct (Hmc _ _ (get_In _ _ Ecur) eq_refl) as [t ->]. apply Htext.
      + assert (Hno : has_key properties (":" ++ i) = false).
        { destruct (has_key properties (":" ++ i)) eqn:E; [|reflexivity].
          destruct (Hsub _ E) as [E'|E']; [congruence|].
          apply has_key_In in E'. congruence. }
        now rewrite (get_no_key _ _ Hno), (get_no_key _ _ Ecur). }
  assert (Hnd1 : NoDup (keys properties)).
  { apply Hnd. unfold desired, delete_each. clear -Hnd0.
    revert Hnd0. generalize (spread properties0). induction ignored as [|j tl IH]; intros t Ht.
    - exact Ht.
    - simpl. apply IH. unfold delete. now apply NoDup_keys_filter. }
  assert (Hkd : has_key desired i = true).
  { apply get_has_key. rewrite Hd. discriminate. }
  apply rbind_Ok in H as ([formData1 childProps] & Hscan & H). injection H as <-.
  cbn [plan_formData]. rewrite Hf in Hscan.
  apply scan_all_desired_app in Hscan as (parts & Hparts & ->).
  assert (Hin : In i (keys properties)).
  { apply has_key_In. now rewrite (proj2 (Hp i Hm)). }
  apply in_split in Hin as (l1 & l2 & Hkeys). rewrite Hkeys in Hparts, Hnd1.
  apply Forall2_app_inv_l in Hparts as (p1 & p2' & Hp1 & Hp2 & ->).
  destruct p2' as [|es p2]; [inversion Hp2|].
  apply Forall2_cons_iff in Hp2 as [(child & Hscan) Hp2'].
  assert (Hother : forall l ps,
            Forall2 (fun k es => exists child,
                       scan_desired properties currentData k = Ok (es, child)) l ps ->
            (forall k, In k l -> k <> i) -> Forall (written_for_other i) (concat ps)).
  { intros l ps HF Hne. apply Forall_forall. intros kv Hkv.
    apply in_concat in Hkv as (es' & Hes' & Hkv).
    destruct (Forall2_In_r HF Hes') as (k & Hk & child' & Hs').
    apply scan_desired_entries in Hs' as [_ Hall]. rewrite Forall_forall in Hall.
    exists k. split; [now apply Hne|left; now apply Hall]. }
  unfold scan_desired in Hscan.
  rewrite Hm, (proj1 (Hp i Hm)), Hd in Hscan.
  rewrite (lookup_own currentData i) in Hscan
    by (apply get_has_key; rewrite Hc; discriminate).
  rewrite Hc in Hscan. simpl in Hscan.
  rewrite num_strict_eq_of_nat, num_truthy_of_nat in Hscan. simpl in Hscan.
  apply rbind_Ok in Hscan as (es0 & Hes & Hscan). injection Hscan as <- <-.
  apply rbind_Ok in Hes as (es1 & Hes1 & Hes). injection Hes as <-.
  apply (rmap_element_text i (fun s => "-" ++ s) (x :: xs)) in Hes1. subst es1.
  exists (List.app dels (concat p1)), (concat p2).
  split; [|split].
  - rewrite <- Hhint, concat_app. cbn [concat].
    rewrite <- !app_assoc. cbn [app].
    rewrite <- ?app_assoc. reflexivity.
  - apply Forall_app. split.
    + eapply Forall_impl; [|exact Hdels].
      intros [name text] (Htext & k & Hname & _ & Hno & _). simpl in Htext, Hname. subst.
      exists k. split; [|now right].
      intros ->. apply in_object_false in Hno as [Hno _]. congruence.
    + apply (Hother l1 p1 Hp1). intros k Hk ->.
      apply NoDup_remove_2 in Hnd1. apply Hnd1. apply in_or_app. now left.
  - apply (Hother l2 p2 Hp2'). intros k Hk ->.
    apply NoDup_remove_2 in Hnd1. apply Hnd1. apply in_or_app. now right.
Qed.

End Patch.

(** C5, on the sample node: the emptied array is written as a removal
    patch, after the entries of the title. *)
Lemma empty_array_patch_witness :
  exists pl,
    plan keep_options sample_current (VObject sample_desired) None = Ok pl
    /\ plan_formData pl
       = [ ("title", "New"); ("title@TypeHint", "String");
           ("tags@Patch", "true"); ("tags", "-a"); ("tags", "-b") ]
    /\ exists before after : FormData,
         plan_formData pl
         = List.app before
             (("tags@Patch", "true")
              :: List.app [("tags", "-a"); ("tags", "-b")]
                   (List.app [] (List.app after [])))
         /\ Forall (written_for_other "tags") before
         /\ Forall (written_for_other "tags") after.
Proof.
  eexists. split; [reflexivity|]. split; [reflexivity|].
  apply (empty_array_patch (L := reference_laws) keep_options sample_current
           (VObject sample_desired) None _ "tags" (VString "a") [VString "b"] eq_refl).
  - repeat constructor; simpl; intuition discriminate.
  - intros k v Hin Hmeta. simpl in Hin.
    repeat (destruct Hin as [Hin|Hin]; [injection Hin as <- <-; discriminate Hmeta|]).
    destruct Hin.
  - intros k v Hin Hmeta. simpl in Hin.
    repeat (destruct Hin as [Hin|Hin]; [injection Hin as <- <-; discriminate Hmeta|]).
    destruct Hin.
  - reflexivity.
  - reflexivity.
  - reflexivity.
Defined.

Section Minimality.
Context {P : Platform} {L : PlatformLaws P} {T : Transport}.
Variable options : SaveOptions.









Lemma get_middle (l1 l2 : tree) (i k : string) (v c : value) :
  k <> i -> get (List.app l1 ((i, c) :: l2)) k = get (List.app l1 ((i, v) :: l2)) k.
Proof.
  intros Hk. induction l1 as [|[j w] tl IH]; simpl.
  - destruct (String.eqb_spec i k); [congruence|reflexivity].
  - now rewrite IH.
Qed.

Lemma keys_middle (l1 l2 : tree) (i : string) (v c : value) :
  keys (List.app l1 ((i, c) :: l2)) = keys (List.app l1 ((i, v) :: l2)).
Proof. unfold keys. now rewrite !map_app. Qed.












End Minimality.







(** ** The desired tree is not written

    The writes of [processNode] go to the object it has allocated: a run
    that starts with [n] objects in the store leaves them as they are. *)
Section Frame.
Context {P : Platform} {T : Transport}.

Lemma keeps_weaken (n : nat) {A} (m : @HM P T A) (Q R : A -> Prop) :
  keeps n m Q -> (forall a, Q a -> R a) -> keeps n m R.
Proof.
  intros Hm HQ h w r h' w' l Hn E.
  destruct (Hm _ _ _ _ _ _ Hn E) as (H1 & H2 & H3). auto.
Qed.

Lemma keeps_ret (n : nat) {A} (a : A) (Q : A -> Prop) :
  Q a -> keeps n (ret (T := heap_transport) a) Q.
Proof.
  intros HQ h w r h' w' l Hn E. unfold ret in E. injection E as <- <- <- <-.
  repeat split; auto. intros a' Ha. injection Ha as <-. exact HQ.
Qed.

Lemma keeps_throw (n : nat) {A} (e : exn) (Q : A -> Prop) :
  keeps n (throw (T := heap_transport) e) Q.
Proof.
  intros h w r h' w' l Hn E. unfold throw in E. injection E as <- <- <- <-.
  repeat split; auto. discriminate.
Qed.

Lemma keeps_lift (n : nat) {A} (r : Result A) :
  keeps n (lift (T := heap_transport) r) any.
Proof.
  intros h w r' h' w' l Hn E. unfold lift in E. injection E as <- <- <- <-.
  repeat split; auto.
Qed.

Lemma keeps_bind (n : nat) {A B} (m : @HM P T A) (k : A -> @HM P T B)
    (Q : A -> Prop) (R : B -> Prop) :
  keeps n m Q -> (forall a, Q a -> keeps n (k a) R) ->
  keeps n (bind (T := heap_transport) m k) R.
Proof.
  intros Hm Hk h w r h' w' l Hn E. unfold bind in E.
  destruct (m (h, w)) as [r1 [[h1 w1] l1]] eqn:E1.
  destruct (Hm _ _ _ _ _ _ Hn E1) as (F1 & L1 & Q1).
  destruct r1 as [a|e|].
  - destruct (k a (h1, w1)) as [r2 [[h2 w2] l2]] eqn:E2.
    injection E as <- <- <- <-.
    destruct (Hk a (Q1 a eq_refl) _ _ _ _ _ _ L1 E2) as (F2 & L2 & Q2).
    repeat split; auto. congruence.
  - injection E as <- <- <- <-. repeat split; auto. discriminate.
  - injection E as <- <- <- <-. repeat split; auto. discriminate.
Qed.

Lemma keeps_try_catch (n : nat) {A} (m : @HM P T A) (handler : exn -> @HM P T A)
    (Q : A -> Prop) :
  keeps n m Q -> (forall e, keeps n (handler e) Q) ->
  keeps n (try_catch (T := heap_transport) m handler) Q.
Proof.
  intros Hm Hh h w r h' w' l Hn E. unfold try_catch in E.
  destruct (m (h, w)) as [r1 [[h1 w1] l1]] eqn:E1.
  destruct (Hm _ _ _ _ _ _ Hn E1) as (F1 & L1 & Q1).
  destruct r1 as [a|e|].
  - injection E as <- <- <- <-. repeat split; auto.
  - destruct (handler e (h1, w1)) as [r2 [[h2 w2] l2]] eqn:E2.
    injection E as <- <- <- <-.
    destruct (Hh e _ _ _ _ _ _ L1 E2) as (F2 & L2 & Q2).
    repeat split; auto. congruence.
  - injection E as <- <- <- <-. repeat split; auto.
Qed.

Lemma keeps_emit (n : nat) (e : Event) : keeps n (emit (T := heap_transport) e) any.
Proof.
  intros h w r h' w' l Hn E. unfold emit in E. injection E as <- <- <- <-.
  repeat split; auto.
Qed.

Lemma keeps_client_fetchJSON (n : nat) (url : string) :
  keeps n (client_fetchJSON (T := heap_transport) url) any.
Proof.
  intros h w r h' w' l Hn E. unfold client_fetchJSON in E. simpl in E.
  destruct (fetchJSON url w) as [[e|d] w1]; injection E as <- <- <- <-;
    repeat split; auto.
Qed.

Lemma keeps_client_post (n : nat) (url : Uri) (form : FormData) :
  keeps n (client_post (T := heap_transport) url form) any.
Proof.
  intros h w r h' w' l Hn E. unfold client_post in E. simpl in E.
  destruct (post url form w) as [[e|d] w1]; injection E as <- <- <- <-;
    repeat split; auto.
Qed.

Lemma keeps_throw_OperationError (n : nat) {A} (message : string) (Q : A -> Prop) :
  keeps n (throw_OperationError (T := heap_transport) message) Q.
Proof.
  unfold throw_OperationError, writeMessage.
  eapply keeps_bind; [apply keeps_emit|]. intros _ _. apply keeps_throw.
Qed.

Lemma keeps_fetch_current (n : nat) (jcrPath : Uri) :
  keeps n (fetch_current (T := heap_transport) jcrPath) any.
Proof.
  unfold fetch_current, fetchJcrNode. apply keeps_try_catch.
  - eapply keeps_bind; [apply keeps_client_fetchJSON|]. intros data _.
    destruct (negb _); apply keeps_ret; exact I.
  - intros [statusCode| | ]; try apply keeps_throw.
    destruct (negb _); [apply keeps_throw|apply keeps_ret; exact I].
Qed.

Lemma keeps_deleteJcrNode (n : nat) (jcrPath : Uri) :
  keeps n (deleteJcrNode (T := heap_transport) jcrPath) any.
Proof.
  unfold deleteJcrNode. apply keeps_try_catch.
  - eapply keeps_bind; [apply keeps_client_post|]. intros [[|c cs]|] _.
    + apply keeps_throw.
    + apply keeps_emit.
    + apply keeps_throw.
  - intros e. apply keeps_throw_OperationError.
Qed.

Lemma keeps_delete_all (n : nat) (jcrPath : Uri) (names : list string) :
  keeps n (delete_all (T := heap_transport) jcrPath names) any.
Proof.
  induction names as [|v tl IH]; [apply keeps_ret; exact I|].
  intros h w r h' w' l Hn E. cbn [delete_all] in E.
  destruct (deleteJcrNode (T := heap_transport) (joinPath jcrPath v) (h, w)) as [r1 [[h1 w1] l1]] eqn:E1.
  destruct (keeps_deleteJcrNode n _ _ _ _ _ _ _ Hn E1) as (F1 & L1 & _).
  destruct (delete_all (T := heap_transport) jcrPath tl (h1, w1)) as [r2 [[h2 w2] l2]] eqn:E2.
  destruct (IH _ _ _ _ _ _ L1 E2) as (F2 & L2 & _).
  destruct r1; injection E as <- <- <- <-; repeat split; auto; congruence.
Qed.

Lemma firstn_h_write (n l : nat) (o : hobj) (h : heap) :
  n <= l -> firstn n (h_write l o h) = firstn n h.
Proof.
  revert n l. induction h as [|x tl IH]; intros n l Hn; [reflexivity|].
  destruct l as [|l']; simpl.
  - assert (n = 0) as -> by lia. reflexivity.
  - destruct n as [|n']; [reflexivity|]. simpl. f_equal. apply IH. lia.
Qed.

Lemma length_h_write (l : nat) (o : hobj) (h : heap) :
  length (h_write l o h) = length h.
Proof.
  revert l. induction h as [|x tl IH]; intros l; [reflexivity|].
  destruct l; simpl; auto.
Qed.

Lemma keeps_h_alloc (n : nat) (o : hobj) : keeps n (h_alloc o) (fun l => n <= l).
Proof.
  intros h w r h' w' l Hn E. unfold h_alloc in E. simpl in E.
  injection E as <- <- <- <-. repeat split.
  - rewrite firstn_app. replace (n - length h) with 0 by lia.
    simpl. apply app_nil_r.
  - rewrite length_app. lia.
  - intros a Ha. injection Ha as <-. exact Hn.
Qed.

Lemma keeps_h_load (n : nat) (l : loc) : keeps n (h_load l) any.
Proof.
  intros h w r h' w' l' Hn E. unfold h_load in E. injection E as <- <- <- <-.
  repeat split; auto.
Qed.

Lemma keeps_h_store (n : nat) (l : loc) (o : hobj) :
  n <= l -> keeps n (h_store l o) any.
Proof.
  intros Hl h w r h' w' l' Hn E. unfold h_store in E. simpl in E.
  injection E as <- <- <- <-. repeat split.
  - now apply firstn_h_write.
  - now rewrite length_h_write.
Qed.

Lemma keeps_h_spread (n : nat) (properties : hvalue) :
  keeps n (h_spread properties) (fun l => n <= l).
Proof.
  destruct properties as [v|l]; simpl; [apply keeps_h_alloc|].
  eapply keeps_bind; [apply keeps_h_load|]. intros o _. apply keeps_h_alloc.
Qed.

Lemma keeps_h_delete_each (n : nat) (ignoredProps : list string) (properties : loc) :
  n <= properties -> keeps n (h_delete_each ignoredProps properties) any.
Proof.
  intros Hl. induction ignoredProps as [|v tl IH]; simpl; [apply keeps_ret; exact I|].
  eapply keeps_bind; [apply keeps_h_load|]. intros o _.
  eapply keeps_bind; [now apply keeps_h_store|]. intros _ _. exact IH.
Qed.

Lemma keeps_h_scan_current (n : nat) (options : SaveOptions) (currentData : tree)
    (properties : loc) (st : list string * FormData) (i : string) :
  n <= properties -> keeps n (h_scan_current options currentData properties st i) any.
Proof.
  intros Hl. unfold h_scan_current.
  eapply keeps_bind; [apply keeps_h_load|]. intros o _.
  destruct (negb _); [|apply keeps_ret; exact I].
  destruct (is_meta i).
  - eapply keeps_bind; [now apply keeps_h_store|]. intros _ _. apply keeps_ret; exact I.
  - destruct (isChildNode currentData i); [apply keeps_ret; exact I|].
    destruct (deleteProps options); apply keeps_ret; exact I.
Qed.

Lemma keeps_h_scan_all_current (n : nat) (options : SaveOptions) (currentData : tree)
    (properties : loc) (ks : list string) (st : list string * FormData) :
  n <= properties ->
  keeps n (h_scan_all_current options currentData properties ks st) any.
Proof.
  intros Hl. revert st. induction ks as [|i tl IH]; intros st; simpl.
  - apply keeps_ret; exact I.
  - eapply keeps_bind; [now apply keeps_h_scan_current|]. intros st1 _. apply IH.
Qed.

Lemma keeps_write_node (n : nat) (jcrPath : Uri) (pl : Plan) :
  keeps n (write_node (T := heap_transport) jcrPath pl) any.
Proof.
  unfold write_node. destruct (plan_formData pl); [apply keeps_ret; exact I|].
  eapply keeps_bind; [apply keeps_client_post|]. intros [cs|] _.
  - apply keeps_ret; exact I.
  - apply keeps_throw.
Qed.

Lemma keeps_delete_children (n : nat) (jcrPath : Uri) (pl : Plan) :
  keeps n (delete_children (T := heap_transport) jcrPath pl) any.
Proof.
  unfold delete_children. destruct (truthy_key _).
  - apply keeps_delete_all.
  - apply keeps_ret; exact I.
Qed.

Lemma keeps_h_children_loop (n : nat)
    (recurse : Uri -> hvalue -> option nat -> @HM P T (list string))
    (jcrPath : Uri) (properties : hobj) (reorder : bool) (i : nat) (rest : list string) :
  (forall q v order, keeps n (recurse q v order) any) ->
  keeps n (h_children_loop recurse jcrPath properties reorder i rest) any.
Proof.
  intros Hrec. revert i. induction rest as [|k rest' IH]; intros i; simpl.
  - apply keeps_ret; exact I.
  - eapply keeps_bind; [apply Hrec|]. intros cs _.
    eapply keeps_bind; [apply IH|]. intros cs' _. apply keeps_ret; exact I.
Qed.

Lemma keeps_h_child_proto (n : nat) (o : hobj) : keeps n (h_child_proto o) any.
Proof.
  unfold h_child_proto. destruct (h_get o "__proto__") as [v|l].
  - destruct v; apply keeps_ret; exact I.
  - eapply keeps_bind; [apply keeps_h_load|]. intros po _. apply keeps_ret; exact I.
Qed.

Lemma keeps_h_processNode (options : SaveOptions) (fuel : nat) :
  forall n jcrPath properties order,
    keeps n (h_processNode options fuel jcrPath properties order) any.
Proof.
  induction fuel as [|fuel' IH]; intros n jcrPath properties order.
  - intros h w r h' w' l Hn E. simpl in E. injection E as <- <- <- <-.
    repeat split; auto.
  - cbn [h_processNode]. unfold h_processNode_body.
    eapply keeps_bind; [apply keeps_fetch_current|]. intros currentData0 _.
    eapply keeps_bind; [apply keeps_h_spread|]. intros copy Hcopy.
    eapply keeps_bind; [now apply keeps_h_delete_each|]. intros _ _.
    eapply keeps_bind; [now apply keeps_h_scan_all_current|]. intros st _.
    eapply keeps_bind; [apply keeps_h_load|]. intros o _.
    eapply keeps_bind; [apply keeps_lift|]. intros scanned _.
    eapply keeps_bind; [apply keeps_write_node|]. intros changes1 _.
    eapply keeps_bind; [apply keeps_delete_children|]. intros _ _.
    destruct (truthy_key _); [|apply keeps_ret; exact I].
    eapply keeps_bind; [apply keeps_h_child_proto|]. intros proto _.
    eapply keeps_bind; [apply keeps_h_children_loop; intros; apply IH|].
    intros cs _. apply keeps_ret; exact I.
Qed.

(** C10. A call of [saveJcrProperties] on an object of the store, whatever
    the options, the server, the number of nested calls it is given and the
    way it ends (normally, by an exception, or still running), leaves every
    object the store held before the call as it was: the store after the
    call is the store before it followed by the objects the call has
    allocated. The desired tree and all the trees nested in it are among the
    former. *)
Theorem saveJcrProperties_frame (fuel : nat) (jcrPath : Uri) (properties : loc)
    (options : SaveOptions) (h : heap) (w : World) :
  exists fresh,
    heap_after (h_saveJcrProperties fuel jcrPath properties options) h w
    = List.app h fresh.
Proof.
  assert (keeps (length h) (h_saveJcrProperties fuel jcrPath properties options) any)
    as Hkeeps.
  { unfold h_saveJcrProperties. apply keeps_try_catch.
    - eapply keeps_bind; [apply keeps_h_processNode|]. intros [|c cs] _.
      + apply keeps_ret; exact I.
      + apply keeps_emit.
    - intros e. apply keeps_throw_OperationError. }
  unfold heap_after.
  destruct (h_saveJcrProperties fuel jcrPath properties options (h, w))
    as [r [[h' w'] l]] eqn:E.
  destruct (Hkeeps _ _ _ _ _ _ (le_n _) E) as (F & _ & _). simpl.
  exists (skipn (length h) h').
  rewrite <- (firstn_skipn (length h) h') at 1. rewrite F, firstn_all. reflexivity.
Qed.

End Frame.

(** The run on the sample graph: the call has allocated a copy of the node,
    without the ignored property and with the hint of the server, and a copy
    of the child; the two objects of the caller are as they were. *)
Lemma saveJcrProperties_frame_example :
  heap_after (h_saveJcrProperties (T := graph_server) 2 "/a" 0 keep_options) graph_heap tt
  = List.app graph_heap
      [ [ ("jcr:primaryType", HVal (VString "nt:unstructured"));
          ("title", HVal (VString "New"));
          ("child", HRef 1);
          (":title", HVal (VString "String")) ];
        [ ("name", HVal (VString "c")) ] ].
Proof. reflexivity. Qed.

(** On the sample graph the run on the store issues the requests of the run
    on the tree the reference denotes, and ends as it does. *)
Lemma saveJcrProperties_store_example :
  (let '(r, (s, l)) :=
     h_saveJcrProperties (T := graph_server) 2 "/a" 0 keep_options (graph_heap, tt)
   in (r, (snd s, l)))
  = saveJcrProperties (T := graph_server) "/a"
      (spread (h_value graph_heap 2 (HRef 0))) keep_options tt.
Proof. reflexivity. Qed.

(** ** What a level sees of the store

    The scan of a level looks at a nested object only to find that it is
    one: it gives the same entries on the tree the store denotes, whatever
    the depth the references are followed to. *)
Section StoreView.
Context {P : Platform} {T : Transport}.

Lemma is_object_h_value (h : heap) (n : nat) (l : loc) :
  exists o, h_value h n (HRef l) = VObject o.
Proof. destruct n; simpl; eauto. Qed.

Lemma get_seen_tree (h : heap) (n : nat) (o : hobj) (k : string) :
  get (seen_tree o) k = get (map (fun kv => (fst kv, h_value h n (snd kv))) o) k
  \/ exists a b, get (seen_tree o) k = VObject a
                 /\ get (map (fun kv => (fst kv, h_value h n (snd kv))) o) k = VObject b.
Proof.
  induction o as [|[k' v] tl IH]; simpl; [now left|].
  destruct (String.eqb k' k); [|exact IH].
  destruct v as [v|l]; [left; destruct n; reflexivity|].
  destruct (is_object_h_value h n l) as (b & ->). right. simpl. eauto.
Qed.

Lemma scan_desired_seen (h : heap) (n : nat) (o : hobj) (currentData : tree) (i : string) :
  scan_desired (seen_tree o) currentData i
  = scan_desired (map (fun kv => (fst kv, h_value h n (snd kv))) o) currentData i.
Proof.
  unfold scan_desired. destruct (is_meta i); [reflexivity|].
  destruct (get_seen_tree h n o (":" ++ i)) as [<-|(a & b & -> & ->)];
    (destruct (get_seen_tree h n o i) as [<-|(a' & b' & -> & ->)]; reflexivity).
Qed.

End StoreView.

(** * Further properties of the repository access layer *)

(** ** [encodeXML] *)

(** What [encodeXML] writes for one character. *)
Lemma encodeXML_cons (c : ascii) (tl : string) :
  encodeXML (String c tl)
  = (if xml_special c then encoded_or_self (String c "") else String c "") ++ encodeXML tl.
Proof.
  unfold encodeXML. cbn [replace_g xml_special_match].
  destruct (xml_special c); reflexivity.
Qed.

Lemma encodeXML_app (a b : string) : encodeXML (a ++ b) = encodeXML a ++ encodeXML b.
Proof.
  induction a as [|c tl IH]; [reflexivity|].
  cbn [append]. rewrite !encodeXML_cons, IH.
  destruct (xml_special c); [|reflexivity].
  generalize (encoded_or_self (String c "")). intros e.
  induction e as [|d e IHe]; [reflexivity|]. cbn [append]. now rewrite IHe.
Qed.

Lemma xml_special_cases (c : ascii) :
  xml_special c = true ->
  c = "&"%char \/ c = "<"%char \/ c = ">"%char \/ c = QUOT \/ c = "'"%char
  \/ c = CR \/ c = LF.
Proof.
  unfold xml_special. intros H.
  repeat (apply orb_true_iff in H as [H|H]);
    apply Ascii.eqb_eq in H; auto 10.
Qed.

Lemma has_char_app (c : ascii) (a b : string) :
  has_char c (a ++ b) = (has_char c a || has_char c b)%bool.
Proof.
  induction a as [|d tl IH]; [reflexivity|]. cbn [append has_char].
  now rewrite IH, orb_assoc.
Qed.

(** The markup characters and the line ends never come out of [encodeXML]:
    its result holds no angle bracket, no quote of either kind, no carriage
    return and no line feed, whatever the text. *)
Theorem encodeXML_safe (str : string) (c : ascii) :
  In c [ "<"%char; ">"%char; QUOT; "'"%char; CR; LF ] ->
  has_char c (encodeXML str) = false.
Proof.
  intros Hc. induction str as [|d tl IH]; [reflexivity|].
  rewrite encodeXML_cons, has_char_app, IH, orb_false_r.
  destruct (xml_special d) eqn:Hd.
  - apply xml_special_cases in Hd.
    simpl in Hc.
    repeat (destruct Hd as [Hd|Hd]); subst d;
      repeat (destruct Hc as [Hc|Hc]; [subst c; reflexivity|]); destruct Hc.
  - simpl. rewrite orb_false_r.
    apply Ascii.eqb_neq. intros ->.
    unfold xml_special in Hd.
    simpl in Hc.
    repeat (destruct Hc as [Hc|Hc]; [subst c; rewrite Ascii.eqb_refl in Hd;
                                     rewrite ?orb_true_r in Hd; discriminate|]).
    destruct Hc.
Qed.

Lemma encodeXML_safe_witness :
  has_char "<" (encodeXML "a<b>c") = false.
Proof. apply (encodeXML_safe "a<b>c" "<"). simpl. auto. Defined.

(** [encodeXML] loses nothing: two texts with the same encoding are the
    same text. *)
Theorem encodeXML_injective (a b : string) :
  encodeXML a = encodeXML b -> a = b.
Proof.
  revert b. induction a as [|c a IH]; intros [|d b] H.
  - reflexivity.
  - rewrite encodeXML_cons in H. destruct (xml_special d) eqn:Hd.
    + apply xml_special_cases in Hd.
      repeat (destruct Hd as [Hd|Hd]); subst d; discriminate H.
    + discriminate H.
  - rewrite encodeXML_cons in H. destruct (xml_special c) eqn:Hc.
    + apply xml_special_cases in Hc.
      repeat (destruct Hc as [Hc|Hc]); subst c; discriminate H.
    + discriminate H.
  - rewrite !encodeXML_cons in H.
    destruct (xml_special c) eqn:Hc, (xml_special d) eqn:Hd.
    + apply xml_special_cases in Hc. apply xml_special_cases in Hd.
      repeat (destruct Hc as [Hc|Hc]); subst c;
        repeat (destruct Hd as [Hd|Hd]); subst d;
        try discriminate H;
        (f_equal; apply IH;
         cbv [encoded_or_self encoded lookup_string String.eqb Ascii.eqb Bool.eqb
              QUOT CR LF append] in H;
         congruence).
    + apply xml_special_cases in Hc.
      assert (d = "&"%char) as ->.
      { repeat (destruct Hc as [Hc|Hc]); subst c; simpl in H; congruence. }
      discriminate Hd.
    + apply xml_special_cases in Hd.
      assert (c = "&"%char) as ->.
      { repeat (destruct Hd as [Hd|Hd]); subst d; simpl in H; congruence. }
      discriminate Hc.
    + simpl in H. injection H as -> H. f_equal. now apply IH.
Qed.

Lemma encodeXML_injective_witness : "a<b" = "a<b".
Proof. apply (encodeXML_injective "a<b" "a<b"). reflexivity. Defined.

(** ** [convertEOL] *)

Lemma replace_lf_runs_skip (b : bool) (k : nat) (s : string) :
  replace_lf_runs b (S k) s = replace_lf_runs false 0 (drop (S k) s).
Proof.
  revert b s. induction k as [|k IH]; intros b s.
  - destruct s as [|c tl]; [reflexivity|]. simpl. destruct tl; reflexivity.
  - destruct s as [|c tl]; [reflexivity|].
    change (replace_lf_runs b (S (S k)) (String c tl)) with (replace_lf_runs false (S k) tl).
    rewrite IH. reflexivity.
Qed.

Lemma drop_count_lf (s : string) : first_is LF (drop (count_lf s) s) = false.
Proof.
  induction s as [|c tl IH]; [reflexivity|]. simpl.
  destruct (Ascii.eqb c LF) eqn:E; [exact IH|]. simpl. exact E.
Qed.

Lemma count_lf_first (s : string) : Nat.ltb 0 (count_lf s) = first_is LF s.
Proof. destruct s as [|c tl]; [reflexivity|]. simpl. destruct (Ascii.eqb c LF); reflexivity. Qed.

Lemma lf_guarded_repeat_crlf (p : bool) (n : nat) (rest : string) :
  lf_guarded p (repeat_crlf (S n) ++ rest) = lf_guarded false rest.
Proof.
  revert p. induction n as [|n IH]; intros p.
  - reflexivity.
  - change (repeat_crlf (S (S n)) ++ rest)
      with (String CR (String LF (repeat_crlf (S n) ++ rest))).
    cbn [lf_guarded].
    change (Ascii.eqb CR LF) with false. change (Ascii.eqb CR CR) with true.
    change (Ascii.eqb LF LF) with true. change (Ascii.eqb LF CR) with false.
    cbn [negb orb andb]. apply (IH false).
Qed.

Lemma drop_length_le (n : nat) (s : string) :
  String.length (drop n s) <= String.length s.
Proof.
  revert s. induction n as [|n IH]; intros [|c tl]; simpl; auto.
Qed.

(** The loop of the [crlf] branch away from the start of the text: a line
    feed at the head of what is left was not taken by the match before, so
    the character before it is a carriage return. *)
Lemma replace_lf_runs_guarded (n : nat) :
  forall s prev, String.length s <= n ->
    (first_is LF s = true -> prev = true) ->
    lf_guarded prev (replace_lf_runs false 0 s) = true.
Proof.
  induction n as [|n IH]; intros s prev Hlen Hprev.
  - destruct s; [reflexivity|simpl in Hlen; lia].
  - destruct s as [|c tl]; [reflexivity|].
    assert ((negb (Ascii.eqb c LF) || prev)%bool = true) as Hc.
    { destruct (Ascii.eqb c LF) eqn:El; [|reflexivity]. simpl. apply Hprev.
      simpl. exact El. }
    cbn [replace_lf_runs lf_run_match andb].
    destruct (negb (Ascii.eqb c CR) && Nat.ltb 0 (count_lf tl))%bool eqn:E.
    + apply andb_true_iff in E as [Ec En].
      destruct (count_lf tl) as [|k] eqn:Ek; [discriminate En|].
      cbn [append String.length]. replace (1 + S k - 1) with (S k) by lia.
      cbn [lf_guarded]. rewrite Hc. cbn [andb].
      rewrite replace_lf_runs_skip, lf_guarded_repeat_crlf.
      apply IH.
      * pose proof (drop_length_le (S k) tl). simpl in Hlen. lia.
      * rewrite <- Ek, drop_count_lf. discriminate.
    + cbn [lf_guarded]. rewrite Hc. cbn [andb].
      apply IH; [simpl in Hlen; lia|].
      intros Hf. rewrite <- count_lf_first in Hf. rewrite Hf, andb_true_r in E.
      now apply negb_false_iff in E.
Qed.

Lemma replace_lf_runs_eq (b : bool) (c : ascii) (tl : string) :
  replace_lf_runs b 0 (String c tl)
  = match lf_run_match b (String c tl) with
    | Some (a, n) => a ++ repeat_crlf n ++ replace_lf_runs false (String.length a + n - 1) tl
    | None => String c (replace_lf_runs false 0 tl)
    end.
Proof. reflexivity. Qed.

Lemma lf_run_match_start (s : string) :
  lf_run_match true s
  = if first_is LF s then Some ("", count_lf s) else lf_run_match false s.
Proof. unfold lf_run_match. rewrite count_lf_first. reflexivity. Qed.

(** In the text [convertEOL] gives for [crlf] every line feed comes after a
    carriage return, whatever the line ends of the text were. *)
Theorem convertEOL_crlf_guarded (os_EOL content : string) :
  lf_guarded false (convertEOL os_EOL content eol_crlf) = true.
Proof.
  unfold convertEOL. destruct content as [|c tl]; [reflexivity|].
  rewrite replace_lf_runs_eq, lf_run_match_start.
  destruct (first_is LF (String c tl)) eqn:E.
  - rewrite <- count_lf_first in E.
    destruct (count_lf (String c tl)) as [|k] eqn:Ek; [discriminate E|].
    cbn [append String.length]. replace (0 + S k - 1) with k by lia.
    rewrite lf_guarded_repeat_crlf.
    pose proof (drop_count_lf (String c tl)) as Hd. rewrite Ek in Hd. cbn [drop] in Hd.
    destruct k as [|k'].
    + apply (replace_lf_runs_guarded (String.length tl)); [lia|].
      replace (drop 0 tl) with tl in Hd by (destruct tl; reflexivity).
      rewrite Hd. discriminate.
    + rewrite replace_lf_runs_skip.
      apply (replace_lf_runs_guarded (String.length (drop (S k') tl))); [lia|].
      rewrite Hd. discriminate.
  - rewrite <- replace_lf_runs_eq.
    apply (replace_lf_runs_guarded (String.length (String c tl))); [lia|].
    rewrite E. discriminate.
Qed.

Lemma expand_lf_run (s : string) :
  expand_lf s = repeat_crlf (count_lf s) ++ expand_lf (drop (count_lf s) s).
Proof.
  induction s as [|c tl IH]; [reflexivity|]. simpl.
  destruct (Ascii.eqb c LF) eqn:E; simpl.
  - now rewrite <- IH.
  - now rewrite E.
Qed.

Lemma has_char_drop (c : ascii) (n : nat) (s : string) :
  has_char c s = false -> has_char c (drop n s) = false.
Proof.
  revert s. induction n as [|n IH]; intros [|d tl] H; simpl; auto.
  simpl in H. apply orb_false_elim in H as [_ H]. now apply IH.
Qed.

Lemma drop_0 (s : string) : drop 0 s = s.
Proof. destruct s; reflexivity. Qed.

(** On a text without carriage returns the loop of the [crlf] branch puts
    one before every line feed. *)
Lemma replace_lf_runs_expand (n : nat) :
  forall s b, String.length s <= n -> has_char CR s = false ->
    (b = true \/ first_is LF s = false) ->
    replace_lf_runs b 0 s = expand_lf s.
Proof.
  induction n as [|n IH]; intros s b Hlen Hcr Hb.
  - destruct s; [reflexivity|simpl in Hlen; lia].
  - destruct s as [|c tl]; [reflexivity|].
    assert (Ascii.eqb c CR = false /\ has_char CR tl = false) as [Hc Htl].
    { simpl in Hcr. now apply orb_false_elim in Hcr. }
    simpl in Hlen.
    assert (replace_lf_runs false (count_lf tl) tl = expand_lf (drop (count_lf tl) tl))
      as Hrest.
    { pose proof (drop_count_lf tl) as Hd.
      destruct (count_lf tl) as [|k] eqn:Ek.
      - rewrite drop_0 in *. apply IH; [lia|exact Htl|now right].
      - rewrite replace_lf_runs_skip. apply IH.
        + pose proof (drop_length_le (S k) tl). lia.
        + now apply has_char_drop.
        + now right. }
    rewrite replace_lf_runs_eq.
    destruct (b && first_is LF (String c tl))%bool eqn:Estart.
    + apply andb_true_iff in Estart as [-> Ef].
      rewrite lf_run_match_start, Ef.
      simpl in Ef. cbn [count_lf expand_lf]. rewrite Ef.
      cbn [String.length]. replace (0 + S (count_lf tl) - 1) with (count_lf tl) by lia.
      rewrite Hrest. cbn [append repeat_crlf]. do 2 f_equal.
      symmetry. apply expand_lf_run.
    + assert (first_is LF (String c tl) = false) as Ef.
      { destruct Hb as [->|Hf]; [exact Estart|exact Hf]. }
      assert (lf_run_match b (String c tl) = lf_run_match false (String c tl)) as ->.
      { destruct b; [|reflexivity]. now rewrite lf_run_match_start, Ef. }
      simpl in Ef. unfold lf_run_match. cbn [expand_lf andb]. rewrite Hc, Ef. cbn [negb andb].
      rewrite (expand_lf_run tl), <- Hrest.
      destruct (count_lf tl) as [|k]; [reflexivity|].
      cbn [Nat.ltb Nat.leb String.length append].
      replace (1 + S k - 1) with (S k) by lia. reflexivity.
Qed.

Lemma replace_crlf_expand (s : string) :
  has_char CR s = false ->
  replace_g crlf_pair_match (fun _ => String LF "") 0 (expand_lf s) = s.
Proof.
  induction s as [|c tl IH]; intros H; [reflexivity|].
  simpl in H. apply orb_false_elim in H as [Hc Htl].
  cbn [expand_lf]. destruct (Ascii.eqb c LF) eqn:El.
  - apply Ascii.eqb_eq in El. subst c.
    cbn [replace_g crlf_pair_match].
    change (Ascii.eqb CR CR) with true. change (Ascii.eqb LF LF) with true.
    cbn [andb append]. now rewrite IH.
  - assert (crlf_pair_match (String c (expand_lf tl)) = None) as Hm.
    { unfold crlf_pair_match. rewrite Hc. destruct (expand_lf tl); reflexivity. }
    cbn [replace_g]. rewrite Hm. now rewrite IH.
Qed.

Lemma replace_crlf_plain (s : string) :
  has_char CR s = false ->
  replace_g crlf_pair_match (fun _ => String LF "") 0 s = s.
Proof.
  induction s as [|c tl IH]; intros H; [reflexivity|].
  simpl in H. apply orb_false_elim in H as [Hc Htl].
  assert (crlf_pair_match (String c tl) = None) as Hm.
  { unfold crlf_pair_match. rewrite Hc. destruct tl; reflexivity. }
  cbn [replace_g]. rewrite Hm. now rewrite IH.
Qed.

(** A text without carriage returns is left as it is by the conversion to
    [lf], and comes back from the conversion to [crlf] followed by the
    conversion to [lf]. *)
Theorem convertEOL_round_trip (os_EOL content : string) :
  has_char CR content = false ->
  convertEOL os_EOL content eol_lf = content
  /\ convertEOL os_EOL (convertEOL os_EOL content eol_crlf) eol_lf = content.
Proof.
  intros H. unfold convertEOL. split.
  - now apply replace_crlf_plain.
  - rewrite (replace_lf_runs_expand (String.length content)); auto.
    now apply replace_crlf_expand.
Qed.

Lemma convertEOL_round_trip_witness :
  convertEOL "" (String "a" (String LF (String LF "b"))) eol_lf
  = String "a" (String LF (String LF "b"))
  /\ convertEOL "" (convertEOL "" (String "a" (String LF (String LF "b"))) eol_crlf) eol_lf
     = String "a" (String LF (String LF "b")).
Proof. apply convertEOL_round_trip. reflexivity. Defined.

(** ** [jcrToFileSystem] and [fileSystemToJcr] *)

Lemma take_app (n : nat) (s t : string) :
  n <= String.length s -> take n (s ++ t) = take n s.
Proof.
  revert s. induction n as [|n IH]; intros s H.
  - destruct s, t; reflexivity.
  - destruct s as [|c tl]; [simpl in H; lia|].
    simpl. f_equal. apply IH. simpl in H. lia.
Qed.

(** A global replacement goes through the text piece by piece when no
    match starts at the separator [c] and no match reaches it. *)
Lemma replace_g_split (m : string -> option nat) (f : string -> string) (c : ascii) :
  (forall t, m (String c t) = None) ->
  (forall d s t, m (String d s ++ String c t) = m (String d s)) ->
  (forall s n, m s = Some n -> n <= String.length s) ->
  forall s t k, k <= String.length s ->
    replace_g m f k (s ++ String c t)
    = replace_g m f k s ++ String c (replace_g m f 0 t).
Proof.
  intros Hc Hloc Hlen s t. induction s as [|d s IH]; intros k Hk.
  - simpl in Hk. assert (k = 0) as -> by lia.
    cbn [append replace_g]. now rewrite Hc.
  - destruct k as [|k].
    + change (String d s ++ String c t) with (String d (s ++ String c t)).
      cbn [replace_g].
      change (String d (s ++ String c t)) with (String d s ++ String c t).
      rewrite Hloc.
      destruct (m (String d s)) as [[|n]|] eqn:E.
      * cbn [append]. now rewrite IH by lia.
      * pose proof (Hlen _ _ E) as Hn. simpl in Hn.
        rewrite take_app by (simpl; lia).
        rewrite IH by lia.
        generalize (f (take (S n) (String d s))). intros e.
        induction e as [|x e IHe]; [reflexivity|]. cbn [append]. now rewrite IHe.
      * cbn [append]. now rewrite IH by lia.
    + cbn [append replace_g]. apply IH. simpl in Hk. lia.
Qed.

Lemma string_length_app (a b : string) :
  String.length (a ++ b) = String.length a + String.length b.
Proof. induction a as [|c a IH]; [reflexivity|]. simpl. now rewrite IH. Qed.

Lemma get_Some_lt (s : string) (n : nat) (c : ascii) :
  String.get n s = Some c -> n < String.length s.
Proof.
  revert n. induction s as [|d s IH]; intros n H; [destruct n; discriminate|].
  destruct n as [|n]; simpl; [lia|]. simpl in H. apply IH in H. lia.
Qed.

Lemma span_word_app (s : string) : s = fst (span_word s) ++ snd (span_word s).
Proof.
  induction s as [|c tl IH]; [reflexivity|]. simpl.
  destruct (is_word_char c); [|reflexivity].
  destruct (span_word tl) as [w r]. simpl in *. now rewrite <- IH.
Qed.

Lemma span_word_sep (s t : string) (c : ascii) :
  is_word_char c = false ->
  span_word (s ++ String c t)
  = (fst (span_word s), snd (span_word s) ++ String c t).
Proof.
  intros Hc. induction s as [|d tl IH].
  - simpl. now rewrite Hc.
  - cbn [append span_word]. destruct (is_word_char d); [|reflexivity].
    rewrite IH. destruct (span_word tl) as [w r]. reflexivity.
Qed.

Lemma word_colon_match_length (s : string) (n : nat) :
  word_colon_match s = Some n -> n <= String.length s.
Proof.
  unfold word_colon_match. pose proof (span_word_app s) as Hs.
  destruct (span_word s) as [[|c w] [|d r]]; try discriminate.
  destruct (Ascii.eqb d ":"); [|discriminate].
  intros H. injection H as <-. apply (f_equal String.length) in Hs.
  rewrite string_length_app in Hs. simpl in Hs. lia.
Qed.

Lemma word_colon_match_sep (c : ascii) :
  is_word_char c = false -> c <> ":"%char ->
  (forall t, word_colon_match (String c t) = None)
  /\ (forall d s t, word_colon_match (String d s ++ String c t)
                    = word_colon_match (String d s)).
Proof.
  intros Hw Hc. split.
  - intros t. unfold word_colon_match. simpl. now rewrite Hw.
  - intros d s t. unfold word_colon_match. rewrite span_word_sep by exact Hw.
    destruct (span_word (String d s)) as [[|x w] [|y r]]; try reflexivity.
    simpl. apply Ascii.eqb_neq in Hc. now rewrite Hc.
Qed.

Lemma closing_underscore_bound (w : string) (n k : nat) :
  closing_underscore w n = Some k -> k < String.length w.
Proof.
  induction n as [|n IH]; [discriminate|]. cbn [closing_underscore].
  destruct (String.get (S n) w) as [x|] eqn:E.
  - destruct (Ascii.eqb x "_").
    + intros H. injection H as <-. now apply get_Some_lt in E.
    + exact IH.
  - exact IH.
Qed.

Lemma underscore_match_length (s : string) (n : nat) :
  underscore_match s = Some n -> n <= String.length s.
Proof.
  unfold underscore_match. destruct s as [|c tl]; [discriminate|].
  destruct (Ascii.eqb c "_"); [|discriminate].
  destruct (closing_underscore _ _) as [k|] eqn:E; [|discriminate].
  intros H. injection H as <-. apply closing_underscore_bound in E.
  pose proof (f_equal String.length (span_word_app tl)) as Htl.
  rewrite string_length_app in Htl. simpl. lia.
Qed.

Lemma underscore_match_sep (c : ascii) :
  is_word_char c = false ->
  (forall t, underscore_match (String c t) = None)
  /\ (forall d s t, underscore_match (String d s ++ String c t)
                    = underscore_match (String d s)).
Proof.
  intros Hw. split.
  - intros t. unfold underscore_match.
    destruct (Ascii.eqb c "_") eqn:E; [|reflexivity].
    apply Ascii.eqb_eq in E. subst c. discriminate Hw.
  - intros d s t. unfold underscore_match. cbn [append].
    destruct (Ascii.eqb d "_"); [|reflexivity].
    now rewrite span_word_sep.
Qed.

Lemma path_conversions_split (a b : string) :
  jcrToFileSystem (a ++ "/" ++ b) = jcrToFileSystem a ++ "/" ++ jcrToFileSystem b
  /\ fileSystemToJcr (a ++ "/" ++ b) = fileSystemToJcr a ++ "/" ++ fileSystemToJcr b.
Proof.
  split.
  - unfold jcrToFileSystem.
    destruct (word_colon_match_sep "/" eq_refl ltac:(discriminate)) as [H1 H2].
    apply replace_g_split; auto using word_colon_match_length. lia.
  - unfold fileSystemToJcr.
    destruct (underscore_match_sep "/" eq_refl) as [H1 H2].
    apply replace_g_split; auto using underscore_match_length. lia.
Qed.

(** Both conversions work on the segments of a path one by one: converting
    a path that has a slash is converting what is before the slash and what
    is after it, whatever the two parts hold. *)
Theorem path_conversions_by_segment (a b : string) :
  jcrToFileSystem (a ++ "/" ++ b) = jcrToFileSystem a ++ "/" ++ jcrToFileSystem b
  /\ fileSystemToJcr (a ++ "/" ++ b) = fileSystemToJcr a ++ "/" ++ fileSystemToJcr b.
Proof. apply path_conversions_split. Qed.

Lemma word_colon_match_none (s : string) :
  has_char ":" s = false -> word_colon_match s = None.
Proof.
  intros H. unfold word_colon_match. pose proof (span_word_app s) as Hs.
  destruct (span_word s) as [[|c w] [|d r]]; try reflexivity.
  destruct (Ascii.eqb d ":") eqn:E; [|reflexivity].
  rewrite Hs, has_char_app in H. apply orb_false_elim in H as [_ H].
  simpl in H. rewrite E in H. discriminate.
Qed.

Lemma jcrToFileSystem_plain (s : string) :
  has_char ":" s = false -> jcrToFileSystem s = s.
Proof.
  unfold jcrToFileSystem. induction s as [|c tl IH]; intros H; [reflexivity|].
  cbn [replace_g]. rewrite (word_colon_match_none _ H).
  simpl in H. apply orb_false_elim in H as [_ H]. now rewrite IH.
Qed.

Lemma fileSystemToJcr_plain (s : string) :
  has_char "_" s = false -> fileSystemToJcr s = s.
Proof.
  unfold fileSystemToJcr. induction s as [|c tl IH]; intros H; [reflexivity|].
  simpl in H. apply orb_false_elim in H as [Hc H].
  cbn [replace_g underscore_match]. rewrite Hc. now rewrite IH.
Qed.

Lemma replace_g_skip (m : string -> option nat) (f : string -> string) (a b : string) :
  replace_g m f (String.length a) (a ++ b) = replace_g m f 0 b.
Proof. induction a as [|c a IH]; [destruct b; reflexivity|]. simpl. exact IH. Qed.

Lemma take_length_app (a b : string) : take (String.length a) (a ++ b) = a.
Proof.
  induction a as [|c a IH]; [destruct b; reflexivity|]. simpl. now rewrite IH.
Qed.

Lemma append_assoc (a b c : string) : (a ++ b) ++ c = a ++ (b ++ c).
Proof. induction a as [|x a IH]; [reflexivity|]. simpl. now rewrite IH. Qed.

Lemma append_nil_r (a : string) : a ++ "" = a.
Proof. induction a as [|x a IH]; [reflexivity|]. simpl. now rewrite IH. Qed.

Lemma GetSubstitution_underscores (v cap : string) :
  GetSubstitution v [cap] "_$1_" = "_" ++ cap ++ "_".
Proof. reflexivity. Qed.

Lemma GetSubstitution_colon (v cap : string) :
  GetSubstitution v [cap] "$1:" = cap ++ ":".
Proof. reflexivity. Qed.

Lemma jcrToFileSystem_qualified (ns local : string) :
  span_word (ns ++ ":" ++ local) = (ns, ":" ++ local) -> ns <> "" ->
  has_char ":" local = false ->
  jcrToFileSystem (ns ++ ":" ++ local) = "_" ++ ns ++ "_" ++ local.
Proof.
  intros Hspan Hns Hlocal. destruct ns as [|c w]; [congruence|].
  unfold jcrToFileSystem.
  change (String c w ++ ":" ++ local) with (String c (w ++ ":" ++ local)) in *.
  cbn [replace_g]. unfold word_colon_match at 1. rewrite Hspan.
  cbn [append Ascii.eqb Bool.eqb].
  rewrite GetSubstitution_underscores.
  replace (String c (w ++ String ":" local)) with ((String c w ++ ":") ++ local)
    by (rewrite append_assoc; reflexivity).
  replace (S (S (String.length w))) with (String.length (String c w ++ ":"))
    by (rewrite string_length_app; simpl; lia).
  rewrite take_length_app.
  replace (String.length (String c w ++ ":") - 1) with (String.length (String c w))
    by (rewrite string_length_app; simpl; lia).
  rewrite take_length_app.
  replace (w ++ String ":" local) with ((w ++ ":") ++ local)
    by (rewrite append_assoc; reflexivity).
  replace (S (String.length w)) with (String.length (w ++ ":"))
    by (rewrite string_length_app; simpl; lia).
  rewrite replace_g_skip.
  fold (jcrToFileSystem local). rewrite (jcrToFileSystem_plain _ Hlocal).
  cbn [append]. rewrite !append_assoc. reflexivity.
Qed.

Lemma span_word_fst_app (s rest : string) :
  fst (span_word (fst (span_word s) ++ rest))
  = fst (span_word s) ++ fst (span_word rest).
Proof.
  induction s as [|c tl IH]; [reflexivity|]. cbn [span_word].
  destruct (is_word_char c) eqn:E; [|reflexivity].
  destruct (span_word tl) as [w r] eqn:Et. cbn [fst append span_word] in *.
  rewrite E. destruct (span_word (w ++ rest)) as [w' r']. cbn [fst] in *.
  now rewrite IH.
Qed.

Lemma has_char_get (c : ascii) (s : string) (n : nat) (x : ascii) :
  has_char c s = false -> String.get n s = Some x -> Ascii.eqb x c = false.
Proof.
  revert n. induction s as [|d s IH]; intros n H G; [destruct n; discriminate|].
  simpl in H. apply orb_false_elim in H as [Hd Hs].
  destruct n as [|n]; simpl in G.
  - injection G as <-. exact Hd.
  - eapply IH; eauto.
Qed.

(** The group of the expression of [fileSystemToJcr] ends at the one
    underscore of the run. *)
Lemma closing_underscore_unique (ns wl : string) (n : nat) :
  has_char "_" ns = false -> has_char "_" wl = false ->
  1 <= String.length ns -> String.length ns <= n ->
  closing_underscore (ns ++ "_" ++ wl) n = Some (String.length ns).
Proof.
  intros Hns Hwl H1. induction n as [|n IH]; intros Hn; [lia|].
  cbn [closing_underscore].
  destruct (Nat.eq_dec (S n) (String.length ns)) as [E|E].
  - rewrite E.
    pose proof (append_correct2 ns ("_" ++ wl) 0) as A. cbn [Nat.add] in A.
    rewrite <- A. reflexivity.
  - assert (String.length ns <= n) as Hn' by lia.
    replace (S n) with ((S n - String.length ns) + String.length ns) by lia.
    rewrite <- (append_correct2 ns ("_" ++ wl)).
    destruct (S n - String.length ns) as [|j] eqn:Ej; [lia|].
    cbn [append String.get].
    destruct (String.get j wl) as [x|] eqn:G.
    + rewrite (has_char_get _ _ _ _ Hwl G). now apply IH.
    + now apply IH.
Qed.

Lemma fileSystemToJcr_qualified (ns local : string) :
  fst (span_word ns) = ns -> ns <> "" ->
  has_char "_" ns = false -> has_char "_" local = false ->
  fileSystemToJcr ("_" ++ ns ++ "_" ++ local) = ns ++ ":" ++ local.
Proof.
  intros Hword Hne Hns Hlocal.
  assert (1 <= String.length ns) as Hlen by (destruct ns; [congruence|simpl; lia]).
  assert (has_char "_" (fst (span_word local)) = false) as Hwl.
  { pose proof (span_word_app local) as Hl. rewrite Hl, has_char_app in Hlocal.
    now apply orb_false_elim in Hlocal. }
  assert (underscore_match (String "_" (ns ++ "_" ++ local))
          = Some (S (S (String.length ns)))) as Hm.
  { assert (fst (span_word (ns ++ "_" ++ local)) = ns ++ "_" ++ fst (span_word local))
      as Hrun.
    { rewrite <- Hword at 1. rewrite span_word_fst_app, Hword.
      cbn [append span_word is_word_char]. destruct (span_word local); reflexivity. }
    unfold underscore_match. cbn [Ascii.eqb Bool.eqb]. rewrite Hrun.
    rewrite closing_underscore_unique; auto.
    rewrite string_length_app. simpl. lia. }
  unfold fileSystemToJcr.
  change ("_" ++ ns ++ "_" ++ local) with (String "_" (ns ++ "_" ++ local)).
  cbn [replace_g]. rewrite Hm.
  rewrite GetSubstitution_colon.
  replace (String "_" (ns ++ "_" ++ local)) with (("_" ++ ns ++ "_") ++ local)
    by (cbn [append]; rewrite append_assoc; reflexivity).
  replace (S (S (String.length ns))) with (String.length ("_" ++ ns ++ "_"))
    by (cbn [append String.length]; rewrite string_length_app; simpl; lia).
  rewrite take_length_app.
  replace (String.length ("_" ++ ns ++ "_") - 2) with (String.length ns)
    by (cbn [append String.length]; rewrite string_length_app; simpl; lia).
  change (drop 1 ("_" ++ ns ++ "_")) with (ns ++ "_").
  rewrite take_length_app.
  replace (ns ++ "_" ++ local) with ((ns ++ "_") ++ local)
    by (rewrite append_assoc; reflexivity).
  replace (S (String.length ns)) with (String.length (ns ++ "_"))
    by (rewrite string_length_app; simpl; lia).
  rewrite replace_g_skip.
  fold (fileSystemToJcr local). rewrite (fileSystemToJcr_plain _ Hlocal).
  now rewrite append_assoc.
Qed.

Lemma portable_segment_round_trip (s : string) :
  portable_segment s = true -> fileSystemToJcr (jcrToFileSystem s) = s.
Proof.
  unfold portable_segment. intros H. apply orb_true_iff in H as [H|H].
  - apply andb_true_iff in H as [Hc Hu].
    apply negb_true_iff in Hc. apply negb_true_iff in Hu.
    rewrite (jcrToFileSystem_plain _ Hc). now apply fileSystemToJcr_plain.
  - pose proof (span_word_app s) as Hs.
    pose proof (span_word_fst_app s "") as Hidem.
    destruct (span_word s) as [[|c w] [|d local]] eqn:E; try discriminate.
    cbn [fst snd] in *.
    repeat (apply andb_true_iff in H as [H ?]).
    apply Ascii.eqb_eq in H. subst d.
    repeat match goal with Hn : negb _ = true |- _ => apply negb_true_iff in Hn end.
    cbn [span_word] in Hidem. rewrite !append_nil_r in Hidem.
    change (String c w ++ String ":" local) with (String c w ++ ":" ++ local) in Hs.
    rewrite Hs.
    rewrite jcrToFileSystem_qualified; auto; [|now rewrite <- Hs|discriminate].
    apply fileSystemToJcr_qualified; auto. discriminate.
Qed.

(** A path made of portable segments comes back from the conversion to a
    file system path followed by the conversion to a repository path. *)
Theorem path_round_trip (segments : list string) :
  Forall (fun s => portable_segment s = true) segments ->
  fileSystemToJcr (jcrToFileSystem (join "/" segments)) = join "/" segments.
Proof.
  induction segments as [|x [|y tl] IH]; intros H.
  - reflexivity.
  - inversion H; subst. now apply portable_segment_round_trip.
  - inversion H as [|? ? Hx Htl]; subst.
    change (join "/" (x :: y :: tl)) with (x ++ "/" ++ join "/" (y :: tl)).
    rewrite (proj1 (path_conversions_split _ _)).
    rewrite (proj2 (path_conversions_split _ _)).
    rewrite (portable_segment_round_trip _ Hx), (IH Htl). reflexivity.
Qed.

Lemma path_round_trip_witness :
  fileSystemToJcr (jcrToFileSystem "/apps/site/jcr:content") = "/apps/site/jcr:content".
Proof.
  apply (path_round_trip [""; "apps"; "site"; "jcr:content"]).
  repeat constructor.
Defined.

(** ** [resolveRelativePath] *)

Lemma startsWith_app (a b : string) : startsWith a b = true -> a = b ++ drop (String.length b) a.
Proof.
  revert a. induction b as [|d b IH]; intros a H.
  - cbn [String.length append]. now rewrite drop_0.
  - destruct a as [|c a]; [discriminate|]. simpl in H.
    apply andb_true_iff in H as [Hc H]. apply Ascii.eqb_eq in Hc. subst d.
    simpl. f_equal. now apply IH.
Qed.

Lemma startsWith_prefix (b r : string) : startsWith (b ++ r) b = true.
Proof.
  induction b as [|d b IH]; [reflexivity|]. simpl. now rewrite Ascii.eqb_refl.
Qed.

Lemma drop_length_app (a b : string) : drop (String.length a) (a ++ b) = b.
Proof. induction a as [|c a IH]; [apply drop_0|]. simpl. exact IH. Qed.

Lemma get_length_app (a b : string) :
  String.get (String.length a) (a ++ b) = String.get 0 b.
Proof. induction a as [|c a IH]; [reflexivity|]. simpl. exact IH. Qed.

Lemma drop_S (n : nat) (s : string) (c : ascii) :
  String.get n s = Some c -> drop n s = String c (drop (S n) s).
Proof.
  revert s. induction n as [|n IH]; intros [|d s] H; try discriminate.
  - simpl in H. injection H as ->. reflexivity.
  - simpl in H. simpl. now apply IH.
Qed.

Lemma drop_ge (n : nat) (s : string) : String.length s <= n -> drop n s = "".
Proof.
  revert s. induction n as [|n IH]; intros [|c s] H; simpl in *; auto; try lia.
  apply IH. lia.
Qed.

(** [resolveRelativePath] answers with the rest of [path] exactly when
    [path] is [base] followed by the rest, [base] ending with a slash, or
    [path] is [base] itself (the rest is then empty), or [path] is [base], a
    slash and the rest. A path that only starts with the characters of
    [base] is not below it. *)
Theorem resolveRelativePath_spec (path base rest : string) :
  resolveRelativePath path base = Some rest
  <-> (ends_with_slash base = true /\ path = base ++ rest)
      \/ (ends_with_slash base = false
          /\ ((path = base /\ rest = "") \/ path = base ++ "/" ++ rest)).
Proof.
  unfold resolveRelativePath. split.
  - destruct (startsWith path base) eqn:Hs; [|discriminate].
    apply startsWith_app in Hs. cbn [andb].
    destruct (ends_with_slash base) eqn:Hc; cbn [orb].
    + intros H. injection H as <-. left. split; [reflexivity|].
      now rewrite Nat.add_0_r.
    + intros H. right. split; [reflexivity|].
      destruct (Nat.eqb (String.length path) (String.length base)) eqn:El; cbn [orb] in *.
      * injection H as <-. apply Nat.eqb_eq in El.
        assert (drop (String.length base) path = "") as Hd.
        { apply drop_ge. lia. }
        left. split.
        -- rewrite Hs at 1. rewrite Hd. apply append_nil_r.
        -- apply drop_ge. lia.
      * destruct (String.get (String.length base) path) as [d|] eqn:G; [|discriminate].
        destruct (Ascii.eqb d "/") eqn:Ed; [|discriminate].
        apply Ascii.eqb_eq in Ed. subst d. injection H as <-. right.
        rewrite Hs at 1. rewrite (drop_S _ _ _ G).
        now replace (String.length base + 1) with (S (String.length base)) by lia.
  - intros [[Hc ->]|[Hc [[-> ->]| ->]]]; rewrite Hc.
    + rewrite startsWith_prefix. cbn [andb orb].
      now rewrite Nat.add_0_r, drop_length_app.
    + rewrite <- (append_nil_r base) at 1. rewrite startsWith_prefix.
      rewrite Nat.eqb_refl. cbn [andb orb]. f_equal.
      apply drop_ge. lia.
    + rewrite startsWith_prefix, get_length_app. cbn [String.get append Ascii.eqb Bool.eqb].
      rewrite orb_true_r. cbn [andb]. f_equal.
      replace (String.length base + 1) with (String.length (base ++ "/"))
        by (rewrite string_length_app; reflexivity).
      change (base ++ String "/" rest) with (base ++ "/" ++ rest).
      rewrite <- append_assoc. apply drop_length_app.
Qed.

Lemma resolveRelativePath_spec_witness :
  resolveRelativePath "/content/site" "/content" = Some "site".
Proof.
  apply (proj2 (resolveRelativePath_spec "/content/site" "/content" "site")).
  right. split; [reflexivity|]. right. reflexivity.
Defined.

(** ** Deleting nodes *)
Section Deletions.
Context {P : Platform} {T : Transport}.

Lemma requests_app (l1 l2 : list Event) :
  requests (List.app l1 l2) = List.app (requests l1) (requests l2).
Proof.
  induction l1 as [|e tl IH]; [reflexivity|]. simpl.
  destruct (request_of e); simpl; now rewrite IH.
Qed.

(** [deleteJcrNode] makes one request, the deletion of the node. It ends
    normally when the server answers with at least one change, and the
    message channel then gets the line of the deletion; in every other case
    (the request fails, the answer has no list of changes, the list is
    empty) it ends with a repository-operation error whose message starts
    with the path, and the message channel gets the line of the error. *)
Theorem deleteJcrNode_outcome (jcrPath : Uri) (w : World) :
  exists failure r w1 text,
    deleteJcrNode jcrPath w
    = (r, (w1, [POST jcrPath [(":operation", "delete")] failure; Message text]))
    /\ ((r = Ok tt /\ failure = None /\ text = "repo: Deleted " ++ jcrPath
         /\ exists c cs, post jcrPath [(":operation", "delete")] w = (inr (Some (c :: cs)), w1))
        \/ (exists reason,
              r = Throw (OperationError ("Unable to delete " ++ jcrPath ++ ": " ++ reason))
              /\ text = "[ERROR] Unable to delete " ++ jcrPath ++ ": " ++ reason
              /\ (post jcrPath [(":operation", "delete")] w = (inr None, w1)
                  \/ post jcrPath [(":operation", "delete")] w = (inr (Some []), w1)
                  \/ exists err, post jcrPath [(":operation", "delete")] w = (inl err, w1)
                                 /\ failure = Some err /\ reason = exn_message err))).
Proof.
  unfold deleteJcrNode, try_catch, bind, client_post, throw_OperationError, writeMessage,
    emit, throw.
  destruct (post jcrPath [(":operation", "delete")] w) as [[err|[[|c cs]|]] w1]; simpl.
  - exists (Some err). do 3 eexists. split; [reflexivity|]. right.
    eexists. split; [reflexivity|]. split; [reflexivity|]. right. right. eauto.
  - exists None. do 3 eexists. split; [reflexivity|]. right.
    eexists. split; [reflexivity|]. split; [reflexivity|]. right. left. reflexivity.
  - exists None. do 3 eexists. split; [reflexivity|]. left.
    repeat split. eauto.
  - exists None. do 3 eexists. split; [reflexivity|]. right.
    eexists. split; [reflexivity|]. split; [reflexivity|]. left. reflexivity.
Qed.

Lemma deleteJcrNode_requests (jcrPath : Uri) (w : World) :
  requests (snd (snd (deleteJcrNode jcrPath w))) = [(jcrPath, [(":operation", "delete")])].
Proof.
  unfold deleteJcrNode, try_catch, bind, client_post, throw_OperationError, writeMessage,
    emit, throw.
  destruct (post jcrPath [(":operation", "delete")] w) as [[err|[[|c cs]|]] w1]; reflexivity.
Qed.

(** The deletion of several children asks for each of them once, in the
    order of the list, whether the requests before it failed or not. *)
Theorem delete_all_requests (jcrPath : Uri) (names : list string) (w : World) :
  requests (snd (snd (delete_all jcrPath names w)))
  = map (fun v => (joinPath jcrPath v, [(":operation", "delete")])) names.
Proof.
  revert w. induction names as [|v tl IH]; intros w; [reflexivity|].
  cbn [delete_all map].
  pose proof (deleteJcrNode_requests (joinPath jcrPath v) w) as H1.
  destruct (deleteJcrNode (joinPath jcrPath v) w) as [r1 [w1 l1]].
  specialize (IH w1).
  destruct (delete_all jcrPath tl w1) as [r2 [w2 l2]].
  simpl in *.
  destruct r1; simpl; rewrite requests_app, H1, IH; reflexivity.
Qed.
End Deletions.

(** ** What the mutation leaves alone *)
Section Untouched.
Context {P : Platform}.

Lemma not_ignored (ks : list string) (data : tree) (i : string) :
  has_key (delete_each ks data) i = true -> ~ In i ks.
Proof.
  rewrite has_key_delete_each. intros H Hin.
  apply andb_prop in H as [H _]. apply negb_true_iff in H.
  assert (existsb (String.eqb i) ks = true) as E.
  { apply existsb_exists. exists i. split; [exact Hin|apply String.eqb_refl]. }
  congruence.
Qed.

(** Nothing is written for an ignored property: every entry of the
    mutation is the order directive, an entry written for a key the desired
    tree has and that is not ignored (the entry under the key, its patch
    marker or its type hint), or the deletion of a property the current node
    has and that is not ignored. The ignored properties are the internal
    ones and those of the options. *)
Theorem ignored_properties_untouched (options : SaveOptions) (currentData0 : tree)
    (properties0 : value) (order : option nat) (pl : Plan) :
  plan options currentData0 properties0 order = Ok pl ->
  exists deletions updates : FormData,
    plan_formData pl = List.app deletions (List.app updates (order_entry order))
    /\ Forall (fun kv => exists i,
                 has_key (spread properties0) i = true
                 /\ ~ In i (List.app internalProps (ignoreProps options))
                 /\ is_meta i = false /\ entry_of i kv) updates
    /\ Forall (fun kv => exists i,
                 has_key currentData0 i = true
                 /\ ~ In i (List.app internalProps (ignoreProps options))
                 /\ kv = (i ++ "@Delete", "")) deletions.
Proof.
  intros H. apply plan_formData_parts in H. cbv zeta in H.
  set (ignored := List.app internalProps (ignoreProps options)) in *.
  destruct H as (properties & dels & parts & Hp & Hdels & _ & _ & Hparts & Hform & _).
  exists dels, (concat parts). split; [exact Hform|]. split.
  - apply Forall_forall. intros kv Hkv. apply in_concat in Hkv as (es & Hes & Hkv).
    destruct (Forall2_In_r Hparts Hes) as (i & Hi & child & Hscan).
    apply scan_desired_entries in Hscan as [[->|Hm] Hall]; [destruct Hkv|].
    apply has_key_In in Hi. rewrite (proj2 (Hp i Hm)) in Hi.
    exists i. split; [|split; [|split; [exact Hm|]]].
    + rewrite has_key_delete_each in Hi. now apply andb_prop in Hi as [_ Hi].
    + now apply not_ignored in Hi.
    + rewrite Forall_forall in Hall. now apply Hall.
  - eapply Forall_impl; [|exact Hdels].
    intros [name text] (Htext & i & Hfst & Hin & _). simpl in Htext, Hfst. subst.
    apply has_key_In in Hin. exists i. split; [|split; [|reflexivity]].
    + rewrite has_key_delete_each in Hin. now apply andb_prop in Hin as [_ Hin].
    + now apply not_ignored in Hin.
Qed.

(** The children [processNode] deletes. *)
Lemma scan_current_children (options : SaveOptions) (currentData properties1 : tree)
    (ks : list string) (st : Draft) :
  (forall k, is_meta k = false ->
     has_key (d_properties st) k = has_key properties1 k) ->
  d_childrenToDelete (fold_left (scan_current options currentData) ks st)
  = List.app (d_childrenToDelete st)
      (filter (fun i => (deleteChildren options && isChildNode currentData i
                         && negb (is_meta i) && negb (in_object properties1 i))%bool) ks).
Proof.
  revert st. induction ks as [|i tl IH]; intros st Hst; simpl.
  - now rewrite app_nil_r.
  - destruct (scan_current_step options currentData st i) as (_ & Hstep & _).
    rewrite IH.
    2:{ intros k Hk. rewrite (proj2 (Hstep k Hk)). now apply Hst. }
    unfold scan_current.
    destruct (is_meta i) eqn:Hm.
    + rewrite !andb_false_r. cbn [andb].
      destruct (negb (in_object (d_properties st) i)); reflexivity.
    + unfold in_object. rewrite (Hst i Hm). fold (in_object properties1 i).
      destruct (in_object properties1 i); simpl.
      * now rewrite !andb_false_r.
      * destruct (isChildNode currentData i), (deleteChildren options); simpl;
          rewrite <- ?app_assoc; try reflexivity.
        destruct (deleteProps options); [|reflexivity].
        destruct (truthy _); reflexivity.
        destruct (deleteProps options); [|reflexivity].
        destruct (truthy _); reflexivity.
Qed.

(** With [deleteChildren] the children deleted are the child nodes of the
    current node whose name is not in the desired tree, in the order of the
    current node, ignored names and names with the reserved prefix left
    out; a name every object inherits ([constructor], [toString], ...) is
    in the desired tree whether the tree has a key of that name or not, so
    a child of such a name is never deleted. Without [deleteChildren] no
    child is deleted. *)
Theorem children_to_delete (options : SaveOptions) (currentData0 : tree)
    (properties0 : value) (order : option nat) (pl : Plan) :
  plan options currentData0 properties0 order = Ok pl ->
  let ignored := List.app internalProps (ignoreProps options) in
  let currentData := delete_each ignored currentData0 in
  let desired := delete_each ignored (spread properties0) in
  plan_childrenToDelete pl
  = if deleteChildren options
    then filter (fun i => (isChildNode currentData i && negb (is_meta i)
                           && negb (has_key desired i) && negb (inherited i))%bool)
                (keys currentData)
    else [].
Proof.
  unfold plan. intros H. cbv zeta.
  set (ignored := List.app internalProps (ignoreProps options)) in *.
  set (currentData := delete_each ignored currentData0) in *.
  set (properties1 := delete_each ignored (spread properties0)) in *.
  set (st0 := {| d_properties := properties1; d_childrenToDelete := [];
                 d_formData := []; d_childProps := [] |}) in *.
  apply rbind_Ok in H as ([formData1 childProps] & _ & H). injection H as <-.
  cbn [plan_childrenToDelete].
  rewrite (scan_current_children options currentData properties1)
    by (intros; reflexivity).
  cbn [d_childrenToDelete st0 app].
  destruct (deleteChildren options); cbn [andb].
  - apply filter_ext. intros i. unfold in_object.
    now rewrite negb_orb, andb_assoc.
  - induction (keys _) as [|k ks IH]; [reflexivity|exact IH].
Qed.

End Untouched.

Lemma ignored_properties_untouched_witness :
  exists deletions updates : FormData,
    [("title", "New"); ("title@TypeHint", "String")]
    = List.app deletions (List.app updates [])
    /\ Forall (fun kv => exists i,
                 has_key (List.app title_desired [("title2", VString "z")]) i = true
                 /\ ~ In i (List.app internalProps ["title2"])
                 /\ is_meta i = false /\ entry_of i kv) updates
    /\ Forall (fun kv => exists i,
                 has_key (List.app title_current
                            [("title2", VString "x"); ("jcr:created", VString "y")]) i = true
                 /\ ~ In i (List.app internalProps ["title2"])
                 /\ kv = (i ++ "@Delete", "")) deletions.
Proof.
  exact (ignored_properties_untouched (P := Reference.platform)
           {| ignoreProps := ["title2"]; deleteProps := true; deleteChildren := false |}
           (List.app title_current [("title2", VString "x"); ("jcr:created", VString "y")] : tree)
           (VObject (List.app title_desired [("title2", VString "z")])) None
           {| plan_currentData := title_current;
              plan_formData := [("title", "New"); ("title@TypeHint", "String")];
              plan_childrenToDelete := [];
              plan_childProps := [];
              plan_childProto := ProtoDefault |} eq_refl).
Defined.

Lemma children_to_delete_witness :
  [ "old" ]
  = filter (fun i => (isChildNode (delete_each (List.app internalProps [])
                                     [("old", VObject []); ("kept", VObject []);
                                      ("constructor", VObject []);
                                      ("title", @VString Reference.platform "t")]) i
                      && negb (is_meta i)
                      && negb (has_key (delete_each (List.app internalProps [])
                                          [("kept", @VObject Reference.platform [])]) i)
                      && negb (inherited i))%bool)
      (keys (delete_each (List.app internalProps [])
               [("old", VObject []); ("kept", VObject []); ("constructor", VObject []);
                ("title", @VString Reference.platform "t")])).
Proof.
  exact (children_to_delete (P := Reference.platform) delete_options
           [("old", VObject []); ("kept", VObject []); ("constructor", VObject []);
            ("title", VString "t")]
           (VObject [("kept", VObject [])]) None
           {| plan_currentData := [("old", VObject []); ("kept", VObject []);
                                   ("constructor", VObject []); ("title", VString "t")];
              plan_formData := [];
              plan_childrenToDelete := ["old"];
              plan_childProps := [("kept", VObject [])];
              plan_childProto := ProtoDefault |} eq_refl).
Defined.

(** ** Fetching the properties of a node *)
Section FetchProperties.
Context {P : Platform} {T : Transport}.

Lemma cleanData_properties (data : tree) :
  cleanData data false false = filter (fun kv => negb (is_child_value (snd kv))) data.
Proof.
  unfold cleanData. induction data as [|[i w] tl IH]; [reflexivity|].
  cbn [flat_map filter snd]. rewrite IH.
  destruct (is_child_value w); reflexivity.
Qed.

(** [fetchJcrProperties] asks for the node at depth zero. When the server
    answers, the result is the answer without its child nodes, the other
    entries in their order; an entry whose value is [null] counts as a child
    node and is left out too. When the request fails the failure is the
    outcome as it is: it is not wrapped, and a 404 is no exception. *)
Theorem fetchJcrProperties_result (jcrPath : Uri) (w : World) :
  (forall data w1,
     fetchJSON (fetch_url jcrPath 0) w = (inr data, w1) ->
     fetchJcrProperties jcrPath w
     = (Ok (filter (fun kv => negb (is_child_value (snd kv))) data),
        (w1, [GET (fetch_url jcrPath 0) None]))
     /\ forall k, ~ In (k, VNull) (filter (fun kv => negb (is_child_value (snd kv))) data))
  /\ (forall err w1,
        fetchJSON (fetch_url jcrPath 0) w = (inl err, w1) ->
        fetchJcrProperties jcrPath w
        = (Throw err, (w1, [GET (fetch_url jcrPath 0) (Some err)]))).
Proof.
  split.
  - intros data w1 H. split.
    + unfold fetchJcrProperties, fetchJcrNode, bind, client_fetchJSON.
      cbn -[fetch_url cleanData]. rewrite H. cbn -[fetch_url cleanData].
      now rewrite cleanData_properties.
    + intros k Hin. apply filter_In in Hin as [_ Hin]. discriminate Hin.
  - intros err w1 H.
    unfold fetchJcrProperties, fetchJcrNode, bind, client_fetchJSON.
    cbn -[fetch_url cleanData]. now rewrite H.
Qed.
End FetchProperties.

Lemma fetchJcrProperties_result_witness :
  fetchJcrProperties (T := static_server [ (fetch_url "/n" 0, sample_node) ]) "/n" tt
  = (Ok [("title", VString "Page")], (tt, [GET (fetch_url "/n" 0) None])).
Proof.
  exact (proj1 (proj1 (fetchJcrProperties_result (T := static_server
                  [ (fetch_url "/n" 0, sample_node) ]) "/n" tt) sample_node tt eq_refl)).
Defined.

(** ** [jcrToLocalName] and [localNameToJcr] *)

Lemma all_chars_app (p : ascii -> bool) (a b : string) :
  all_chars p (a ++ b) = (all_chars p a && all_chars p b)%bool.
Proof.
  induction a as [|c a IH]; [reflexivity|]. cbn [append all_chars].
  now rewrite IH, andb_assoc.
Qed.

Lemma name_char_hex_digit (d : N) : name_char (hex_digit d) = true.
Proof.
  unfold hex_digit. destruct (N.to_nat d) as [|n]; [reflexivity|].
  do 16 (destruct n as [|n]; [reflexivity|]). reflexivity.
Qed.

Lemma name_char_toString16 (n : N) : all_chars name_char (toString16 n) = true.
Proof.
  unfold toString16. destruct (N.ltb n 16); cbn [all_chars];
    now rewrite ?name_char_hex_digit.
Qed.

Lemma is_hex_digit_name_char (c : ascii) : is_hex_digit c = true -> name_char c = true.
Proof.
  unfold is_hex_digit, name_char, is_word_char. intros H.
  set (n := N_of_ascii c) in *.
  assert (forall a b c d : N, (a <= b)%N -> (c <= d)%N ->
            (N.leb b n && N.leb n c)%bool = true -> (N.leb a n && N.leb n d)%bool = true)
    as Hr.
  { intros a b c0 d Hab Hcd Hx. apply andb_true_iff in Hx as [H1 H2].
    apply N.leb_le in H1, H2. apply andb_true_iff. split; apply N.leb_le; lia. }
  apply orb_true_iff in H as [H|H]; [apply orb_true_iff in H as [H|H]|].
  - rewrite H. reflexivity.
  - rewrite (Hr 97 97 102 122 ltac:(lia) ltac:(lia) H)%N. now rewrite !orb_true_r.
  - rewrite (Hr 65 65 70 90 ltac:(lia) ltac:(lia) H)%N. now rewrite !orb_true_r.
Qed.

Lemma escaped_x_match_inv (s : string) :
  escaped_x_match s = true ->
  exists h1 h2 h3 h4 rest,
    s = String "_" (String "x" (String h1 (String h2 (String h3 (String h4 rest)))))
    /\ is_hex_digit h1 = true /\ is_hex_digit h2 = true
    /\ is_hex_digit h3 = true /\ is_hex_digit h4 = true.
Proof.
  destruct s as [|u [|x [|h1 [|h2 [|h3 [|h4 rest]]]]]]; try discriminate.
  cbn [escaped_x_match]. intros H.
  repeat (apply andb_true_iff in H as [H ?]).
  apply Ascii.eqb_eq in H. subst u.
  match goal with E : Ascii.eqb x _ = true |- _ => apply Ascii.eqb_eq in E; subst x end.
  exists h1, h2, h3, h4, rest. auto.
Qed.

Lemma local_name_callback_ok (c : ascii) :
  all_chars name_char (local_name_callback (String c "")) = true.
Proof.
  cbn [local_name_callback]. rewrite !all_chars_app, name_char_toString16. reflexivity.
Qed.

(** What the loop of [jcrToLocalName] writes is made of name characters. *)
Lemma replace_local_name_chars (s : string) :
  forall skip,
    all_chars name_char (replace_g local_name_match local_name_callback skip s) = true.
Proof.
  induction s as [|c tl IH]; intros skip.
  - destruct skip; reflexivity.
  - destruct skip as [|k]; [|apply IH].
    cbn [replace_g local_name_match].
    destruct (negb (name_char c)) eqn:Hc.
    + cbn [take]. replace (take 0 tl) with "" by (destruct tl; reflexivity).
      now rewrite all_chars_app, local_name_callback_ok, IH.
    + apply negb_false_iff in Hc.
      destruct (escaped_x_match (String c tl)) eqn:Hx.
      * apply escaped_x_match_inv in Hx as (h1 & h2 & h3 & h4 & rest & E & H1 & H2 & H3 & H4).
        injection E as -> ->.
        cbn [take local_name_callback]. replace (take 0 rest) with "" by (destruct rest; reflexivity).
        rewrite all_chars_app, IH. cbn [append all_chars].
        rewrite (is_hex_digit_name_char h1 H1), (is_hex_digit_name_char h2 H2),
          (is_hex_digit_name_char h3 H3), (is_hex_digit_name_char h4 H4).
        reflexivity.
      * cbn [all_chars]. now rewrite Hc, IH.
Qed.

(** The first character the loop writes is the first character of the
    name, or the underscore that opens an escape. *)
Lemma replace_local_name_first (c : ascii) (tl : string) :
  exists d rest,
    replace_g local_name_match local_name_callback 0 (String c tl) = String d rest
    /\ (d = c \/ d = "_"%char).
Proof.
  cbn [replace_g local_name_match].
  destruct (negb (name_char c)).
  - cbn [take local_name_callback append]. eauto.
  - destruct (escaped_x_match (String c tl)) eqn:Hx.
    + apply escaped_x_match_inv in Hx as (h1 & h2 & h3 & h4 & rest & E & _).
      injection E as -> ->. cbn [take local_name_callback append]. eauto.
    + eauto.
Qed.

(** The name [jcrToLocalName] gives is made of letters, digits,
    underscores, dashes, dots and colons, and does not start with a digit, a
    dash or a dot, whatever the characters of the name it is given. *)
Theorem jcrToLocalName_safe (name : string) :
  xml_name_ok (jcrToLocalName name) = true.
Proof.
  unfold xml_name_ok, jcrToLocalName. destruct name as [|c tl]; [reflexivity|].
  destruct (name_start_special c) eqn:Hs.
  - rewrite all_chars_app, local_name_callback_ok, replace_local_name_chars.
    reflexivity.
  - rewrite replace_local_name_chars.
    destruct (replace_local_name_first c tl) as (d & rest & -> & [->| ->]).
    + now rewrite Hs.
    + reflexivity.
Qed.

Lemma is_hex_digit_not_underscore (c : ascii) :
  is_hex_digit c = true -> Ascii.eqb c "_" = false.
Proof.
  intros H. apply Ascii.eqb_neq. intros ->. discriminate H.
Qed.

Lemma escaped_x_match_head (c : ascii) (tl : string) :
  Ascii.eqb c "_" = false -> escaped_x_match (String c tl) = false.
Proof.
  intros H. destruct tl as [|x [|h1 [|h2 [|h3 [|h4 rest]]]]]; try reflexivity.
  cbn [escaped_x_match]. now rewrite H.
Qed.

Lemma escaped_unit_head (c : ascii) (tl : string) :
  Ascii.eqb c "_" = false -> escaped_unit (String c tl) = None.
Proof.
  intros H. destruct tl as [|x [|h1 [|h2 [|h3 [|h4 [|e rest]]]]]]; try reflexivity.
  cbn [escaped_unit]. now rewrite H.
Qed.

Lemma replace_local_name_plain (c : ascii) (tl : string) :
  name_char c = true -> escaped_x_match (String c tl) = false ->
  replace_g local_name_match local_name_callback 0 (String c tl)
  = String c (replace_g local_name_match local_name_callback 0 tl).
Proof.
  intros Hc Hx. cbn [replace_g local_name_match]. now rewrite Hc, Hx.
Qed.

Lemma replace_local_name_escape (h1 h2 h3 h4 : ascii) (rest : string) :
  is_hex_digit h1 = true -> is_hex_digit h2 = true ->
  is_hex_digit h3 = true -> is_hex_digit h4 = true ->
  replace_g local_name_match local_name_callback 0
    (String "_" (String "x" (String h1 (String h2 (String h3 (String h4 rest))))))
  = "_x005f_" ++ String "x" (String h1 (String h2 (String h3 (String h4
       (replace_g local_name_match local_name_callback 0 rest))))).
Proof.
  intros H1 H2 H3 H4.
  cbn [replace_g local_name_match escaped_x_match].
  change (name_char "_") with true. cbn [negb].
  rewrite H1, H2, H3, H4. cbn [Ascii.eqb Bool.eqb andb].
  cbn [take local_name_callback append]. destruct rest; reflexivity.
Qed.

(** The loop of [jcrToLocalName] keeps the first character of a name made
    of name characters. *)
Lemma replace_local_name_head (c : ascii) (tl : string) :
  name_char c = true ->
  exists r,
    replace_g local_name_match local_name_callback 0 (String c tl) = String c r
    /\ (Ascii.eqb c "_" = false ->
        r = replace_g local_name_match local_name_callback 0 tl).
Proof.
  intros Hc. destruct (escaped_x_match (String c tl)) eqn:Hx.
  - destruct (escaped_x_match_inv _ Hx) as (h1 & h2 & h3 & h4 & rest & E & H1 & H2 & H3 & H4).
    injection E as -> ->.
    rewrite replace_local_name_escape by assumption.
    cbn [append]. eexists. split; [reflexivity|]. discriminate.
  - rewrite replace_local_name_plain by assumption. eauto.
Qed.

(** One character of the name is read back from what the loop wrote. *)
Lemma replace_local_name_next (s : string) (c : ascii) (r : string) :
  all_chars name_char s = true ->
  replace_g local_name_match local_name_callback 0 s = String c r ->
  Ascii.eqb c "_" = false ->
  exists tl, s = String c tl
             /\ all_chars name_char tl = true
             /\ r = replace_g local_name_match local_name_callback 0 tl.
Proof.
  intros Hs E Hc. destruct s as [|d tl]; [discriminate E|].
  cbn [all_chars] in Hs. apply andb_true_iff in Hs as [Hd Htl].
  destruct (replace_local_name_head d tl Hd) as (r' & E' & Hr).
  rewrite E' in E. injection E as -> ->.
  exists tl. auto.
Qed.

Lemma escaped_unit_inv (s : string) (code : N) :
  escaped_unit s = Some code ->
  exists h1 h2 h3 h4 rest,
    s = String "_" (String "x" (String h1 (String h2 (String h3 (String h4
          (String "_" rest))))))
    /\ is_hex_digit h1 = true /\ is_hex_digit h2 = true
    /\ is_hex_digit h3 = true /\ is_hex_digit h4 = true.
Proof.
  destruct s as [|u [|x [|h1 [|h2 [|h3 [|h4 [|e rest]]]]]]]; try discriminate.
  cbn [escaped_unit].
  destruct (Ascii.eqb u "_") eqn:Eu; [|discriminate].
  destruct (Ascii.eqb x "x") eqn:Ex; [|discriminate].
  destruct (is_hex_digit h1) eqn:H1; [|discriminate].
  destruct (is_hex_digit h2) eqn:H2; [|discriminate].
  destruct (is_hex_digit h3) eqn:H3; [|discriminate].
  destruct (is_hex_digit h4) eqn:H4; [|discriminate].
  destruct (Ascii.eqb e "_") eqn:Ee; [|discriminate].
  intros _. apply Ascii.eqb_eq in Eu, Ex, Ee. subst.
  exists h1, h2, h3, h4, rest. auto.
Qed.

(** An escape read from what the loop wrote after an underscore was in the
    name. *)
Lemma escaped_unit_written (tl : string) (code : N) :
  all_chars name_char tl = true ->
  escaped_unit (String "_" (replace_g local_name_match local_name_callback 0 tl)) = Some code ->
  escaped_x_match (String "_" tl) = true.
Proof.
  intros Htl H.
  apply escaped_unit_inv in H as (h1 & h2 & h3 & h4 & rest & E & H1 & H2 & H3 & H4).
  injection E as E.
  destruct (replace_local_name_next _ _ _ Htl E eq_refl) as (t1 & -> & Ht1 & E1).
  symmetry in E1.
  destruct (replace_local_name_next _ _ _ Ht1 E1 (is_hex_digit_not_underscore _ H1))
    as (t2 & -> & Ht2 & E2).
  symmetry in E2.
  destruct (replace_local_name_next _ _ _ Ht2 E2 (is_hex_digit_not_underscore _ H2))
    as (t3 & -> & Ht3 & E3).
  symmetry in E3.
  destruct (replace_local_name_next _ _ _ Ht3 E3 (is_hex_digit_not_underscore _ H3))
    as (t4 & -> & Ht4 & E4).
  symmetry in E4.
  destruct (replace_local_name_next _ _ _ Ht4 E4 (is_hex_digit_not_underscore _ H4))
    as (t5 & -> & Ht5 & E5).
  cbn [escaped_x_match]. rewrite H1, H2, H3, H4. reflexivity.
Qed.

Lemma localNameToJcr_plain (c : ascii) (rest : string) :
  escaped_unit (String c rest) = None ->
  localNameToJcr_from 0 (String c rest) = N_of_ascii c :: localNameToJcr_from 0 rest.
Proof. intros H. cbn [localNameToJcr_from]. now rewrite H. Qed.

Lemma localNameToJcr_underscore (rest : string) :
  localNameToJcr_from 0 ("_x005f_" ++ rest) = 95%N :: localNameToJcr_from 0 rest.
Proof. reflexivity. Qed.

Lemma round_trip_names (n : nat) :
  forall s, String.length s <= n -> all_chars name_char s = true ->
    localNameToJcr_from 0 (replace_g local_name_match local_name_callback 0 s) = units s.
Proof.
  induction n as [|n IH]; intros s Hlen Hs.
  - destruct s; [reflexivity|simpl in Hlen; lia].
  - destruct s as [|c tl]; [reflexivity|].
    pose proof Hs as Hs'. cbn [all_chars] in Hs'. apply andb_true_iff in Hs' as [Hc Htl].
    destruct (escaped_x_match (String c tl)) eqn:Hx.
    + destruct (escaped_x_match_inv _ Hx) as (h1 & h2 & h3 & h4 & rest & E & H1 & H2 & H3 & H4).
      injection E as -> ->.
      rewrite replace_local_name_escape by assumption.
      rewrite localNameToJcr_underscore.
      rewrite !localNameToJcr_plain
        by (apply escaped_unit_head;
            first [reflexivity | now apply is_hex_digit_not_underscore]).
      unfold units. cbn [list_ascii_of_string map]. do 6 f_equal.
      apply IH; [simpl in Hlen; lia|].
      cbn [all_chars] in Htl. repeat (apply andb_true_iff in Htl as [_ Htl]). exact Htl.
    + rewrite replace_local_name_plain by assumption.
      rewrite localNameToJcr_plain.
      * unfold units. cbn [list_ascii_of_string map]. f_equal.
        apply IH; [simpl in Hlen; lia|exact Htl].
      * destruct (Ascii.eqb c "_") eqn:Eu; [|now apply escaped_unit_head].
        apply Ascii.eqb_eq in Eu. subst c.
        destruct (escaped_unit _) as [code|] eqn:Eunit; [|reflexivity].
        apply escaped_unit_written in Eunit; [congruence|exact Htl].
Qed.

(** A name made of letters, digits, underscores, dashes, dots and colons
    that does not start with a digit, a dash or a dot comes back from
    [jcrToLocalName] followed by [localNameToJcr], also when it holds
    what looks like an escape. *)
Theorem local_name_round_trip (name : string) :
  xml_name_ok name = true ->
  localNameToJcr (jcrToLocalName name) = units name.
Proof.
  unfold xml_name_ok, localNameToJcr, jcrToLocalName. intros H.
  apply andb_true_iff in H as [Hall Hstart].
  destruct name as [|c tl]; [reflexivity|].
  apply negb_true_iff in Hstart. rewrite Hstart.
  now apply (round_trip_names (String.length (String c tl))).
Qed.

Lemma local_name_round_trip_witness :
  localNameToJcr (jcrToLocalName "cq:my_x0041_node") = units "cq:my_x0041_node".
Proof. apply local_name_round_trip. reflexivity. Defined.

(** ** Arrays of strings in the text form *)
Section StringArrays.
Context {P : Platform}.

Lemma escape_commas_cons (c : ascii) (tl : string) :
  escape_commas (String c tl)
  = (if Ascii.eqb c "," then "\," else String c "") ++ escape_commas tl.
Proof.
  unfold escape_commas. cbn [replace_g]. unfold comma_match. cbn [first_is].
  destruct (Ascii.eqb c ","); reflexivity.
Qed.

Lemma element_match_written (e : string) (d : ascii) (rest : string) :
  array_element e = true -> is_delim d = true ->
  element_match (escape_commas e ++ String d rest) = Some (String.length (escape_commas e)).
Proof.
  intros He Hd. induction e as [|c tl IH].
  - cbn [escape_commas replace_g append element_match String.length].
    rewrite Hd.
    assert (Ascii.eqb d "\" = false) as ->.
    { unfold is_delim in Hd. apply orb_true_iff in Hd as [H|H];
        apply Ascii.eqb_eq in H; subst d; reflexivity. }
    reflexivity.
  - unfold array_element in He. cbn [has_char] in He.
    apply andb_true_iff in He as [H1 H2].
    apply negb_true_iff in H1, H2.
    apply orb_false_elim in H1 as [Hb H1]. apply orb_false_elim in H2 as [Hk H2].
    assert (array_element tl = true) as Htl.
    { unfold array_element. now rewrite H1, H2. }
    specialize (IH Htl). rewrite escape_commas_cons.
    destruct (Ascii.eqb c ",") eqn:Ec.
    + cbn [append element_match Ascii.eqb Bool.eqb is_delim orb].
      rewrite IH. reflexivity.
    + cbn [append element_match]. rewrite Hb.
      assert (is_delim c = false) as ->.
      { unfold is_delim. now rewrite Ec, Hk. }
      cbn [first_some option_map]. rewrite IH. reflexivity.
Qed.

Lemma escape_match_plain (c : ascii) (rest : string) :
  Ascii.eqb c "\" = false -> escape_match (String c rest) = None.
Proof. intros H. destruct rest; cbn [escape_match]; [reflexivity|now rewrite H]. Qed.

Lemma unescape_escape_commas (e : string) :
  has_char "\" e = false -> unescape (escape_commas e) = e.
Proof.
  induction e as [|c tl IH]; intros H; [reflexivity|].
  cbn [has_char] in H. apply orb_false_elim in H as [Hc Htl].
  rewrite escape_commas_cons. unfold unescape in *.
  destruct (Ascii.eqb c ",") eqn:Ec.
  - apply Ascii.eqb_eq in Ec. subst c.
    cbn [append replace_g escape_match Ascii.eqb Bool.eqb orb andb take escape_callback
         String.get charAt option_map].
    now rewrite IH.
  - cbn [append replace_g]. rewrite (escape_match_plain _ _ Hc). now rewrite IH.
Qed.

Lemma parseJcrValue_written (e : string) :
  array_element e = true -> parseJcrValue (escape_commas e) "String" = VString e.
Proof.
  unfold array_element. intros H. apply andb_true_iff in H as [H _].
  apply negb_true_iff in H.
  unfold parseJcrValue. rewrite (unescape_escape_commas _ H).
  cbn [String.eqb Ascii.eqb Bool.eqb VALUE_TYPE.boolean VALUE_TYPE.date
       VALUE_TYPE.double VALUE_TYPE.long orb].
  destruct (String.eqb_spec e "\0") as [->|_]; [discriminate H|reflexivity].
Qed.

Lemma matchAll_elements_skip (a b : string) (p : nat) :
  matchAll_elements p (String.length a) (a ++ b)
  = matchAll_elements (p + String.length a) 0 b.
Proof.
  revert p. induction a as [|c a IH]; intros p.
  - cbn [String.length append]. now rewrite Nat.add_0_r.
  - cbn [String.length append matchAll_elements]. rewrite IH. f_equal. lia.
Qed.

Lemma is_delim_not_bracket (d : ascii) : is_delim d = true -> Ascii.eqb d "[" = false.
Proof.
  unfold is_delim. intros H. apply orb_true_iff in H as [H|H];
    apply Ascii.eqb_eq in H; subst d; reflexivity.
Qed.

(** The matches of one written element and of the delimiter after it. *)
Lemma matchAll_elements_written (e : string) (d : ascii) (rest : string) (p : nat) :
  array_element e = true -> is_delim d = true -> 0 < p ->
  matchAll_elements p 0 (escape_commas e ++ String d rest)
  = List.app (match escape_commas e with
              | EmptyString => []
              | x => [(p, x)]
              end)
      ((p + String.length (escape_commas e), "")
       :: matchAll_elements (S (p + String.length (escape_commas e))) 0 rest).
Proof.
  intros He Hd Hp.
  assert (Nat.eqb p 0 = false) as Hp0 by (apply Nat.eqb_neq; lia).
  assert (forall q, 0 < q ->
            matchAll_elements q 0 (String d rest)
            = (q, "") :: matchAll_elements (S q) 0 rest) as Hdelim.
  { intros q Hq. cbn [matchAll_elements].
    replace (Nat.eqb q 0) with false by (symmetry; apply Nat.eqb_neq; lia).
    cbn [andb].
    pose proof (element_match_written "" d rest eq_refl Hd) as Hm.
    cbn [escape_commas replace_g append String.length] in Hm. now rewrite Hm. }
  pose proof (element_match_written e d rest He Hd) as Hm.
  destruct (escape_commas e) as [|c x] eqn:Ex.
  - cbn [append String.length app]. rewrite Nat.add_0_r. now apply Hdelim.
  - cbn [append] in *. cbn [matchAll_elements]. rewrite Hp0. cbn [andb].
    rewrite Hm. cbn [String.length app].
    change (String c (x ++ String d rest)) with (String c x ++ String d rest).
    replace (S (String.length x)) with (String.length (String c x)) by reflexivity.
    rewrite take_length_app, matchAll_elements_skip.
    rewrite Hdelim by lia. cbn [String.length].
    replace (S p + String.length x) with (p + S (String.length x)) by lia.
    reflexivity.
Qed.

Lemma collect_matches_written (l : list string) :
  forall p lastIndex, l <> [] -> Forall (fun s => array_element s = true) l ->
    lastIndex < p ->
    collect_matches lastIndex
      (matchAll_elements p 0 (join "," (map escape_commas l) ++ "]"))
    = map escape_commas l.
Proof.
  induction l as [|x [|y tl] IH]; intros p L Hne Hall HL; [congruence| |].
  - inversion Hall as [|? ? Hx _]; subst.
    cbn [map join]. rewrite (matchAll_elements_written x "]" "" p Hx eq_refl) by lia.
    assert (Nat.ltb L p = true) as HLp by (apply Nat.ltb_lt; lia).
    destruct (escape_commas x) as [|c e]; cbn [app collect_matches matchAll_elements].
    + rewrite Nat.add_0_r, HLp. reflexivity.
    + rewrite HLp, Nat.ltb_irrefl. reflexivity.
  - inversion Hall as [|? ? Hx Htl]; subst.
    change (join "," (map escape_commas (x :: y :: tl)))
      with (escape_commas x ++ "," ++ join "," (map escape_commas (y :: tl))).
    rewrite !append_assoc.
    change ("," ++ ?r) with (String "," r).
    rewrite (matchAll_elements_written x "," _ p Hx eq_refl) by lia.
    assert (Nat.ltb L p = true) as HLp by (apply Nat.ltb_lt; lia).
    change (map escape_commas (x :: y :: tl))
      with (escape_commas x :: map escape_commas (y :: tl)).
    destruct (escape_commas x) as [|c e]; cbn [app collect_matches].
    + rewrite Nat.add_0_r, HLp. cbn [String.length]. rewrite Nat.add_0_r.
      f_equal. apply IH; [discriminate|exact Htl|lia].
    + rewrite HLp, Nat.ltb_irrefl. f_equal.
      apply IH; [discriminate|exact Htl|lia].
Qed.

Lemma type_prefix_String (rest : string) :
  type_prefix_match ("{String}" ++ rest) = Some ("String", rest).
Proof. reflexivity. Qed.

(** A non-empty array of strings that hold no backslash and no closing
    bracket is read back, with the tag [String], from the text
    [serializeJcrValue] writes for it: the elements as they were (commas,
    empty strings and the array of one empty string included) and the type
    hint [String[]]. *)
Theorem string_array_round_trip (l : list string) :
  l <> [] -> Forall (fun s => array_element s = true) l ->
  exists s,
    serializeJcrValue (VArray (map VString l)) = Ok s
    /\ unserializeJcrValue ("{String}" ++ s)
       = {| u_value := VArray (map VString l); u_typeHint := "String[]" |}.
Proof.
  intros Hne Hall.
  assert (rmap (fun e => rbind (formatJcrValue e) (fun s =>
                  Ok (replace_g comma_match (fun m => GetSubstitution m [] "\,") 0 s)))
               (map VString l)
          = Ok (map escape_commas l)) as Hparts.
  { clear. induction l as [|x tl IH]; [reflexivity|].
    cbn [map rmap]. rewrite IH. reflexivity. }
  assert (forall s, s = "[" ++ join "," (map escape_commas l) ++ "]" ->
            unserializeJcrValue ("{String}" ++ s)
            = {| u_value := VArray (map VString l); u_typeHint := "String[]" |}) as Hread.
  { intros s ->. unfold unserializeJcrValue. rewrite type_prefix_String.
    cbn [append first_is Ascii.eqb Bool.eqb].
    cbn [matchAll_elements Nat.eqb andb Ascii.eqb Bool.eqb collect_matches Nat.ltb Nat.leb].
    rewrite collect_matches_written by (auto; lia).
    f_equal. f_equal. rewrite map_map.
    clear Hne Hparts. induction Hall as [|x tl Hx _ IH]; [reflexivity|].
    cbn [map]. now rewrite parseJcrValue_written, IH. }
  destruct l as [|x [|y tl]]; [congruence| |].
  - destruct (String.eqb_spec x "") as [->|Hx].
    + exists "[\0]". split; [reflexivity|].
      unfold unserializeJcrValue. rewrite type_prefix_String.
      reflexivity.
    + exists ("[" ++ join "," (map escape_commas [x]) ++ "]"). split; [|now apply Hread].
      unfold serializeJcrValue. cbn [map] in *.
      destruct x as [|c x']; [congruence|].
      rewrite Hparts. reflexivity.
  - exists ("[" ++ join "," (map escape_commas (x :: y :: tl)) ++ "]").
    split; [|now apply Hread].
    unfold serializeJcrValue. cbn [map] in *.
    destruct x as [|c x']; rewrite Hparts; reflexivity.
Qed.
End StringArrays.

Lemma string_array_round_trip_witness :
  exists s,
    serializeJcrValue (P := Reference.platform)
      (VArray (map VString ["a,b"; ""; "c"])) = Ok s
    /\ unserializeJcrValue (P := Reference.platform) ("{String}" ++ s)
       = {| u_value := VArray (map VString ["a,b"; ""; "c"]); u_typeHint := "String[]" |}.
Proof.
  apply string_array_round_trip; [discriminate|repeat constructor].
Defined.

(** ** The content file *)
Section ContentXMLFacts.
Context {P : Platform}.
Variable XMLNS : list (string * string).

Lemma join_all_app (a b : list string) : join_all (List.app a b) = join_all a ++ join_all b.
Proof.
  induction a as [|x a IH]; [reflexivity|]. cbn [app join_all fold_right] in *.
  unfold join_all in *. cbn [fold_right]. now rewrite IH, append_assoc.
Qed.

Lemma splice_at (a c items : list string) :
  splice (List.app a c) (length a) items = List.app a (List.app items c).
Proof.
  unfold splice. rewrite firstn_app, skipn_app, Nat.sub_diag, firstn_all, skipn_all.
  cbn [firstn skipn]. now rewrite app_nil_r.
Qed.

(** The loop keeps the attributes before the elements. *)
Lemma process_loop_shape
    (recurse : string -> value -> list (string * string)
               -> Result (string * list (string * string)))
    (H : list string) (entries : tree) :
  forall (A C : list string) (xmlns : list (string * string)) arr' cs' xmlns',
    process_loop XMLNS recurse entries (List.app H (List.app A C)) (length (List.app H A)) xmlns
    = Ok (arr', cs', xmlns') ->
    exists attrs children : list string,
      arr' = List.app H (List.app (List.app A attrs) (List.app C children))
      /\ cs' = length (List.app H (List.app A attrs))
      /\ (exists texts,
            Forall2 (fun kv t => serializeJcrValue (snd kv) = Ok t)
                    (filter is_attribute_entry entries) texts
            /\ join_all attrs
               = join_all (map (fun kt => attribute_text (fst (fst kt)) (snd kt))
                               (combine (filter is_attribute_entry entries) texts)))
      /\ Forall2 (fun kv c => exists x x', recurse (fst kv) (snd kv) x = Ok (c, x'))
                 (filter is_element_entry entries) children.
Proof.
  induction entries as [|[i value] tl IH]; intros A C xmlns arr' cs' xmlns' Hrun.
  - cbn [process_loop] in Hrun. injection Hrun as <- <- <-.
    exists [], []. rewrite !app_nil_r. repeat split; auto.
    exists []. split; [constructor|reflexivity].
  - cbn [process_loop] in Hrun. unfold is_attribute_entry, is_element_entry.
    cbn [filter fst snd].
    destruct (is_meta i); cbn [negb andb] in *; [exact (IH _ _ _ _ _ _ Hrun)|].
    apply rbind_Ok in Hrun as ([[arr1 cs1] x1] & Hstep & Hrun). cbn [fst snd] in Hrun.
    destruct (is_child_value value) eqn:Hchild; cbn [negb andb].
    + apply rbind_Ok in Hstep as ([s x] & Hrec & Hstep). injection Hstep as <- <- <-.
      cbn [fst snd] in Hrun.
      rewrite <- !app_assoc in Hrun.
      apply (IH A (List.app C [s])) in Hrun
        as (attrs & children & -> & -> & Hattrs & Hchildren).
      exists attrs, (s :: children). rewrite <- !app_assoc. repeat split; auto.
      constructor; [now exists xmlns, x|exact Hchildren].
    + destruct (existsb (String.eqb i) internalProps); cbn [negb] in *.
      * injection Hstep as <- <- <-. exact (IH _ _ _ _ _ _ Hrun).
      * apply rbind_Ok in Hstep as (t & Ht & Hstep). injection Hstep as <- <- <-.
        rewrite app_assoc, splice_at in Hrun.
        set (items := [" "; i; "=" ++ String QUOT ""; encodeXML t; String QUOT ""]).
        change [" "; i; String "=" (String QUOT ""); encodeXML t; String QUOT ""]
          with items in Hrun.
        assert (length (List.app H A) + 5 = length (List.app H (List.app A items))) as Hlen
          by (rewrite !length_app; simpl; lia).
        rewrite Hlen in Hrun.
        replace (List.app (List.app H A) (List.app items C))
          with (List.app H (List.app (List.app A items) C)) in Hrun
          by (now rewrite <- !app_assoc).
        apply (IH (List.app A items) C) in Hrun
          as (attrs & children & -> & -> & (texts & Htexts & Hjoin) & Hchildren).
        exists (List.app items attrs), children. rewrite <- !app_assoc.
        repeat split; auto.
        exists (t :: texts). split; [constructor; assumption|].
        cbn [combine map fst snd]. rewrite join_all_app, Hjoin.
        unfold join_all at 3. cbn [fold_right]. f_equal.
Qed.

Lemma content_xml_shape (name : string) (o : tree) (xmlns xmlns' : list (string * string))
    (s : string) :
  process XMLNS name (VObject o) xmlns = Ok (s, xmlns') ->
  exists (texts children : list string),
    Forall2 (fun kv t => serializeJcrValue (snd kv) = Ok t)
            (filter is_attribute_entry o) texts
    /\ Forall2 (fun kv c => exists x x', process XMLNS (fst kv) (snd kv) x = Ok (c, x'))
               (filter is_element_entry o) children
    /\ s = "<" ++ jcrToLocalName name
           ++ join_all (map (fun kt => attribute_text (fst (fst kt)) (snd kt))
                            (combine (filter is_attribute_entry o) texts))
           ++ match children with
              | [] => "/>"
              | _ :: _ => ">" ++ join_all children ++ "</" ++ jcrToLocalName name ++ ">"
              end.
Proof.
  cbn [process]. intros Hrun.
  apply rbind_Ok in Hrun as ([[arr' cs'] x1] & Hloop & Hrun). injection Hrun as <- <-.
  cbn [fst snd].
  set (H := ["<"; jcrToLocalName name]) in *.
  change (process_loop XMLNS (process XMLNS) o H (length H) xmlns = Ok (arr', cs', x1))
    with (process_loop XMLNS (process XMLNS) o (List.app H (List.app [] []))
            (length (List.app H [])) xmlns = Ok (arr', cs', x1)) in Hloop.
  apply process_loop_shape in Hloop
    as (attrs & children & -> & -> & (texts & Htexts & Hjoin) & Hchildren).
  exists texts, children. split; [exact Htexts|]. split; [exact Hchildren|].
  cbn [app] in *. rewrite <- Hjoin. unfold process_close.
  destruct children as [|c cs].
  - rewrite !app_nil_r, Nat.eqb_refl.
    unfold H. rewrite !join_all_app.
    change (join_all ["<"; jcrToLocalName name]) with ("<" ++ jcrToLocalName name ++ "").
    change (join_all ["/>"]) with "/>".
    now rewrite !append_assoc, ?append_nil_r.
  - assert (Nat.eqb (length (List.app H attrs))
                    (length (List.app H (List.app attrs (c :: cs)))) = false) as ->.
    { apply Nat.eqb_neq. rewrite !length_app. simpl. lia. }
    rewrite app_assoc, splice_at, !join_all_app.
    unfold H.
    change (join_all ["<"; jcrToLocalName name]) with ("<" ++ jcrToLocalName name ++ "").
    change (join_all [">"]) with ">".
    change (join_all ["</"; jcrToLocalName name; ">"])
      with ("</" ++ jcrToLocalName name ++ ">" ++ "").
    now rewrite !append_assoc, ?append_nil_r.
Qed.

(** In the element [process] writes for an object the attributes come
    first, one for every entry that is no child node, has no reserved prefix
    and is no internal property, in the order of the entries and under the
    key as it is; then come the elements of the child nodes, in their order,
    between the opening and the closing tag. An object without child node
    gives an empty-element tag. The value of an attribute is the text of
    [serializeJcrValue] passed through [encodeXML]. *)
Theorem content_xml_element (name : string) (o : tree) (xmlns xmlns' : list (string * string))
    (s : string) :
  process XMLNS name (VObject o) xmlns = Ok (s, xmlns') ->
  exists (texts children : list string),
    Forall2 (fun kv t => serializeJcrValue (snd kv) = Ok t)
            (filter is_attribute_entry o) texts
    /\ Forall2 (fun kv c => exists x x', process XMLNS (fst kv) (snd kv) x = Ok (c, x'))
               (filter is_element_entry o) children
    /\ s = "<" ++ jcrToLocalName name
           ++ join_all (map (fun kt => attribute_text (fst (fst kt)) (snd kt))
                            (combine (filter is_attribute_entry o) texts))
           ++ match children with
              | [] => "/>"
              | _ :: _ => ">" ++ join_all children ++ "</" ++ jcrToLocalName name ++ ">"
              end.
Proof. apply content_xml_shape. Qed.
End ContentXMLFacts.

Lemma content_xml_element_witness :
  exists (texts children : list string),
    Forall2 (fun kv t => serializeJcrValue (snd kv) = Ok t)
            (filter is_attribute_entry
               [ (":title", @VString Reference.platform "String");
                 ("child", VObject []); ("title", VString "T");
                 ("jcr:created", VString "2020") ]) texts
    /\ Forall2 (fun kv c => exists x x', process [] (fst kv) (snd kv) x = Ok (c, x'))
               (filter is_element_entry
                  [ (":title", @VString Reference.platform "String");
                    ("child", VObject []); ("title", VString "T");
                    ("jcr:created", VString "2020") ]) children
    /\ "<page title=" ++ String QUOT "" ++ "T" ++ String QUOT "" ++ "><child/></page>"
       = "<" ++ jcrToLocalName "page"
           ++ join_all (map (fun kt => attribute_text (fst (fst kt)) (snd kt))
                            (combine (filter is_attribute_entry
                                        [ (":title", @VString Reference.platform "String");
                                          ("child", VObject []); ("title", VString "T");
                                          ("jcr:created", VString "2020") ]) texts))
           ++ match children with
              | [] => "/>"
              | _ :: _ => ">" ++ join_all children ++ "</" ++ jcrToLocalName "page" ++ ">"
              end.
Proof.
  exact (content_xml_element (P := Reference.platform) [] "page"
           [ (":title", VString "String"); ("child", VObject []); ("title", VString "T");
             ("jcr:created", VString "2020") ] [] [] _ eq_refl).
Defined.

(** ** The namespace declarations of the content file *)
Section Namespaces.
Context {P : Platform}.
Variable XMLNS : list (string * string).

Lemma lookup_string_None (table : list (string * string)) (k : string) :
  lookup_string table k = None -> ~ In k (map fst table).
Proof.
  induction table as [|[k' v] tl IH]; simpl; [auto|].
  destruct (String.eqb_spec k' k); [discriminate|].
  intros H [E|Hin]; [congruence|now apply IH].
Qed.

Lemma NoDup_snoc {A} (l : list A) (a : A) : NoDup l -> ~ In a l -> NoDup (List.app l [a]).
Proof.
  intros Hl Ha. induction Hl as [|x l Hx Hl IH]; simpl.
  - constructor; [auto|constructor].
  - constructor.
    + rewrite in_app_iff. intros [H|[H|[]]]; [contradiction|].
      subst. apply Ha. now left.
    + apply IH. intros H. apply Ha. now right.
Qed.

Lemma addNamespace_string_ok (xmlns : list (string * string)) (i : string) :
  declarations_ok XMLNS xmlns -> declarations_ok XMLNS (addNamespace_string XMLNS xmlns i).
Proof.
  intros [Hnd Hall]. unfold addNamespace_string.
  destruct (namespace_prefix i) as [ns|]; [|now split].
  destruct (existsb _ _); cbn [orb]; [now split|].
  destruct (lookup_string xmlns ns) eqn:Hx; [now split|].
  destruct (lookup_string XMLNS ns) as [address|] eqn:Ha; [|now split].
  split.
  - rewrite map_app. apply NoDup_snoc; [exact Hnd|]. now apply lookup_string_None.
  - apply Forall_app. split; [exact Hall|]. constructor; [|constructor].
    exists address. split; [exact Ha|reflexivity].
Qed.

Lemma addNamespace_fold_ok (l : list value) (xmlns : list (string * string)) :
  declarations_ok XMLNS xmlns ->
  declarations_ok XMLNS (fold_left (addNamespace XMLNS) l xmlns).
Proof.
  revert xmlns. induction l as [|v tl IH]; intros xmlns H; [exact H|].
  cbn [fold_left]. apply IH. destruct v; try exact H.
  now apply addNamespace_string_ok.
Qed.

Lemma process_loop_ok
    (recurse : string -> value -> list (string * string)
               -> Result (string * list (string * string)))
    (entries : tree) :
  Forall (fun kv => forall i x s x',
            declarations_ok XMLNS x -> recurse i (snd kv) x = Ok (s, x') ->
            declarations_ok XMLNS x') entries ->
  forall arr cs xmlns arr' cs' xmlns',
    declarations_ok XMLNS xmlns ->
    process_loop XMLNS recurse entries arr cs xmlns = Ok (arr', cs', xmlns') ->
    declarations_ok XMLNS xmlns'.
Proof.
  induction 1 as [|[i value] tl Hrec _ IH]; intros arr cs xmlns arr' cs' xmlns' Hok Hrun.
  - cbn [process_loop] in Hrun. now injection Hrun as <- <- <-.
  - cbn [process_loop] in Hrun.
    destruct (is_meta i); cbn [negb] in Hrun; [now apply (IH _ _ _ _ _ _ Hok Hrun)|].
    apply rbind_Ok in Hrun as ([[arr1 cs1] x1] & Hstep & Hrun). cbn [fst snd] in Hrun.
    assert (declarations_ok XMLNS x1) as H1.
    { destruct (is_child_value value).
      - apply rbind_Ok in Hstep as ([s x] & Hr & Hstep).
        injection Hstep as <- <- <-. exact (Hrec i _ _ _ Hok Hr).
      - destruct (negb _).
        + apply rbind_Ok in Hstep as (t & _ & Hstep).
          injection Hstep as <- <- <-. now apply addNamespace_fold_ok.
        + injection Hstep as <- <- <-. exact Hok. }
    exact (IH _ _ _ _ _ _ (addNamespace_string_ok x1 i H1) Hrun).
Qed.

Lemma process_ok (v : value) :
  forall name xmlns xml xmlns',
    declarations_ok XMLNS xmlns -> process XMLNS name v xmlns = Ok (xml, xmlns') ->
    declarations_ok XMLNS xmlns'.
Proof.
  induction v as [| | | | | | |o IH] using value_rect';
    intros name xmlns xml xmlns' Hok Hrun; cbn [process rbind] in Hrun;
    try (injection Hrun as <- <-; exact Hok).
  apply rbind_Ok in Hrun as ([[arr' cs'] x1] & Hloop & Hrun). injection Hrun as <- <-.
  cbn [snd]. eapply process_loop_ok; [|exact Hok|exact Hloop].
  eapply Forall_impl; [|exact IH]. intros kv Hkv i x s0 x' Hx Hr. eapply Hkv; eauto.
Qed.

(** The declarations [convertToJcrContentXML] puts on the root element are
    for prefixes of the table only, each with the address of the table, and
    no prefix is declared twice. *)
Theorem content_xml_namespaces (name : string) (v : value) (s : string)
    (xmlns : list (string * string)) :
  process XMLNS name v [] = Ok (s, xmlns) -> declarations_ok XMLNS xmlns.
Proof.
  apply process_ok. split; constructor.
Qed.
End Namespaces.

Lemma content_xml_namespaces_witness :
  declarations_ok [("jcr", "http://www.jcp.org/jcr/1.0"); ("cq", "http://www.day.com/jcr/cq/1.0")]
    [("cq", "xmlns:cq=" ++ String QUOT "" ++ "http://www.day.com/jcr/cq/1.0" ++ String QUOT "");
     ("jcr", "xmlns:jcr=" ++ String QUOT "" ++ "http://www.jcp.org/jcr/1.0" ++ String QUOT "")].
Proof.
  exact (content_xml_namespaces (P := Reference.platform)
           [("jcr", "http://www.jcp.org/jcr/1.0"); ("cq", "http://www.day.com/jcr/cq/1.0")]
           jcrRoot
           (VObject [("jcr:primaryType", VString "cq:Page"); ("cq:tags", VArray [VString "jcr:x"])])
           _ _ eq_refl).
Defined.

(** ** Moving a node *)
Section MoveFacts.
Context {P : Platform} {T : Transport}.

(** [moveJcrNode] asks nothing of a server when the destination is on
    another server than the source: it ends with a repository-operation
    error. On one server it makes one request, the move, at the root of the
    repository; when the request fails, the failure is the outcome as it is
    and the move is not reported on the message channel. *)
Theorem moveJcrNode_outcome (src dst : Location) (w : World) :
  ((scheme src <> scheme dst \/ authority src <> authority dst) ->
   moveJcrNode src dst w
   = (Throw (OperationError "Destination is on different server than source"),
      (w, [Message "[ERROR] Destination is on different server than source"])))
  /\ (scheme src = scheme dst -> authority src = authority dst ->
      exists w1,
        (exists res,
           post CRX_ROOT [(":diff", ">" ++ path src ++ " : " ++ path dst)] w = (inr res, w1)
           /\ moveJcrNode src dst w
              = (Ok tt, (w1, [ POST CRX_ROOT
                                 [(":diff", ">" ++ path src ++ " : " ++ path dst)] None;
                               Message ("repo: Moved " ++ path src ++ " to " ++ path dst) ])))
        \/ (exists err,
              post CRX_ROOT [(":diff", ">" ++ path src ++ " : " ++ path dst)] w = (inl err, w1)
              /\ moveJcrNode src dst w
                 = (Throw err, (w1, [ POST CRX_ROOT
                                        [(":diff", ">" ++ path src ++ " : " ++ path dst)]
                                        (Some err) ])))).
Proof.
  unfold moveJcrNode. split.
  - intros H.
    assert ((negb (String.eqb (scheme src) (scheme dst))
             || negb (String.eqb (authority src) (authority dst)))%bool = true) as ->.
    { apply orb_true_iff. destruct H as [H|H]; [left|right];
        apply negb_true_iff; now apply String.eqb_neq. }
    reflexivity.
  - intros -> ->. rewrite !String.eqb_refl. cbn [negb orb].
    unfold bind, client_post, writeMessage, emit.
    destruct (post CRX_ROOT _ w) as [[err|res] w1]; exists w1; [right|left]; eauto.
Qed.
End MoveFacts.

Lemma moveJcrNode_outcome_witness :
  moveJcrNode (T := sample_server)
    {| scheme := "http"; authority := "localhost:4502"; path := "/a" |}
    {| scheme := "http"; authority := "localhost:4503"; path := "/b" |} tt
  = (Throw (OperationError "Destination is on different server than source"),
     (tt, [Message "[ERROR] Destination is on different server than source"])).
Proof.
  apply (proj1 (moveJcrNode_outcome (T := sample_server)
                  {| scheme := "http"; authority := "localhost:4502"; path := "/a" |}
                  {| scheme := "http"; authority := "localhost:4503"; path := "/b" |} tt)).
  right. discriminate.
Defined.

(** ** The type of a property the server knows *)
Section BackFill.
Context {P : Platform}.

Lemma Forall2_In_l {A B} {R : A -> B -> Prop} {l : list A} {l' : list B} {x : A} :
  Forall2 R l l' -> In x l -> exists y, In y l' /\ R x y.
Proof.
  induction 1 as [|a b l l' Hab _ IH]; intros Hin; [destruct Hin|].
  destruct Hin as [->|Hin].
  - exists b. split; [now left|exact Hab].
  - destruct (IH Hin) as (y & Hy & Hxy). exists y. split; [now right|exact Hxy].
Qed.

(** When a scalar property changes and the desired tree gives no type for
    it, the type the current node has for it (the value under the property
    name behind the reserved prefix, a non-empty string) is the type hint
    written with the new value. The property has changed when its rendering
    differs from the rendering of what the current node gives under its
    name. *)
Theorem type_hint_back_fill (options : SaveOptions) (currentData0 : tree)
    (properties0 : value) (order : option nat) (pl : Plan)
    (i t rendered renderedCurrent : string) :
  plan options currentData0 properties0 order = Ok pl ->
  let ignored := List.app internalProps (ignoreProps options) in
  let currentData := delete_each ignored currentData0 in
  let desired := delete_each ignored (spread properties0) in
  is_meta i = false -> has_key desired i = true ->
  is_scalar (get desired i) = true ->
  formatJcrValue (get desired i) = Ok rendered ->
  format_member (lookup currentData i) = Ok renderedCurrent ->
  rendered <> renderedCurrent ->
  has_key desired (":" ++ i) = false ->
  get currentData (":" ++ i) = VString t -> t <> "" ->
  In (i, rendered) (plan_formData pl)
  /\ In (i ++ "@TypeHint", t) (plan_formData pl).
Proof.
  unfold plan. intros H. cbv zeta.
  set (ignored := List.app internalProps (ignoreProps options)) in *.
  set (currentData := delete_each ignored currentData0) in *.
  set (desired := delete_each ignored (spread properties0)) in *.
  set (st0 := {| d_properties := desired; d_childrenToDelete := [];
                 d_formData := []; d_childProps := [] |}) in *.
  intros Hm Hkey Hs Hr Hc Hne Hno Hcur Ht.
  destruct (scan_current_fold options currentData (keys currentData) st0)
    as (_ & Hp & _).
  set (properties := d_properties (fold_left (scan_current options currentData)
                                     (keys currentData) st0)) in *.
  assert (get properties (":" ++ i) = VString t) as Hhint.
  { unfold properties. rewrite scan_current_fold_meta; auto.
    apply has_key_In. apply get_has_key. rewrite Hcur. discriminate. }
  destruct (Hp i Hm) as [Hget Hhas]. cbn [d_properties st0] in Hget, Hhas.
  apply rbind_Ok in H as ([formData1 childProps] & Hscan & H). injection H as <-.
  cbn [plan_formData].
  apply scan_all_desired_app in Hscan as (parts & Hparts & ->).
  assert (In i (keys properties)) as Hin.
  { apply has_key_In. now rewrite Hhas. }
  destruct (Forall2_In_l Hparts Hin) as (es & Hes & child & Hscan).
  rewrite (scan_desired_changed properties currentData i rendered renderedCurrent) in Hscan;
    try assumption; try (now rewrite Hget).
  injection Hscan as <- _.
  assert (type_hint properties i = [(i ++ "@TypeHint", t)]) as Hth.
  { pose proof (proj2 (String.eqb_neq t "") Ht) as Hf.
    unfold type_hint. rewrite Hhint. cbn [truthy js_String].
    rewrite Hf. cbn [negb]. now rewrite Hf. }
  rewrite Hth in Hes.
  split; apply in_or_app; left; apply in_or_app; right; apply in_concat;
    eexists; (split; [exact Hes|]); simpl; auto.
Qed.
End BackFill.

Lemma type_hint_back_fill_witness :
  In ("n", "7") [("n", "7"); ("n@TypeHint", "Long")]
  /\ In ("n" ++ "@TypeHint", "Long") [("n", "7"); ("n@TypeHint", "Long")].
Proof.
  apply (type_hint_back_fill (P := Reference.platform) keep_options
           [("n", int_value 5); (":n", VString "Long")]
           (VObject [("n", int_value 7)]) None
           {| plan_currentData := [("n", int_value 5); (":n", VString "Long")];
              plan_formData := [("n", "7"); ("n@TypeHint", "Long")];
              plan_childrenToDelete := [];
              plan_childProps := [];
              plan_childProto := ProtoDefault |}
           "n" "Long" "7" "5" eq_refl); try reflexivity; discriminate.
Defined.

(** ** Children deleted and children written *)
Section DeletedOrWritten.
Context {P : Platform}.

(** A child [processNode] deletes is not a child it goes on to write: the
    children deleted are not named by the desired tree, the children written
    are. *)
Theorem deleted_children_not_written (options : SaveOptions) (currentData0 : tree)
    (properties0 : value) (order : option nat) (pl : Plan) (k : string) :
  plan options currentData0 properties0 order = Ok pl ->
  In k (plan_childrenToDelete pl) -> ~ In k (keys (plan_childProps pl)).
Proof.
  unfold plan. intros H Hdel Hwr.
  set (ignored := List.app internalProps (ignoreProps options)) in *.
  set (currentData := delete_each ignored currentData0) in *.
  set (desired := delete_each ignored (spread properties0)) in *.
  set (st0 := {| d_properties := desired; d_childrenToDelete := [];
                 d_formData := []; d_childProps := [] |}) in *.
  destruct (scan_current_fold options currentData (keys currentData) st0) as (_ & Hp & _).
  apply rbind_Ok in H as ([fd cp] & Hscan & H). injection H as <-.
  cbn [plan_childrenToDelete plan_childProps] in *.
  rewrite (scan_current_children options currentData desired) in Hdel
    by (intros; reflexivity).
  cbn [d_childrenToDelete st0 app] in Hdel.
  apply filter_In in Hdel as [_ Hdel].
  repeat (apply andb_true_iff in Hdel as [Hdel ?]).
  destruct (scan_all_desired_children _ _ _ _ _ _ _ k Hscan Hwr)
    as [[[] _]|(Hin & Hm & _)].
  apply has_key_In in Hin. rewrite (proj2 (Hp k Hm)) in Hin. cbn [d_properties st0] in Hin.
  match goal with Hn : negb (in_object desired k) = true |- _ =>
    apply negb_true_iff, in_object_false in Hn as [Hn _]; congruence end.
Qed.
End DeletedOrWritten.

Lemma deleted_children_not_written_witness :
  ~ In "old" (keys [("kept", @VObject Reference.platform [])]).
Proof.
  apply (deleted_children_not_written (P := Reference.platform) delete_options
           [("old", VObject []); ("kept", VObject []); ("title", VString "t")]
           (VObject [("kept", VObject [])]) None
           {| plan_currentData := [("old", VObject []); ("kept", VObject []);
                                   ("title", VString "t")];
              plan_formData := [];
              plan_childrenToDelete := ["old"];
              plan_childProps := [("kept", VObject [])];
              plan_childProto := ProtoDefault |} "old" eq_refl).
  simpl. auto.
Defined.

(** ** The content file as a whole *)
Section ContentDocument.
Context {P : Platform}.
Variable XMLNS : list (string * string).

Lemma GetSubstitution_whole (m t : string) :
  has_char "$" t = false -> GetSubstitution m [] (t ++ "$&") = t ++ m.
Proof.
  induction t as [|c t IH]; intros H.
  - cbn. apply append_nil_r.
  - cbn [has_char] in H. apply orb_false_elim in H as [Hc Ht].
    cbn [append GetSubstitution]. rewrite Hc. now rewrite IH.
Qed.

Lemma replace_first_break_root (template rest : string) (c : ascii) :
  (Ascii.eqb c " " || Ascii.eqb c ">")%bool = true ->
  replace_first_break template ("<jcr:root" ++ String c rest)
  = "<jcr:root" ++ GetSubstitution (String c "") [] template ++ rest.
Proof.
  intros H. cbn [append replace_first_break Ascii.eqb Bool.eqb orb]. now rewrite H.
Qed.

Lemma lookup_string_In (table : list (string * string)) (k v : string) :
  lookup_string table k = Some v -> In (k, v) table.
Proof.
  induction table as [|[k' v'] tl IH]; simpl; [discriminate|].
  destruct (String.eqb_spec k' k) as [->|_].
  - intros H. injection H as ->. now left.
  - intros H. right. now apply IH.
Qed.

Lemma has_char_join (c : ascii) (sep : string) (l : list string) :
  has_char c sep = false -> Forall (fun s => has_char c s = false) l ->
  has_char c (join sep l) = false.
Proof.
  intros Hsep. induction 1 as [|x [|y tl] Hx Htl IH]; [reflexivity|exact Hx|].
  change (join sep (x :: y :: tl)) with (x ++ sep ++ join sep (y :: tl)).
  now rewrite !has_char_app, Hx, Hsep, IH.
Qed.

Lemma declarations_no_dollar (decls : list (string * string)) :
  (forall ns address, In (ns, address) XMLNS ->
     has_char "$" ns = false /\ has_char "$" address = false) ->
  declarations_ok XMLNS decls ->
  has_char "$" (" " ++ join " " (map snd decls)) = false.
Proof.
  intros Htable [_ Hall]. rewrite has_char_app. cbn [has_char Ascii.eqb Bool.eqb orb].
  apply has_char_join; [reflexivity|].
  apply Forall_map. eapply Forall_impl; [|exact Hall].
  intros [ns d] (address & Hlook & Hd). cbn [fst snd] in *. subst d.
  destruct (Htable _ _ (lookup_string_In _ _ _ Hlook)) as [Hns Haddr].
  rewrite !has_char_app, Hns, Haddr. reflexivity.
Qed.

(** The element of the root starts with its name, and what follows the
    name starts with a space or a closing angle bracket when the root has
    an attribute or a child. *)
Lemma root_element_break (properties : tree) (xmlns decls : list (string * string))
    (xml : string) :
  process XMLNS jcrRoot (VObject properties) xmlns = Ok (xml, decls) ->
  filter is_attribute_entry properties <> [] \/ filter is_element_entry properties <> [] ->
  exists c rest,
    xml = "<jcr:root" ++ String c rest
    /\ (Ascii.eqb c " " || Ascii.eqb c ">")%bool = true.
Proof.
  intros Hrun Hsome.
  apply content_xml_shape in Hrun as (texts & children & Htexts & Hchildren & ->).
  change (jcrToLocalName jcrRoot) with "jcr:root".
  destruct (filter is_attribute_entry properties) as [|kv attrs] eqn:Ea.
  - inversion Htexts; subst. cbn [combine map join_all fold_right append].
    destruct Hsome as [Hs|Hs]; [congruence|].
    destruct children as [|ch chs].
    + inversion Hchildren as [E|]. symmetry in E. contradiction.
    + eexists. eexists. split; [reflexivity|reflexivity].
  - inversion Htexts as [|? t ? ts Ht Hts]; subst.
    cbn [combine map join_all fold_right]. unfold attribute_text at 1.
    eexists. eexists. split; [reflexivity|reflexivity].
Qed.
End ContentDocument.

Section ContentDocumentTheorem.
Context {P : Platform}.
Variable XMLNS : list (string * string).

(** The file [convertToJcrContentXML] writes for a root with an attribute
    or a child, when no prefix and no address of the table holds a dollar
    sign: the XML declaration, then the root element whose name is followed
    by a space and the collected declarations, separated by spaces, and
    then by what [process] wrote after the name. *)
Theorem content_xml_document (properties : tree) (doc : string) :
  (forall ns address, In (ns, address) XMLNS ->
     has_char "$" ns = false /\ has_char "$" address = false) ->
  filter is_attribute_entry properties <> [] \/ filter is_element_entry properties <> [] ->
  convertToJcrContentXML XMLNS properties = Ok doc ->
  exists decls rest,
    process XMLNS jcrRoot (VObject properties) [] = Ok ("<jcr:root" ++ rest, decls)
    /\ declarations_ok XMLNS decls
    /\ doc = "<?xml version=" ++ String QUOT "" ++ "1.0" ++ String QUOT ""
             ++ " encoding=" ++ String QUOT "" ++ "UTF-8" ++ String QUOT "" ++ "?>"
             ++ "<jcr:root " ++ join " " (map snd decls) ++ rest.
Proof.
  intros Htable Hsome Hrun. unfold convertToJcrContentXML in Hrun.
  apply rbind_Ok in Hrun as ([xml decls] & Hproc & Hrun). cbn [fst snd] in Hrun.
  destruct (root_element_break XMLNS _ _ _ _ Hproc Hsome) as (c & rest & -> & Hc).
  assert (Hok : declarations_ok XMLNS decls).
  { eapply process_ok; [|exact Hproc]. split; constructor. }
  assert (E : replace_first_break (" " ++ join " " (map snd decls) ++ "$&")
                ("<jcr:root" ++ String c rest)
              = "<jcr:root " ++ join " " (map snd decls) ++ String c rest).
  { rewrite (replace_first_break_root _ rest c Hc).
    rewrite <- (append_assoc " " (join " " (map snd decls)) "$&").
    rewrite GetSubstitution_whole by now apply (declarations_no_dollar XMLNS).
    rewrite !append_assoc. reflexivity. }
  rewrite E in Hrun. exists decls, (String c rest).
  split; [exact Hproc|]. split; [exact Hok|].
  injection Hrun as <-. reflexivity.
Qed.
End ContentDocumentTheorem.

Lemma content_xml_document_witness :
  exists decls rest,
    process (P := Reference.platform)
      [("jcr", "http://www.jcp.org/jcr/1.0"); ("cq", "http://www.day.com/jcr/cq/1.0")]
      jcrRoot (VObject [("jcr:primaryType", VString "cq:Page")]) []
    = Ok ("<jcr:root" ++ rest, decls)
    /\ declarations_ok
         [("jcr", "http://www.jcp.org/jcr/1.0"); ("cq", "http://www.day.com/jcr/cq/1.0")] decls
    /\ "<?xml version=" ++ String QUOT "" ++ "1.0" ++ String QUOT ""
       ++ " encoding=" ++ String QUOT "" ++ "UTF-8" ++ String QUOT "" ++ "?>"
       ++ "<jcr:root xmlns:cq=" ++ String QUOT "" ++ "http://www.day.com/jcr/cq/1.0"
       ++ String QUOT "" ++ " xmlns:jcr=" ++ String QUOT "" ++ "http://www.jcp.org/jcr/1.0"
       ++ String QUOT "" ++ " jcr:primaryType=" ++ String QUOT "" ++ "cq:Page"
       ++ String QUOT "" ++ "/>"
       = "<?xml version=" ++ String QUOT "" ++ "1.0" ++ String QUOT ""
         ++ " encoding=" ++ String QUOT "" ++ "UTF-8" ++ String QUOT "" ++ "?>"
         ++ "<jcr:root " ++ join " " (map snd decls) ++ rest.
Proof.
  apply (content_xml_document (P := Reference.platform)
           [("jcr", "http://www.jcp.org/jcr/1.0"); ("cq", "http://www.day.com/jcr/cq/1.0")]
           [("jcr:primaryType", VString "cq:Page")]).
  - intros ns address [E|[E|[]]]; injection E as <- <-; split; reflexivity.
  - left. discriminate.
  - reflexivity.
Defined.
